(** * FileWatcher: a shallow embedding of [openhands/intent/watch.py]

    The watcher turns raw filesystem notifications into [FileEditObservation]
    records.  This development embeds

    - the pieces of the Python standard library the watcher relies on
      ([str] methods, [os.path] on POSIX, [difflib.unified_diff]),
    - the [FileWatcher] class: its tables, its handlers and the [Timer]
      threads it starts,

    and states the properties of the specification over them.

    Conventions.  A Python [str] is a Rocq [string]; every character stands
    for the code point of the same number (so the model covers the code
    points below 256).  List indices and line numbers are [nat].  Points in
    time and delays are [Z] (an exact time line in place of float seconds).
    [os.sep] is ["/"] (POSIX). *)

From Stdlib Require Import Ascii String ZArith Lia Sorted.
From stdpp Require Import base strings list gmap pretty.

Local Open Scope string_scope.
Local Open Scope list_scope.

(** ** Python [str] methods *)

Module pystr.

(** [s.startswith(p)] *)
Definition startswith (s p : string) : bool := String.prefix p s.

(** [s.endswith(suf)] *)
Fixpoint endswith (s suf : string) : bool :=
  String.eqb s suf ||
  match s with
  | EmptyString => false
  | String _ s' => endswith s' suf
  end.

(** [s.split(sep)] for a one-character separator: the pieces between the
    separators, empty pieces included; never the empty list. *)
Fixpoint split (sep : ascii) (s : string) : list string :=
  match s with
  | EmptyString => [EmptyString]
  | String c s' =>
      if Ascii.eqb c sep then EmptyString :: split sep s'
      else match split sep s' with
           | [] => [String c EmptyString]
           | w :: ws => String c w :: ws
           end
  end.

(** [sep.join(l)] *)
Definition join (sep : string) (l : list string) : string := String.concat sep l.

(** The line boundaries of [str.splitlines] among the code points below 256:
    LF, VT, FF, CR, FS, GS, RS and NEL. *)
Definition is_linebreak (c : ascii) : bool :=
  let n := nat_of_ascii c in
  (10 <=? n)%nat && (n <=? 13)%nat || (28 <=? n)%nat && (n <=? 30)%nat || (n =? 133)%nat.

Definition CR : ascii := ascii_of_nat 13.
Definition LF : ascii := ascii_of_nat 10.

(** [s.splitlines(keepends=True)]: CR LF counts as one boundary, every line
    keeps its boundary, a trailing piece without boundary is a line too. *)
Fixpoint splitlines (s : string) : list string :=
  match s with
  | EmptyString => []
  | String c s' =>
      if is_linebreak c then
        match s' with
        | String d s'' =>
            if Ascii.eqb c CR && Ascii.eqb d LF
            then String c (String d EmptyString) :: splitlines s''
            else String c EmptyString :: splitlines s'
        | EmptyString => [String c EmptyString]
        end
      else match splitlines s' with
           | [] => [String c EmptyString]
           | l :: ls => String c l :: ls
           end
  end.

End pystr.

(** ** What a handler can observe of the operating system *)

(** The operating system as one handler invocation sees it.  [read_text p]
    is [open(p, 'r', encoding='utf-8').read()], [None] when that raises
    [IOError] or [UnicodeDecodeError]. *)
Record Env := {
  getcwd : string;
  isdir : string -> bool;
  read_text : string -> option string;
  time : Z
}.

(** ** [os.path] (posixpath) *)

Module posixpath.

Definition sep : ascii := "/"%char.

Definition isabs (p : string) : bool := pystr.startswith p "/".

(** [basename(p)]: what follows the last separator. *)
Definition basename (p : string) : string := List.last (pystr.split sep p) "".

(** [join(a, b)] *)
Definition join (a b : string) : string :=
  if pystr.startswith b "/" then b
  else if String.eqb a "" || pystr.endswith a "/" then a +:+ b
  else a +:+ "/" +:+ b.

(** The loop body of [normpath]: [new_comps] after seeing [comp]. *)
Definition normpath_step (initial_slashes : nat) (new_comps : list string)
    (comp : string) : list string :=
  if String.eqb comp "" || String.eqb comp "." then new_comps
  else if negb (String.eqb comp "..")
          || (Nat.eqb initial_slashes 0 && Nat.eqb (length new_comps) 0)
          || (negb (Nat.eqb (length new_comps) 0) && String.eqb (List.last new_comps "") "..")
       then new_comps ++ [comp]
       else List.removelast new_comps.

Definition normpath (path : string) : string :=
  if String.eqb path "" then "."
  else
    let initial_slashes :=
      if pystr.startswith path "/" then
        if pystr.startswith path "//" && negb (pystr.startswith path "///") then 2%nat else 1%nat
      else 0%nat in
    let comps := fold_left (normpath_step initial_slashes) (pystr.split sep path) [] in
    let path' := pystr.join "/" comps in
    let path'' := match initial_slashes with
                  | 0%nat => path'
                  | 1%nat => "/" +:+ path'
                  | _ => "//" +:+ path'
                  end in
    if String.eqb path'' "" then "." else path''.

Definition abspath (env : Env) (path : string) : string :=
  if isabs path then normpath path else normpath (join (getcwd env) path).

(** [len(commonprefix([l1, l2]))] on two lists of components. *)
Fixpoint commonprefix_len (l1 l2 : list string) : nat :=
  match l1, l2 with
  | x :: l1', y :: l2' => if String.eqb x y then S (commonprefix_len l1' l2') else 0
  | _, _ => 0
  end.

(** [relpath(path, start)].  The [ValueError] on an empty [path] is not
    modelled: the watcher only passes paths of events and of the tree walk. *)
Definition relpath (env : Env) (path start : string) : string :=
  let start_list :=
    List.filter (fun x => negb (String.eqb x "")) (pystr.split sep (abspath env start)) in
  let path_list :=
    List.filter (fun x => negb (String.eqb x "")) (pystr.split sep (abspath env path)) in
  let i := commonprefix_len start_list path_list in
  let rel_list := replicate (length start_list - i) ".." ++ drop i path_list in
  match rel_list with
  | [] => "."
  | _ => pystr.join "/" rel_list
  end.

End posixpath.

(** ** [difflib]: [SequenceMatcher] and [unified_diff] *)

Module difflib.

(** [Match(a, b, size)]: [a[m_a : m_a+m_size] == b[m_b : m_b+m_size]]. *)
Record Match := mkMatch { m_a : nat; m_b : nat; m_size : nat }.

Inductive Tag := replace | delete | insert | equal.

(** An opcode [(tag, i1, i2, j1, j2)]. *)
Record Opcode := mkOp { tag : Tag; i1 : nat; i2 : nat; j1 : nat; j2 : nat }.

Definition is_equal (t : Tag) : bool :=
  match t with equal => true | _ => false end.

(** [x == y] on two list elements; an index out of range (an [IndexError] in
    Python, never reached below) compares unequal. *)
Definition line_eqb (x y : option string) : bool :=
  match x, y with
  | Some u, Some v => String.eqb u v
  | _, _ => false
  end.

(** [l[lo:hi]] *)
Definition slice {A} (l : list A) (lo hi : nat) : list A := take (hi - lo) (drop lo l).

Section SequenceMatcher.

(** [SequenceMatcher(None, a, b)]: no junk predicate, [autojunk=True]. *)
Variables a b : list string.

(** The indices of [elt] in [l], ascending, counted from [j]. *)
Fixpoint indices_from (j : nat) (l : list string) (elt : string) : list nat :=
  match l with
  | [] => []
  | x :: l' => if String.eqb x elt then j :: indices_from (S j) l' elt
               else indices_from (S j) l' elt
  end.

(** [__chain_b]: an element is popular when [b] has at least 200 elements and
    it fills more than 1% of them (plus one); popular elements are deleted
    from [b2j]. *)
Definition popular (elt : string) : bool :=
  let n := length b in
  (200 <=? n)%nat && (n / 100 + 1 <? length (indices_from 0 b elt))%nat.

(** [b2j.get(elt, [])] *)
Definition b2j (elt : string) : list nat :=
  if popular elt then [] else indices_from 0 b elt.

(** [self.bjunk.__contains__]: [isjunk] is [None], so [bjunk] is empty. *)
Definition isbjunk (elt : option string) : bool := false.

(** [j2len.get(j-1, 0)]; for [j = 0] the key is -1, which no dict holds. *)
Definition j2len_get_pred (j2len : gmap nat nat) (j : nat) : nat :=
  match j with
  | O => 0
  | S j' => default 0 (j2len !! j')
  end.

(** The inner loop of [find_longest_match], over the indices [js] of [a[i]]
    in [b]: [continue] below [blo], [break] from [bhi] on.  [i-k+1] is
    written [i + 1 - k]: on [nat] the subtraction comes last ([k <= i + 1]
    throughout, lemma [flm_inner_inv]). *)
Fixpoint flm_inner (blo bhi i : nat) (j2len : gmap nat nat) (js : list nat)
    (newj2len : gmap nat nat) (best : Match) : gmap nat nat * Match :=
  match js with
  | [] => (newj2len, best)
  | j :: js' =>
      if (j <? blo)%nat then flm_inner blo bhi i j2len js' newj2len best
      else if (bhi <=? j)%nat then (newj2len, best)
      else
        let k := (j2len_get_pred j2len j + 1)%nat in
        let best' := if (m_size best <? k)%nat
                     then mkMatch (i + 1 - k) (j + 1 - k) k else best in
        flm_inner blo bhi i j2len js' (<[j := k]> newj2len) best'
  end.

(** One round of the outer loop: [j2len = newj2len] at its end. *)
Definition flm_row (blo bhi : nat) (st : gmap nat nat * Match) (i : nat)
    : gmap nat nat * Match :=
  let '(j2len, best) := st in
  match a !! i with
  | Some x => flm_inner blo bhi i j2len (b2j x) ∅ best
  | None => (∅, best)
  end.

(** [while besti > alo and bestj > blo and isbjunk(b[bestj-1]) == junk and
    a[besti-1] == b[bestj-1]]: extend the match to the left. *)
Fixpoint extend_left (junk : bool) (alo blo besti bestj bestsize : nat)
    {struct besti} : Match :=
  match besti, bestj with
  | S i', S j' =>
      if (alo <? besti)%nat && (blo <? bestj)%nat
         && Bool.eqb (isbjunk (b !! j')) junk && line_eqb (a !! i') (b !! j')
      then extend_left junk alo blo i' j' (bestsize + 1)
      else mkMatch besti bestj bestsize
  | _, _ => mkMatch besti bestj bestsize
  end.

(** [while besti+bestsize < ahi and bestj+bestsize < bhi and ...]: extend the
    match to the right; [n] bounds the number of rounds. *)
Fixpoint extend_right (junk : bool) (n ahi bhi besti bestj bestsize : nat)
    {struct n} : Match :=
  match n with
  | O => mkMatch besti bestj bestsize
  | S n' =>
      if (besti + bestsize <? ahi)%nat && (bestj + bestsize <? bhi)%nat
         && Bool.eqb (isbjunk (b !! (bestj + bestsize))) junk
         && line_eqb (a !! (besti + bestsize)) (b !! (bestj + bestsize))
      then extend_right junk n' ahi bhi besti bestj (bestsize + 1)
      else mkMatch besti bestj bestsize
  end.

Definition extend (junk : bool) (alo ahi blo bhi : nat) (m : Match) : Match :=
  let m1 := extend_left junk alo blo (m_a m) (m_b m) (m_size m) in
  extend_right junk (ahi - (m_a m1 + m_size m1)) ahi bhi (m_a m1) (m_b m1) (m_size m1).

(** [find_longest_match(alo, ahi, blo, bhi)] *)
Definition find_longest_match (alo ahi blo bhi : nat) : Match :=
  let '(_, best) :=
    fold_left (flm_row blo bhi) (seq alo (ahi - alo)) (∅, mkMatch alo blo 0) in
  extend true alo ahi blo bhi (extend false alo ahi blo bhi best).

(** The [while queue:] loop of [get_matching_blocks].  The head of [queue] is
    the end of the Python list ([pop] takes it, [append] adds there).  Every
    round removes a range and adds strictly smaller ones, so [fuel] rounds
    are enough when [fuel] exceeds [queue_weight queue]. *)
Fixpoint matching_loop (fuel : nat) (queue : list (nat * nat * nat * nat))
    (matching_blocks : list Match) : list Match :=
  match fuel, queue with
  | S fuel', (alo, ahi, blo, bhi) :: queue' =>
      let x := find_longest_match alo ahi blo bhi in
      let '(i, j, k) := (m_a x, m_b x, m_size x) in
      if (0 <? k)%nat then
        let q1 := if (alo <? i)%nat && (blo <? j)%nat
                  then (alo, i, blo, j) :: queue' else queue' in
        let q2 := if (i + k <? ahi)%nat && (j + k <? bhi)%nat
                  then (i + k, ahi, j + k, bhi) :: q1 else q1 in
        matching_loop fuel' q2 (matching_blocks ++ [x])
      else matching_loop fuel' queue' matching_blocks
  | _, _ => matching_blocks
  end.

Definition queue_weight (queue : list (nat * nat * nat * nat)) : nat :=
  list_sum (map (fun '(alo, ahi, _, _) => 2 * (ahi - alo) + 1)%nat queue).

(** The order of tuples: lexicographic. *)
Definition match_leb (x y : Match) : bool :=
  (m_a x <? m_a y)%nat
  || (m_a x =? m_a y)%nat
     && ((m_b x <? m_b y)%nat || (m_b x =? m_b y)%nat && (m_size x <=? m_size y)%nat).

Fixpoint sort_insert (x : Match) (l : list Match) : list Match :=
  match l with
  | [] => [x]
  | y :: l' => if match_leb x y then x :: l else y :: sort_insert x l'
  end.

(** [matching_blocks.sort()] *)
Definition sort (l : list Match) : list Match := fold_right sort_insert [] l.

(** The loop that collapses adjacent blocks; [(i1, j1, k1)] is the block
    compared against. *)
Fixpoint collapse (i1 j1 k1 : nat) (blocks : list Match) : list Match :=
  match blocks with
  | [] => if (0 <? k1)%nat then [mkMatch i1 j1 k1] else []
  | mkMatch i2 j2 k2 :: rest =>
      if (i1 + k1 =? i2)%nat && (j1 + k1 =? j2)%nat
      then collapse i1 j1 (k1 + k2) rest
      else (if (0 <? k1)%nat then [mkMatch i1 j1 k1] else [])
           ++ collapse i2 j2 k2 rest
  end.

(** [get_matching_blocks()] *)
Definition get_matching_blocks : list Match :=
  let la := length a in
  let lb := length b in
  let matching_blocks := sort (matching_loop (2 * la + 2) [(0, la, 0, lb)]%nat []) in
  collapse 0 0 0 matching_blocks ++ [mkMatch la lb 0].

(** The loop of [get_opcodes] from position [(i, j)]. *)
Fixpoint opcodes_from (i j : nat) (blocks : list Match) : list Opcode :=
  match blocks with
  | [] => []
  | mkMatch ai bj size :: rest =>
      let change :=
        if (i <? ai)%nat && (j <? bj)%nat then [mkOp replace i ai j bj]
        else if (i <? ai)%nat then [mkOp delete i ai j bj]
        else if (j <? bj)%nat then [mkOp insert i ai j bj]
        else [] in
      let same :=
        if (0 <? size)%nat then [mkOp equal ai (ai + size) bj (bj + size)] else [] in
      change ++ same ++ opcodes_from (ai + size) (bj + size) rest
  end.

(** [get_opcodes()] *)
Definition get_opcodes : list Opcode := opcodes_from 0 0 get_matching_blocks.

(** [codes[0] = f(codes[0])] and [codes[-1] = f(codes[-1])] when the tag is
    ['equal']. *)
Definition fix_first (n : nat) (codes : list Opcode) : list Opcode :=
  match codes with
  | mkOp equal i1 i2 j1 j2 :: rest =>
      mkOp equal (Nat.max i1 (i2 - n)) i2 (Nat.max j1 (j2 - n)) j2 :: rest
  | _ => codes
  end.

Fixpoint fix_last (n : nat) (codes : list Opcode) : list Opcode :=
  match codes with
  | [] => []
  | [mkOp equal i1 i2 j1 j2] =>
      [mkOp equal i1 (Nat.min i2 (i1 + n)) j1 (Nat.min j2 (j1 + n))]
  | c :: rest => c :: fix_last n rest
  end.

(** The [for tag, i1, i2, j1, j2 in codes:] loop of [get_grouped_opcodes]
    with its final [yield]; the result lists the groups yielded. *)
Fixpoint group_loop (n : nat) (codes : list Opcode) (group : list Opcode)
    : list (list Opcode) :=
  match codes with
  | [] =>
      match group with
      | [] => []
      | [mkOp equal _ _ _ _] => []
      | _ => [group]
      end
  | mkOp t i1 i2 j1 j2 :: rest =>
      if is_equal t && (n + n <? i2 - i1)%nat then
        (group ++ [mkOp t i1 (Nat.min i2 (i1 + n)) j1 (Nat.min j2 (j1 + n))])
        :: group_loop n rest [mkOp t (Nat.max i1 (i2 - n)) i2 (Nat.max j1 (j2 - n)) j2]
      else group_loop n rest (group ++ [mkOp t i1 i2 j1 j2])
  end.

(** [get_grouped_opcodes(n)] *)
Definition get_grouped_opcodes (n : nat) : list (list Opcode) :=
  let codes := match get_opcodes with
               | [] => [mkOp equal 0 1 0 1]
               | codes => codes
               end in
  group_loop n (fix_last n (fix_first n codes)) [].

(** [_format_range_unified(start, stop)] *)
Definition format_range_unified (start stop : nat) : string :=
  let beginning := (start + 1)%nat in
  let length := (stop - start)%nat in
  if (length =? 1)%nat then pretty beginning
  else
    let beginning := if (length =? 0)%nat then (beginning - 1)%nat else beginning in
    pretty beginning +:+ "," +:+ pretty length.

(** The lines [unified_diff] yields for one opcode of a group. *)
Definition opcode_lines (c : Opcode) : list string :=
  match tag c with
  | equal => map (String.append " ") (slice a (i1 c) (i2 c))
  | replace => map (String.append "-") (slice a (i1 c) (i2 c))
               ++ map (String.append "+") (slice b (j1 c) (j2 c))
  | delete => map (String.append "-") (slice a (i1 c) (i2 c))
  | insert => map (String.append "+") (slice b (j1 c) (j2 c))
  end.

(** The hunk header of a group: ['@@ -{} +{} @@{}']. *)
Definition hunk_header (lineterm : string) (group : list Opcode) : string :=
  let first := List.hd (mkOp equal 0 0 0 0) group in
  let last := List.last group (mkOp equal 0 0 0 0) in
  "@@ -" +:+ format_range_unified (i1 first) (i2 last)
  +:+ " +" +:+ format_range_unified (j1 first) (j2 last) +:+ " @@" +:+ lineterm.

Definition group_lines (lineterm : string) (group : list Opcode) : list string :=
  hunk_header lineterm group :: flat_map opcode_lines group.

(** [list(unified_diff(a, b, fromfile, tofile, n=n, lineterm=lineterm))];
    the file dates keep their default, the empty string. *)
Definition unified_diff (fromfile tofile : string) (n : nat) (lineterm : string)
    : list string :=
  match get_grouped_opcodes n with
  | [] => []
  | groups =>
      ("--- " +:+ fromfile +:+ lineterm)
      :: ("+++ " +:+ tofile +:+ lineterm)
      :: flat_map (group_lines lineterm) groups
  end.

End SequenceMatcher.

End difflib.

(** ** [FileWatcher._generate_diff] *)

Definition _generate_diff (old_content new_content path : string) : string :=
  let old_lines := pystr.splitlines old_content in
  let new_lines := pystr.splitlines new_content in
  let diff_lines := difflib.unified_diff old_lines new_lines path path 0 "" in
  let diff_lines :=
    if (2 <? length diff_lines)%nat
    then List.filter (fun line => negb (pystr.startswith line "@@")) (drop 2 diff_lines)
    else diff_lines in
  pystr.join "" diff_lines.

(** ** Observations, events, timers *)

(** Modelled from the spec: [openhands.events.EventSource] is declared outside
    this file; the watcher only uses the tag [USER] ("tagged as
    user-originated"). *)
Inductive EventSource := AGENT | USER | ENVIRONMENT.

(** Modelled from the spec: [openhands.events.observation.FileEditObservation]
    is declared outside this file; these are the keyword arguments the watcher
    passes: relative path, previous-existence flag, old content, new content
    and diff body. *)
Record FileEditObservation := {
  path : string;
  prev_exist : bool;
  old_content : string;
  new_content : string;
  content : string
}.

(** A raw notification of [watchdog]; [dest_path] is only read for moves. *)
Record FileSystemEvent := {
  src_path : string;
  dest_path : string;
  is_directory : bool
}.

(** The two functions the watcher hands to a [threading.Timer], with their
    arguments. *)
Inductive Callback :=
| handle_debounced_change (p : string)
| handle_delayed_delete (p : string) (old : string).

(** A [threading.Timer] that was started at time [started].  [finished] is
    its event flag: [cancel()] sets it, and [run()] calls [function] after
    [interval] only if it is not set, then sets it. *)
Record Timer := {
  interval : Z;
  started : Z;
  function : Callback;
  finished : bool
}.

Definition cancel (t : Timer) : Timer :=
  {| interval := interval t; started := started t; function := function t;
     finished := true |}.

(** ** A [dict] whose iteration order matters

    [recent_deletes] is scanned in iteration order by [on_created]; a Python
    [dict] iterates in insertion order, assignment to a present key keeps its
    place. *)

Module odict.
Section odict.
Context {V : Type}.

Fixpoint get (k : string) (d : list (string * V)) : option V :=
  match d with
  | [] => None
  | (k', v) :: d' => if String.eqb k k' then Some v else get k d'
  end.

(** [d[k] = v] *)
Fixpoint set (k : string) (v : V) (d : list (string * V)) : list (string * V) :=
  match d with
  | [] => [(k, v)]
  | (k', v') :: d' => if String.eqb k k' then (k, v) :: d' else (k', v') :: set k v d'
  end.

(** [d.pop(k)] (the value is dropped): the entry of key [k] goes; a dict
    holds at most one. *)
Definition pop (k : string) (d : list (string * V)) : list (string * V) :=
  List.filter (fun kv => negb (String.eqb k (fst kv))) d.

(** [k in d] *)
Definition mem (k : string) (d : list (string * V)) : bool :=
  match get k d with Some _ => true | None => false end.

End odict.
End odict.

(** ** The [FileWatcher] object *)

(** The attributes of [self].  [gitignore_spec] is the compiled [PathSpec],
    through its [match_file]; [observer_alive] is the state of
    [self.observer]; [timers] holds every [Timer] started so far, and
    [debounce_timers] refers to them by position (two references to one
    position are one object). *)
Record FileWatcher := {
  directory : string;
  event_stream : list (FileEditObservation * EventSource);
  recursive : bool;
  patterns : option (list string);
  ignore_patterns : list string;
  gitignore_spec : string -> bool;
  observer_alive : bool;
  file_contents : gmap string string;
  pending_changes : gset string;
  debounce_timers : gmap string nat;
  debounce_delay : Z;
  use_debouncing : bool;
  recent_deletes : list (string * (string * Z));
  rename_window : Z;
  timers : list Timer
}.

Definition set_event_stream (f : list (FileEditObservation * EventSource) ->
    list (FileEditObservation * EventSource)) (s : FileWatcher) : FileWatcher :=
  {| directory := directory s; event_stream := f (event_stream s);
     recursive := recursive s; patterns := patterns s;
     ignore_patterns := ignore_patterns s; gitignore_spec := gitignore_spec s;
     observer_alive := observer_alive s; file_contents := file_contents s;
     pending_changes := pending_changes s; debounce_timers := debounce_timers s;
     debounce_delay := debounce_delay s; use_debouncing := use_debouncing s;
     recent_deletes := recent_deletes s; rename_window := rename_window s;
     timers := timers s |}.

Definition set_observer_alive (v : bool) (s : FileWatcher) : FileWatcher :=
  {| directory := directory s; event_stream := event_stream s;
     recursive := recursive s; patterns := patterns s;
     ignore_patterns := ignore_patterns s; gitignore_spec := gitignore_spec s;
     observer_alive := v; file_contents := file_contents s;
     pending_changes := pending_changes s; debounce_timers := debounce_timers s;
     debounce_delay := debounce_delay s; use_debouncing := use_debouncing s;
     recent_deletes := recent_deletes s; rename_window := rename_window s;
     timers := timers s |}.

Definition set_file_contents (f : gmap string string -> gmap string string)
    (s : FileWatcher) : FileWatcher :=
  {| directory := directory s; event_stream := event_stream s;
     recursive := recursive s; patterns := patterns s;
     ignore_patterns := ignore_patterns s; gitignore_spec := gitignore_spec s;
     observer_alive := observer_alive s; file_contents := f (file_contents s);
     pending_changes := pending_changes s; debounce_timers := debounce_timers s;
     debounce_delay := debounce_delay s; use_debouncing := use_debouncing s;
     recent_deletes := recent_deletes s; rename_window := rename_window s;
     timers := timers s |}.

Definition set_pending_changes (f : gset string -> gset string)
    (s : FileWatcher) : FileWatcher :=
  {| directory := directory s; event_stream := event_stream s;
     recursive := recursive s; patterns := patterns s;
     ignore_patterns := ignore_patterns s; gitignore_spec := gitignore_spec s;
     observer_alive := observer_alive s; file_contents := file_contents s;
     pending_changes := f (pending_changes s); debounce_timers := debounce_timers s;
     debounce_delay := debounce_delay s; use_debouncing := use_debouncing s;
     recent_deletes := recent_deletes s; rename_window := rename_window s;
     timers := timers s |}.

Definition set_debounce_timers (f : gmap string nat -> gmap string nat)
    (s : FileWatcher) : FileWatcher :=
  {| directory := directory s; event_stream := event_stream s;
     recursive := recursive s; patterns := patterns s;
     ignore_patterns := ignore_patterns s; gitignore_spec := gitignore_spec s;
     observer_alive := observer_alive s; file_contents := file_contents s;
     pending_changes := pending_changes s; debounce_timers := f (debounce_timers s);
     debounce_delay := debounce_delay s; use_debouncing := use_debouncing s;
     recent_deletes := recent_deletes s; rename_window := rename_window s;
     timers := timers s |}.

Definition set_recent_deletes (f : list (string * (string * Z)) ->
    list (string * (string * Z))) (s : FileWatcher) : FileWatcher :=
  {| directory := directory s; event_stream := event_stream s;
     recursive := recursive s; patterns := patterns s;
     ignore_patterns := ignore_patterns s; gitignore_spec := gitignore_spec s;
     observer_alive := observer_alive s; file_contents := file_contents s;
     pending_changes := pending_changes s; debounce_timers := debounce_timers s;
     debounce_delay := debounce_delay s; use_debouncing := use_debouncing s;
     recent_deletes := f (recent_deletes s); rename_window := rename_window s;
     timers := timers s |}.

Definition set_timers (f : list Timer -> list Timer) (s : FileWatcher) : FileWatcher :=
  {| directory := directory s; event_stream := event_stream s;
     recursive := recursive s; patterns := patterns s;
     ignore_patterns := ignore_patterns s; gitignore_spec := gitignore_spec s;
     observer_alive := observer_alive s; file_contents := file_contents s;
     pending_changes := pending_changes s; debounce_timers := debounce_timers s;
     debounce_delay := debounce_delay s; use_debouncing := use_debouncing s;
     recent_deletes := recent_deletes s; rename_window := rename_window s;
     timers := f (timers s) |}.

(** [self.event_stream.add_event(observation, EventSource.USER)] *)
Definition add_event (o : FileEditObservation) (s : FileWatcher) : FileWatcher :=
  set_event_stream (fun es => es ++ [(o, USER)]) s.

(** [timer.cancel()] on the timer at position [tid]. *)
Definition cancel_timer (tid : nat) (s : FileWatcher) : FileWatcher :=
  set_timers (alter cancel tid) s.

(** [timer = Timer(delay, f, args); timer.start()]: the new timer takes the
    next position. *)
Definition start_timer (env : Env) (delay : Z) (f : Callback) (s : FileWatcher)
    : FileWatcher :=
  set_timers (fun ts => ts ++ [{| interval := delay; started := time env;
                                  function := f; finished := false |}]) s.

(** The test every handler repeats: the path of an editor swap file
    ([.swp], [.swo]), of a backup file ([~]) or of the probe file [4913]. *)
Definition swap_or_backup (p : string) : bool :=
  pystr.endswith p ".swp" || pystr.endswith p ".swo" || pystr.endswith p "~"
  || pystr.startswith (posixpath.basename p) "4913".

(** [_read_file_content]: the empty string when reading fails. *)
Definition _read_file_content (env : Env) (p : string) : string :=
  default "" (read_text env p).

(** [Path(rel_path).match(pattern)] of [pathlib]: a pure predicate of the two
    strings.  The pattern engine is an interface of the watcher. *)
Class PathMatcher := Path_match : string -> string -> bool.

Section FileWatcher.

Context `{!PathMatcher}.

Definition _should_ignore (self : FileWatcher) (env : Env) (p : string) : bool :=
  let rel_path := posixpath.relpath env p (directory self) in
  (* rel_path.replace(os.sep, '/') is the identity: os.sep is '/' *)
  let path_parts := pystr.split "/" rel_path in
  if existsb (fun part => String.eqb part ".git") path_parts then true
  else if existsb (Path_match rel_path) (ignore_patterns self) then true
  else if isdir env p
       then gitignore_spec self rel_path || gitignore_spec self (rel_path +:+ "/")
       else gitignore_spec self rel_path.

Definition _should_watch (self : FileWatcher) (env : Env) (p : string) : bool :=
  match patterns self with
  | None => true
  | Some pats =>
      let rel_path := posixpath.relpath env p (directory self) in
      existsb (Path_match rel_path) pats
  end.

(** The filter of the handlers: [self._should_ignore(p) or not
    self._should_watch(p)]. *)
Definition filtered_out (self : FileWatcher) (env : Env) (p : string) : bool :=
  _should_ignore self env p || negb (_should_watch self env p).

Definition _handle_debounced_change (env : Env) (p : string) (self : FileWatcher)
    : FileWatcher :=
  if bool_decide (p ∈ pending_changes self) then
    let self := set_pending_changes (fun ps => ps ∖ {[p]}) self in
    let self := set_debounce_timers (delete p) self in
    if filtered_out self env p then self
    else if swap_or_backup p then self
    else
      let rel_path := posixpath.relpath env p (directory self) in
      let old_content := default "" (file_contents self !! p) in
      let new_content := _read_file_content env p in
      if negb (String.eqb old_content new_content) then
        let diff := _generate_diff old_content new_content rel_path in
        let self := set_file_contents <[p := new_content]> self in
        add_event {| path := rel_path; prev_exist := true;
                     old_content := old_content; new_content := new_content;
                     content := diff |} self
      else self
  else self.

Definition _schedule_debounced_change (env : Env) (p : string) (self : FileWatcher)
    : FileWatcher :=
  let self := match debounce_timers self !! p with
              | Some tid => cancel_timer tid self
              | None => self
              end in
  let tid := length (timers self) in
  let self := start_timer env (debounce_delay self) (handle_debounced_change p) self in
  let self := set_debounce_timers <[p := tid]> self in
  set_pending_changes (fun ps => ps ∪ {[p]}) self.

(** The [for] loop of [on_created] over [list(self.recent_deletes.items())]:
    the key of the first entry that is young enough and holds the content
    just read, where the loop returns; [None] when the loop runs through. *)
Fixpoint rename_scan (now window : Z) (new_content : string)
    (items : list (string * (string * Z))) : option string :=
  match items with
  | [] => None
  | (old_path, (old_content, timestamp)) :: rest =>
      if (now - timestamp <=? window)%Z && String.eqb new_content old_content
      then Some old_path
      else rename_scan now window new_content rest
  end.

Definition on_created (env : Env) (event : FileSystemEvent) (self : FileWatcher)
    : FileWatcher :=
  if is_directory event then self
  else if swap_or_backup (src_path event) then self
  else if filtered_out self env (src_path event) then self
  else
    let rel_path := posixpath.relpath env (src_path event) (directory self) in
    let now := time env in
    match rename_scan now (rename_window self)
            (_read_file_content env (src_path event)) (recent_deletes self) with
    | Some old_path =>
        let new_content := _read_file_content env (src_path event) in
        let self := set_file_contents <[src_path event := new_content]> self in
        set_recent_deletes (odict.pop old_path) self
    | None =>
        if use_debouncing self then _schedule_debounced_change env (src_path event) self
        else
          let new_content := _read_file_content env (src_path event) in
          let self := set_file_contents <[src_path event := new_content]> self in
          let diff := _generate_diff "" new_content rel_path in
          add_event {| path := rel_path; prev_exist := false;
                       old_content := ""; new_content := new_content;
                       content := diff |} self
    end.

Definition on_modified (env : Env) (event : FileSystemEvent) (self : FileWatcher)
    : FileWatcher :=
  if is_directory event then self
  else if swap_or_backup (src_path event) then self
  else if filtered_out self env (src_path event) then self
  else if use_debouncing self then _schedule_debounced_change env (src_path event) self
  else
    let rel_path := posixpath.relpath env (src_path event) (directory self) in
    let old_content := default "" (file_contents self !! src_path event) in
    let new_content := _read_file_content env (src_path event) in
    if negb (String.eqb old_content new_content) then
      let diff := _generate_diff old_content new_content rel_path in
      let self := set_file_contents <[src_path event := new_content]> self in
      add_event {| path := rel_path; prev_exist := true;
                   old_content := old_content; new_content := new_content;
                   content := diff |} self
    else self.

(** [if p in self.debounce_timers: cancel it, pop it, discard p from
    pending_changes] *)
Definition cancel_pending (p : string) (self : FileWatcher) : FileWatcher :=
  match debounce_timers self !! p with
  | Some tid =>
      let self := cancel_timer tid self in
      let self := set_debounce_timers (delete p) self in
      set_pending_changes (fun ps => ps ∖ {[p]}) self
  | None => self
  end.

Definition on_deleted (env : Env) (event : FileSystemEvent) (self : FileWatcher)
    : FileWatcher :=
  if is_directory event then self
  else if swap_or_backup (src_path event) then self
  else
    let self := cancel_pending (src_path event) self in
    if filtered_out self env (src_path event) then self
    else
      let old_content := default "" (file_contents self !! src_path event) in
      let self := set_file_contents (delete (src_path event)) self in
      if use_debouncing self then
        let self := set_recent_deletes
                      (odict.set (src_path event) (old_content, time env)) self in
        start_timer env (rename_window self)
          (handle_delayed_delete (src_path event) old_content) self
      else
        let rel_path := posixpath.relpath env (src_path event) (directory self) in
        let diff := _generate_diff old_content "" rel_path in
        add_event {| path := rel_path; prev_exist := true;
                     old_content := old_content; new_content := "";
                     content := diff |} self.

Definition _handle_delayed_delete (env : Env) (p : string) (old_content : string)
    (self : FileWatcher) : FileWatcher :=
  if odict.mem p (recent_deletes self) then
    let rel_path := posixpath.relpath env p (directory self) in
    let diff := _generate_diff old_content "" rel_path in
    let self := add_event {| path := rel_path; prev_exist := true;
                             old_content := old_content; new_content := "";
                             content := diff |} self in
    set_recent_deletes (odict.pop p) self
  else self.

Definition on_moved (env : Env) (event : FileSystemEvent) (self : FileWatcher)
    : FileWatcher :=
  if is_directory event then self
  else
    let self := cancel_pending (src_path event) self in
    if swap_or_backup (src_path event) || swap_or_backup (dest_path event) then self
    else if filtered_out self env (src_path event) then self
    else
      let src_rel_path := posixpath.relpath env (src_path event) (directory self) in
      let old_content := default "" (file_contents self !! src_path event) in
      let src_diff := _generate_diff old_content "" src_rel_path in
      let self := add_event {| path := src_rel_path; prev_exist := true;
                               old_content := old_content; new_content := "";
                               content := src_diff |} self in
      let self := set_file_contents (delete (src_path event)) self in
      if negb (_should_ignore self env (dest_path event))
         && _should_watch self env (dest_path event) then
        let dest_rel_path := posixpath.relpath env (dest_path event) (directory self) in
        let self := set_file_contents <[dest_path event := old_content]> self in
        let dest_diff := _generate_diff "" old_content dest_rel_path in
        add_event {| path := dest_rel_path; prev_exist := false;
                     old_content := ""; new_content := old_content;
                     content := dest_diff |} self
      else self.

(** [start()] and [stop()].  [stop] cancels the timers that
    [debounce_timers] refers to, then stops and joins the observer.  Here
    the two parts of [stop] follow one another with nothing in between; the
    source takes no lock, and what a handler does when it runs between them
    is the subject of [stop_cancel_timers] and [stop_observer] below. *)
Definition start (self : FileWatcher) : FileWatcher := set_observer_alive true self.

Definition stop (self : FileWatcher) : FileWatcher :=
  let self := fold_right cancel_timer self (map snd (map_to_list (debounce_timers self))) in
  set_observer_alive false self.

(** ** Threads: what can happen to a watcher *)

(** [Timer.run()] of the timer at position [tid], once its interval has
    passed: nothing when the flag is set, else the function, then the flag. *)
Definition run_callback (env : Env) (f : Callback) (self : FileWatcher) : FileWatcher :=
  match f with
  | handle_debounced_change p => _handle_debounced_change env p self
  | handle_delayed_delete p old => _handle_delayed_delete env p old self
  end.

Definition Timer_run (env : Env) (tid : nat) (self : FileWatcher) : FileWatcher :=
  match timers self !! tid with
  | Some t =>
      if finished t then self
      else cancel_timer tid (run_callback env (function t) self)
  | None => self
  end.

(** One action on the watcher, run from its beginning to its end with
    nothing else in between: the observer thread delivers a raw event (only
    while it is alive), a timer thread wakes up, or the owner calls
    [stop()].  The source takes no lock: in a real run a handler can also
    start while a timer callback or [stop()] is under way; such overlapping
    runs are not sequences of actions, and two of them are treated apart,
    with the halves of [_handle_debounced_change] and of [stop]. *)
Inductive Action :=
| Created (event : FileSystemEvent)
| Modified (event : FileSystemEvent)
| Deleted (event : FileSystemEvent)
| Moved (event : FileSystemEvent)
| TimerFires (tid : nat)
| Stop.

Definition step (env : Env) (act : Action) (self : FileWatcher) : FileWatcher :=
  match act with
  | Created ev => if observer_alive self then on_created env ev self else self
  | Modified ev => if observer_alive self then on_modified env ev self else self
  | Deleted ev => if observer_alive self then on_deleted env ev self else self
  | Moved ev => if observer_alive self then on_moved env ev self else self
  | TimerFires tid => Timer_run env tid self
  | Stop => stop self
  end.

(** A timer thread sleeps for its interval: it can only wake up at a time
    that is at least [started + interval]. *)
Definition enabled (env : Env) (act : Action) (self : FileWatcher) : Prop :=
  match act with
  | TimerFires tid =>
      exists t, timers self !! tid = Some t /\ (started t + interval t <= time env)%Z
  | _ => True
  end.

(** A schedule lists the actions in the order they happen, each with the
    operating system as it is at that moment; it stands for a run in which
    the handlers, the timer callbacks and [stop()] execute one at a time,
    none starting before the one before has returned. *)
Fixpoint run (sched : list (Env * Action)) (self : FileWatcher) : FileWatcher :=
  match sched with
  | [] => self
  | (env, act) :: rest => run rest (step env act self)
  end.

(** A schedule is timely from time [t0] when time never runs backwards and
    every timer wakes up after its interval. *)
Fixpoint timely (t0 : Z) (sched : list (Env * Action)) (self : FileWatcher) : Prop :=
  match sched with
  | [] => True
  | (env, act) :: rest =>
      (t0 <= time env)%Z /\ enabled env act self
      /\ timely (time env) rest (step env act self)
  end.

End FileWatcher.

(** [FileWatcher.__init__]: the attributes as the constructor leaves them.
    The compiled ignore file ([_load_gitignore]) and the content cache seeded
    by the tree walk ([_initialize_file_contents]) are taken as arguments.
    Time is counted in milliseconds: 0.1 s is 100. *)
Definition FileWatcher_init (env : Env) (dir : string) (rec : bool)
    (pats : option (list string)) (ignore : list string)
    (gitignore : string -> bool) (seed : gmap string string) : FileWatcher :=
  {| directory := posixpath.abspath env dir;
     event_stream := [];
     recursive := rec;
     patterns := pats;
     ignore_patterns := [".git"; ".git/*"] ++ ignore;
     gitignore_spec := gitignore;
     observer_alive := false;
     file_contents := seed;
     pending_changes := ∅;
     debounce_timers := ∅;
     debounce_delay := 100;
     use_debouncing := true;
     recent_deletes := [];
     rename_window := 100;
     timers := [] |}.

(** ** An instance of the pattern engine

    [PurePath.match] for relative patterns built from literal characters,
    [*] and [?]: the pattern is matched component by component from the
    right, each component with [fnmatch].  It is used to evaluate the
    handlers on concrete inputs. *)

Fixpoint fnmatch (pat name : string) : bool :=
  match pat with
  | EmptyString => String.eqb name ""
  | String c pat' =>
      if Ascii.eqb c "*" then
        (fix star (n : string) : bool :=
           fnmatch pat' n || match n with
                             | EmptyString => false
                             | String _ n' => star n'
                             end) name
      else match name with
           | EmptyString => false
           | String d name' =>
               (Ascii.eqb c "?" || Ascii.eqb c d) && fnmatch pat' name'
           end
  end.

Fixpoint fnmatch_parts (pats parts : list string) : bool :=
  match pats, parts with
  | [], _ => true
  | pat :: pats', part :: parts' => fnmatch pat part && fnmatch_parts pats' parts'
  | _ :: _, [] => false
  end.

Definition path_parts (p : string) : list string :=
  List.filter (fun x => negb (String.eqb x "" || String.eqb x ".")) (pystr.split "/" p).

Definition glob_match (rel_path pattern : string) : bool :=
  match path_parts pattern with
  | [] => false
  | pats => negb (posixpath.isabs pattern)
            && fnmatch_parts (rev pats) (rev (path_parts rel_path))
  end.

#[global] Instance glob_matcher : PathMatcher := glob_match.

(** ** The constructor: the ignore file and the first walk of the tree *)

(** [s.splitlines()], without the line boundaries: the lines of
    [pystr.splitlines] with their boundary cut off. *)
Fixpoint splitlines_nokeep (s : string) : list string :=
  match s with
  | EmptyString => []
  | String c s' =>
      if pystr.is_linebreak c then
        match s' with
        | String d s'' =>
            if Ascii.eqb c pystr.CR && Ascii.eqb d pystr.LF
            then EmptyString :: splitlines_nokeep s''
            else EmptyString :: splitlines_nokeep s'
        | EmptyString => [EmptyString]
        end
      else match splitlines_nokeep s' with
           | [] => [String c EmptyString]
           | l :: ls => String c l :: ls
           end
  end.

(** What [open(p, 'r').read()] does: the text, or one of the two exceptions
    it can raise ([IOError] is [OSError]; [UnicodeDecodeError] is a
    [ValueError]). *)
Inductive ReadResult :=
| Text (s : string)
| IOError
| UnicodeDecodeError.

(** A directory tree as [os.walk(top, topdown=True)] finds it.  [Dir] lists
    the entries of a directory in the order of [os.scandir]; [File] is an
    entry that is not a directory (at the top: anything [scandir] fails on);
    [Unwalked] is an entry that counts as a directory but is not entered: a
    symbolic link to a directory ([followlinks] is off) or a directory that
    cannot be listed. *)
#[warnings="-register-all"] Inductive Tree :=
| File
| Unwalked
| Dir (entries : list (string * Tree)).

(** The operating system as the constructor sees it. *)
Record InitEnv := {
  init_os : Env;
  isfile : string -> bool;
  open_read : string -> ReadResult;
  walk_top : Tree
}.

(** [pathspec.PathSpec.from_lines(GitWildMatchPattern, lines)]: the compiled
    spec through its [match_file], [None] when a line is rejected (the
    library raises [GitWildMatchPatternError]).  The pattern language is an
    interface of the watcher. *)
Class GitWildMatch := from_lines : list string -> option (string -> bool).

(** How a call ends: it returns, or an exception leaves it. *)
Inductive Exception := RaisedUnicodeDecodeError | RaisedGitWildMatchPatternError.

Inductive Result (A : Type) :=
| Returns (a : A)
| Raises (e : Exception).

Arguments Returns {A} a.
Arguments Raises {A} e.

(** The list [gitignore_patterns] that [_load_gitignore] builds: the lines
    of [.gitignore] that are neither empty nor comments; no lines when the
    file is missing or [IOError] is caught.  [UnicodeDecodeError] is not
    caught. *)
Definition gitignore_patterns (ienv : InitEnv) (directory : string)
    : Result (list string) :=
  let gitignore_path := posixpath.join directory ".gitignore" in
  if isfile ienv gitignore_path then
    match open_read ienv gitignore_path with
    | Text s =>
        let patterns := splitlines_nokeep s in
        Returns (List.filter (fun p => negb (String.eqb p "") && negb (pystr.startswith p "#"))
                   patterns)
    | IOError => Returns []
    | UnicodeDecodeError => Raises RaisedUnicodeDecodeError
    end
  else Returns [].

Definition _load_gitignore `{!GitWildMatch} (ienv : InitEnv) (directory : string)
    : Result (string -> bool) :=
  match gitignore_patterns ienv directory with
  | Returns lines =>
      match from_lines lines with
      | Some spec => Returns spec
      | None => Raises RaisedGitWildMatchPatternError
      end
  | Raises e => Raises e
  end.

Section Walk.

Context `{!PathMatcher}.

(** The body of [for file in files:] for one file. *)
Definition cache_file (self : FileWatcher) (env : Env) (abs_path : string)
    (cache : gmap string string) : gmap string string :=
  if negb (_should_ignore self env abs_path) && _should_watch self env abs_path then
    match read_text env abs_path with
    | Some c => <[abs_path := c]> cache
    | None => cache
    end
  else cache.

(** [files] of one directory: the names of the entries that are not
    directories. *)
Fixpoint files_of (entries : list (string * Tree)) : list string :=
  match entries with
  | [] => []
  | (name, File) :: rest => name :: files_of rest
  | _ :: rest => files_of rest
  end.

(** The [for root, dirs, files in os.walk(...)] loop from the directory
    [root] on: the files of [root] first, then the subdirectories that the
    filter on [dirs] keeps, each with all that lies below it. *)
Fixpoint walk (self : FileWatcher) (env : Env) (root : string) (t : Tree)
    (cache : gmap string string) {struct t} : gmap string string :=
  match t with
  | Dir entries =>
      let cache :=
        fold_left (fun cache file => cache_file self env (posixpath.join root file) cache)
          (files_of entries) cache in
      (fix walk_dirs (es : list (string * Tree)) (cache : gmap string string)
           {struct es} : gmap string string :=
         match es with
         | [] => cache
         | (d, sub) :: es' =>
             match sub with
             | Dir _ =>
                 if _should_ignore self env (posixpath.join root d) then walk_dirs es' cache
                 else walk_dirs es' (walk self env (posixpath.join root d) sub cache)
             | _ => walk_dirs es' cache
             end
         end) entries cache
  | _ => cache
  end.

Definition _initialize_file_contents (ienv : InitEnv) (self : FileWatcher) : FileWatcher :=
  set_file_contents (walk self (init_os ienv) (directory self) (walk_top ienv)) self.

(** [FileWatcher(directory, event_stream, recursive, patterns,
    ignore_patterns)], with an event stream that is empty. *)
Definition __init__ `{!GitWildMatch} (ienv : InitEnv) (directory : string)
    (recursive : bool) (patterns ignore_patterns : option (list string))
    : Result FileWatcher :=
  match _load_gitignore ienv (posixpath.abspath (init_os ienv) directory) with
  | Returns spec =>
      Returns (_initialize_file_contents ienv
                 (FileWatcher_init (init_os ienv) directory recursive patterns
                    (default [] ignore_patterns) spec ∅))
  | Raises e => Raises e
  end.

End Walk.

(** ** The parts of [stop] and of [_handle_debounced_change]

    The watcher is used from three kinds of threads (the observer thread,
    the timer threads and the thread that calls [stop()]) and takes no lock.
    These are the pieces between which another thread can run. *)

Section Halves.

Context `{!PathMatcher}.

(** The loop of [stop()]: [for timer in self.debounce_timers.values():
    timer.cancel()]. *)
Definition stop_cancel_timers (self : FileWatcher) : FileWatcher :=
  fold_right cancel_timer self (map snd (map_to_list (debounce_timers self))).

(** The end of [stop()]: [self.observer.stop(); self.observer.join()]. *)
Definition stop_observer (self : FileWatcher) : FileWatcher :=
  set_observer_alive false self.

(** The beginning of [_handle_debounced_change], up to and including
    [self.pending_changes.remove(path)]; [None] when the function returns at
    its first test. *)
Definition _handle_debounced_change_begin (p : string) (self : FileWatcher)
    : option FileWatcher :=
  if bool_decide (p ∈ pending_changes self)
  then Some (set_pending_changes (fun ps => ps ∖ {[p]}) self)
  else None.

(** The rest of [_handle_debounced_change], from
    [self.debounce_timers.pop(path, None)] on. *)
Definition _handle_debounced_change_end (env : Env) (p : string) (self : FileWatcher)
    : FileWatcher :=
  let self := set_debounce_timers (delete p) self in
  if filtered_out self env p then self
  else if swap_or_backup p then self
  else
    let rel_path := posixpath.relpath env p (directory self) in
    let old_content := default "" (file_contents self !! p) in
    let new_content := _read_file_content env p in
    if negb (String.eqb old_content new_content) then
      let diff := _generate_diff old_content new_content rel_path in
      let self := set_file_contents <[p := new_content]> self in
      add_event {| path := rel_path; prev_exist := true;
                   old_content := old_content; new_content := new_content;
                   content := diff |} self
    else self.

End Halves.

(** ** Concrete watchers and environments for evaluation *)

Definition env_at (t : Z) (files : list (string * string)) : Env :=
  {| getcwd := "/";
     isdir := fun _ => false;
     read_text := fun p => odict.get p files;
     time := t |}.

Definition file_event (p : string) : FileSystemEvent :=
  {| src_path := p; dest_path := ""; is_directory := false |}.

Definition move_event (src dest : string) : FileSystemEvent :=
  {| src_path := src; dest_path := dest; is_directory := false |}.

(** A watcher of [/repo] without include patterns and without ignore file,
    started, whose cache holds [seed]. *)
Definition repo_watcher (seed : list (string * string)) : FileWatcher :=
  start (FileWatcher_init (env_at 0 []) "/repo" true None [] (fun _ => false)
           (list_to_map seed)).

(** The same watcher in the immediate mode of the tests. *)
Definition repo_watcher_immediate (seed : list (string * string)) : FileWatcher :=
  let w := repo_watcher seed in
  {| directory := directory w; event_stream := event_stream w;
     recursive := recursive w; patterns := patterns w;
     ignore_patterns := ignore_patterns w; gitignore_spec := gitignore_spec w;
     observer_alive := observer_alive w; file_contents := file_contents w;
     pending_changes := pending_changes w; debounce_timers := debounce_timers w;
     debounce_delay := debounce_delay w; use_debouncing := false;
     recent_deletes := recent_deletes w; rename_window := rename_window w;
     timers := timers w |}.


(** The compiled ignore file of a [.gitignore] with the single line
    [build/], as far as paths at the top of the tree go: the rule is
    directory-scoped, it matches [build/] and what lies below, not [build]. *)
Definition gitignore_build_dir (rel_path : string) : bool :=
  pystr.startswith rel_path "build/".

Definition build_watcher : FileWatcher :=
  start (FileWatcher_init (env_at 0 []) "/repo" true None [] gitignore_build_dir ∅).

(** An operating system where [/repo/build] is a directory. *)
Definition env_build_is_dir : Env :=
  {| getcwd := "/";
     isdir := fun p => String.eqb p "/repo/build";
     read_text := fun _ => None;
     time := 0 |}.

(** A watcher whose watched directory lies inside a [.git] directory. *)
Definition git_dir_watcher : FileWatcher :=
  start (FileWatcher_init (env_at 0 []) "/repo/.git" true None [] (fun _ => false) ∅).

(** The one-character string of a line feed. *)
Definition nl : string := String pystr.LF "".

(** ** Notions used to state the properties *)

(** No timer is outstanding: each one has run or was cancelled. *)
Definition all_finished (s : FileWatcher) : Prop :=
  Forall (fun t => finished t = true) (timers s).

Definition is_fire (act : Action) : Prop :=
  match act with TimerFires _ => True | _ => False end.

(** A burst of modifications of [p]: the raw events of the schedule are
    modify events for the file [p], each less than [delay] after the one
    before ([last] is the time of the one before, if any); timers may wake
    up in between. *)
Fixpoint burst (p : string) (delay : Z) (last : option Z)
    (sched : list (Env * Action)) : Prop :=
  match sched with
  | [] => True
  | (env, Modified ev) :: rest =>
      src_path ev = p /\ is_directory ev = false
      /\ match last with
         | Some tl => (time env < tl + delay)%Z
         | None => True
         end
      /\ burst p delay (Some (time env)) rest
  | (env, TimerFires _) :: rest => burst p delay last rest
  | _ => False
  end.

(** The static configuration of two watchers is the same. *)
Definition same_config (s s' : FileWatcher) : Prop :=
  directory s' = directory s /\ patterns s' = patterns s
  /\ ignore_patterns s' = ignore_patterns s /\ gitignore_spec s' = gitignore_spec s.

(** No entry but the one of [A] can stand for a rename to content [C] at
    time [now]. *)
Definition no_other_match (A C : string) (now window : Z)
    (d : list (string * (string * Z))) : Prop :=
  Forall (fun kv => fst kv = A \/ fst (snd kv) <> C \/ (window < now - snd (snd kv))%Z) d.

(** No entry at all can stand for a rename to content [C] at time [now]. *)
Definition no_match (C : string) (now window : Z)
    (d : list (string * (string * Z))) : Prop :=
  Forall (fun kv => fst (snd kv) <> C \/ (window < now - snd (snd kv))%Z) d.

(** Every reference in [debounce_timers] is to a timer that exists. *)
Definition timer_refs_valid (s : FileWatcher) : Prop :=
  forall q tid, debounce_timers s !! q = Some tid -> (tid < length (timers s))%nat.

(** ** Hunks: the unified diff with its offsets

    A hunk is what one group of opcodes stands for: the position in the old
    file where it starts (the number of lines before it, which the hunk
    header prints) and its lines, each marked as kept, removed or added. *)

Inductive LineOp := Keep | Del | Add.

Record Hunk := { h_start : nat; h_ops : list (LineOp * string) }.

Definition op_mark (op : LineOp) : string :=
  match op with Keep => " " | Del => "-" | Add => "+" end.

(** The line of the diff for one marked line. *)
Definition op_line (ol : LineOp * string) : string := op_mark (fst ol) +:+ snd ol.

Definition hunk_lines (h : Hunk) : list string := map op_line (h_ops h).

Definition opcode_ops (a b : list string) (c : difflib.Opcode) : list (LineOp * string) :=
  match difflib.tag c with
  | difflib.equal => map (pair Keep) (difflib.slice a (difflib.i1 c) (difflib.i2 c))
  | difflib.replace => map (pair Del) (difflib.slice a (difflib.i1 c) (difflib.i2 c))
                       ++ map (pair Add) (difflib.slice b (difflib.j1 c) (difflib.j2 c))
  | difflib.delete => map (pair Del) (difflib.slice a (difflib.i1 c) (difflib.i2 c))
  | difflib.insert => map (pair Add) (difflib.slice b (difflib.j1 c) (difflib.j2 c))
  end.

Definition hunk_of_group (a b : list string) (group : list difflib.Opcode) : Hunk :=
  {| h_start := difflib.i1 (List.hd (difflib.mkOp difflib.equal 0 0 0 0) group);
     h_ops := flat_map (opcode_ops a b) group |}.

(** The hunks of [unified_diff(a, b, n=0)]. *)
Definition diff_hunks (a b : list string) : list Hunk :=
  map (hunk_of_group a b) (difflib.get_grouped_opcodes a b 0).

(** Applying the lines of a hunk at the head of [rest]: a kept or removed
    line must be the next line of the old file; the result is the output and
    what is left of the old file. *)
Fixpoint apply_ops (ops : list (LineOp * string)) (rest : list string)
    : option (list string * list string) :=
  match ops with
  | [] => Some ([], rest)
  | (Add, l) :: ops' =>
      match apply_ops ops' rest with
      | Some (out, rest') => Some (l :: out, rest')
      | None => None
      end
  | (op, l) :: ops' =>
      match rest with
      | x :: rest' =>
          if String.eqb x l then
            match apply_ops ops' rest' with
            | Some (out, rest'') =>
                Some (match op with Keep => l :: out | _ => out end, rest'')
            | None => None
            end
          else None
      | [] => None
      end
  end.

(** The number of lines of the old file a hunk covers. *)
Definition old_length (ops : list (LineOp * string)) : nat :=
  length (List.filter (fun ol => match fst ol with Add => false | _ => true end) ops).

(** Applying hunks in order to an old file of which [pos] lines are already
    dealt with and [rest] is left: the lines up to the start of a hunk are
    copied. *)
Fixpoint apply_hunks (hunks : list Hunk) (pos : nat) (rest : list string)
    : option (list string) :=
  match hunks with
  | [] => Some rest
  | h :: hunks' =>
      if (h_start h <? pos)%nat then None
      else
        let skip := (h_start h - pos)%nat in
        if (length rest <? skip)%nat then None
        else
          match apply_ops (h_ops h) (drop skip rest) with
          | Some (out, rest') =>
              match apply_hunks hunks' (h_start h + old_length (h_ops h)) rest' with
              | Some tl => Some (take skip rest ++ out ++ tl)
              | None => None
              end
          | None => None
          end
  end.

(** The patch program for hunks with offsets. *)
Definition patch (hunks : list Hunk) (old_lines : list string) : option (list string) :=
  apply_hunks hunks 0 old_lines.

(** * Invariants of the proofs *)

(** ** Timers and their references *)

(** From [s] to [s'] no timer disappeared and every reference of [s'] is one
    of [s] or points to a timer of [s']. *)
Definition refs_grow (s s' : FileWatcher) : Prop :=
  (length (timers s) <= length (timers s'))%nat
  /\ forall q tid, debounce_timers s' !! q = Some tid ->
       debounce_timers s !! q = Some tid \/ (tid < length (timers s'))%nat.

(** ** A burst of modifications of the file [p], started in [self] *)

Section DebounceInvariants.

Variable self : FileWatcher.
Variable p : string.

(** During the burst nothing was emitted and the cache is as at the start. *)
Definition quiet (s : FileWatcher) : Prop :=
  same_config self s
  /\ event_stream s = event_stream self
  /\ file_contents s = file_contents self
  /\ use_debouncing s = true
  /\ observer_alive s = true
  /\ debounce_delay s = debounce_delay self.

(** One timer is outstanding: the one started for [p] at time [tl]. *)
Definition armed (tl : Z) (s : FileWatcher) : Prop :=
  exists tid,
    debounce_timers s !! p = Some tid
    /\ p ∈ pending_changes s
    /\ timers s !! tid = Some {| interval := debounce_delay self; started := tl;
                                 function := handle_debounced_change p;
                                 finished := false |}
    /\ forall tid' t', tid' <> tid -> timers s !! tid' = Some t' -> finished t' = true.

Definition burst_inv (last : option Z) (s : FileWatcher) : Prop :=
  quiet s /\ match last with
             | None => all_finished s
             | Some tl => armed tl s
             end.

End DebounceInvariants.

(** ** The matching blocks and opcodes of two lists of lines *)

Section DifflibInvariants.

Import difflib.

Variables a b : list string.

Local Abbreviation la := (length a).
Local Abbreviation lb := (length b).

(** [a[i : i+k] == b[j : j+k]], element by element. *)
Definition same_run (i j k : nat) : Prop :=
  forall d, (d < k)%nat -> line_eqb (a !! (i + d)%nat) (b !! (j + d)%nat) = true.

Definition valid_match (alo ahi blo bhi : nat) (m : Match) : Prop :=
  (alo <= m_a m)%nat /\ (m_a m + m_size m <= ahi)%nat
  /\ (blo <= m_b m)%nat /\ (m_b m + m_size m <= bhi)%nat
  /\ same_run (m_a m) (m_b m) (m_size m).

(** [j2len] before row [i]: every entry [j -> k] is a run of length [k]
    that ends with [a[i-1]] and [b[j]] and stays inside the ranges. *)
Definition row_inv (alo blo bhi i : nat) (j2len : gmap nat nat) : Prop :=
  forall j k, j2len !! j = Some k ->
    (1 <= k)%nat /\ (alo + k <= i)%nat /\ (blo + k <= j + 1)%nat /\ (j < bhi)%nat
    /\ same_run (i - k) (j + 1 - k) k.

(** A found block: not empty, inside both lists, a match. *)
Definition block_ok (m : Match) : Prop :=
  (0 < m_size m)%nat /\ (m_a m + m_size m <= la)%nat /\ (m_b m + m_size m <= lb)%nat
  /\ same_run (m_a m) (m_b m) (m_size m).

(** Ranges [(alo, ahi, blo, bhi)]; a block covers the range of its match. *)
Definition block_range (m : Match) : nat * nat * nat * nat :=
  (m_a m, (m_a m + m_size m)%nat, m_b m, (m_b m + m_size m)%nat).

(** [r1] lies before [r2] in both lists. *)
Definition range_lt (r1 r2 : nat * nat * nat * nat) : Prop :=
  let '(_, ahi1, _, bhi1) := r1 in
  let '(alo2, _, blo2, _) := r2 in
  (ahi1 <= alo2)%nat /\ (bhi1 <= blo2)%nat.

Definition comparable (r1 r2 : nat * nat * nat * nat) : Prop :=
  range_lt r1 r2 \/ range_lt r2 r1.

Definition inside (s r : nat * nat * nat * nat) : Prop :=
  let '(alo, ahi, blo, bhi) := r in
  let '(alo', ahi', blo', bhi') := s in
  (alo <= alo')%nat /\ (ahi' <= ahi)%nat /\ (blo <= blo')%nat /\ (bhi' <= bhi)%nat.

Definition range_ok (r : nat * nat * nat * nat) : Prop :=
  let '(alo, ahi, blo, bhi) := r in
  (alo <= ahi)%nat /\ (ahi <= la)%nat /\ (blo <= bhi)%nat /\ (bhi <= lb)%nat.

Definition loop_inv (queue : list (nat * nat * nat * nat)) (blocks : list Match) : Prop :=
  Forall range_ok queue /\ Forall block_ok blocks
  /\ ForallOrdPairs comparable (queue ++ map block_range blocks).

(** Block [x] ends before block [y] begins, in both lists. *)
Definition block_lt (x y : Match) : Prop := range_lt (block_range x) (block_range y).

Definition block_comparable (x y : Match) : Prop :=
  comparable (block_range x) (block_range y).

(** A list of blocks that [get_opcodes] can walk from position [(i, j)]:
    each block is a match that begins at or after the position reached, and
    the walk ends at the ends of both lists. *)
Fixpoint chain (i j : nat) (blocks : list Match) : Prop :=
  match blocks with
  | [] => i = la /\ j = lb
  | m :: rest =>
      (i <= m_a m)%nat /\ (j <= m_b m)%nat
      /\ (m_a m + m_size m <= la)%nat /\ (m_b m + m_size m <= lb)%nat
      /\ same_run (m_a m) (m_b m) (m_size m)
      /\ chain (m_a m + m_size m) (m_b m + m_size m) rest
  end.

(** An opcode with sound ranges: an ['equal'] covers equal slices, a
    ['delete'] adds nothing, an ['insert'] removes nothing. *)
Definition code_ok (c : Opcode) : Prop :=
  (i1 c <= i2 c)%nat /\ (i2 c <= la)%nat /\ (j1 c <= j2 c)%nat /\ (j2 c <= lb)%nat
  /\ match tag c with
     | equal => slice a (i1 c) (i2 c) = slice b (j1 c) (j2 c)
     | delete => j1 c = j2 c
     | insert => i1 c = i2 c
     | replace => True
     end.

(** Opcodes that follow one another from [(i, j)] and leave equal rests. *)
Fixpoint contig (i j : nat) (codes : list Opcode) : Prop :=
  match codes with
  | [] => drop i a = drop j b
  | c :: rest => i1 c = i /\ j1 c = j /\ code_ok c /\ contig (i2 c) (j2 c) rest
  end.

(** A group under construction: opcodes that follow one another from
    [(gi, gj)] to [(i, j)]. *)
Fixpoint grp (gi gj : nat) (g : list Opcode) (i j : nat) : Prop :=
  match g with
  | [] => gi = i /\ gj = j
  | c :: g' => i1 c = gi /\ j1 c = gj /\ code_ok c /\ grp (i2 c) (j2 c) g' i j
  end.

End DifflibInvariants.

(** ** Notions for the properties of the states a watcher can reach *)

(** Nothing was scheduled yet: the tables as the constructor leaves them. *)
Definition fresh (s : FileWatcher) : Prop :=
  timers s = [] /\ debounce_timers s = ∅ /\ pending_changes s = ∅.

(** The paths with a pending change are the paths with a debounce timer. *)
Definition pending_tracked (s : FileWatcher) : Prop :=
  forall p, p ∈ pending_changes s <-> is_Some (debounce_timers s !! p).

(** No path with a pending change is the path of a swap or backup file. *)
Definition pending_not_swap (s : FileWatcher) : Prop :=
  forall p, p ∈ pending_changes s -> swap_or_backup p = false.

(** A debounce timer that can still run is the one [debounce_timers] holds
    for its path, and the path has a pending change. *)
Definition debounce_timers_live (s : FileWatcher) : Prop :=
  forall tid t p,
    timers s !! tid = Some t -> finished t = false ->
    function t = handle_debounced_change p ->
    debounce_timers s !! p = Some tid /\ p ∈ pending_changes s.

(** The observer is stopped and no debounce timer can run any more. *)
Definition stopped (s : FileWatcher) : Prop :=
  observer_alive s = false
  /\ forall tid t p, timers s !! tid = Some t ->
       function t = handle_debounced_change p -> finished t = true.

(** An observation as the watcher builds them: tagged as coming from the
    user, its diff is the diff of its two contents under its path, and a
    file that did not exist before has no old content. *)
Definition observation_ok (o : FileEditObservation * EventSource) : Prop :=
  snd o = USER
  /\ content (fst o) = _generate_diff (old_content (fst o)) (new_content (fst o)) (path (fst o))
  /\ (prev_exist (fst o) = false -> old_content (fst o) = "").

(** The report of a deletion. *)
Definition is_deletion (o : FileEditObservation * EventSource) : Prop :=
  prev_exist (fst o) = true /\ new_content (fst o) = "".

(** ** Notions for the first walk of the tree *)

Section WalkNotions.

Context `{!PathMatcher}.

Variable self : FileWatcher.
Variable env : Env.

(** [reaches root t p]: walking the tree [t] found at [root], the loop of
    [_initialize_file_contents] gets to the file [p]: [p] is a file of
    [root], or of a directory below [root] that is reached through
    directories none of which is ignored. *)
Inductive reaches : string -> Tree -> string -> Prop :=
| reaches_file (root : string) (entries : list (string * Tree)) (name : string) :
    (name, File) ∈ entries ->
    reaches root (Dir entries) (posixpath.join root name)
| reaches_below (root : string) (entries sub : list (string * Tree)) (d p : string) :
    (d, Dir sub) ∈ entries ->
    _should_ignore self env (posixpath.join root d) = false ->
    reaches (posixpath.join root d) (Dir sub) p ->
    reaches root (Dir entries) p.

(** The file [p] passes the two filters and can be read as text [c]. *)
Definition cacheable (p c : string) : Prop :=
  _should_ignore self env p = false /\ _should_watch self env p = true
  /\ read_text env p = Some c.

(** What the walk does for one entry of [dirs]. *)
Definition walk_entry (root : string) (cache : gmap string string)
    (e : string * Tree) : gmap string string :=
  match snd e with
  | Dir _ =>
      if _should_ignore self env (posixpath.join root (fst e)) then cache
      else walk self env (posixpath.join root (fst e)) (snd e) cache
  | _ => cache
  end.

End WalkNotions.

(** ** Notions for strings and paths *)

(** A line boundary occurs in [s]. *)
Fixpoint has_linebreak (s : string) : bool :=
  match s with
  | EmptyString => false
  | String c s' => pystr.is_linebreak c || has_linebreak s'
  end.

(** The separator occurs in [s]. *)
Fixpoint has_sep (s : string) : bool :=
  match s with
  | EmptyString => false
  | String c s' => Ascii.eqb c posixpath.sep || has_sep s'
  end.

(** The name of a directory entry: not empty, not [.] or [..], without
    separator. *)
Definition simple_name (c : string) : bool :=
  negb (String.eqb c "") && negb (String.eqb c ".") && negb (String.eqb c "..")
  && negb (has_sep c).

(** The absolute path with the components [comps]; [/] for none. *)
Definition path_of (comps : list string) : string := "/" +:+ pystr.join "/" comps.

(** ** Notions for the diff of a list of lines with itself *)

Section SameLines.

Import difflib.

Variable a : list string.

(** The line at index [r] exists and is not popular. *)
Definition nonpopular (r : nat) : bool :=
  match a !! r with
  | Some x => negb (popular a x)
  | None => false
  end.

(** The number of lines up to and including index [r] that are not popular,
    without a gap: the length the inner loop of [find_longest_match] gives
    to the run on the diagonal that ends at [r]. *)
Fixpoint diag_run (r : nat) : nat :=
  match r with
  | O => if nonpopular 0 then 1 else 0
  | S r' => if nonpopular (S r') then S (diag_run r') else 0
  end.

Definition diag_run_pred (i : nat) : nat :=
  match i with
  | O => 0
  | S i' => diag_run i'
  end.

(** The entries of a row of [j2len]: none exceeds the run on the diagonal
    of its column or the run bounded by [bound]. *)
Definition row_bounded (bound : nat) (j2len : gmap nat nat) : Prop :=
  forall j, (default 0 (j2len !! j) <= diag_run j)%nat
            /\ (default 0 (j2len !! j) <= bound)%nat.

(** Before row [i] of [find_longest_match(0, len(a), 0, len(a))] on [a] and
    [a]: the best match lies on the diagonal and is at least as long as
    every run on the diagonal seen so far. *)
Definition diag_inv (i : nat) (st : gmap nat nat * Match) : Prop :=
  m_a (snd st) = m_b (snd st)
  /\ (forall r, (r < i)%nat -> (diag_run r <= m_size (snd st))%nat)
  /\ row_bounded (diag_run_pred i) (fst st)
  /\ j2len_get_pred (fst st) i = diag_run_pred i.

End SameLines.

(** ** Notions for the lines of a diff body *)

Definition is_del (ol : LineOp * string) : bool :=
  match fst ol with Del => true | _ => false end.

Definition is_add (ol : LineOp * string) : bool :=
  match fst ol with Add => true | _ => false end.

(** The lines that the marked lines [ops] remove, and those they add. *)
Definition removed_lines (ops : list (LineOp * string)) : list string :=
  map snd (List.filter is_del ops).

Definition added_lines (ops : list (LineOp * string)) : list string :=
  map snd (List.filter is_add ops).

(** An ['equal'] opcode that covers no line. *)
Definition no_context (c : difflib.Opcode) : Prop :=
  difflib.tag c = difflib.equal -> (difflib.i2 c - difflib.i1 c = 0)%nat.

(** ** Notions for matching blocks and opcodes *)

(** Block [x] ends, in both lists, where block [y] begins or before. *)
Definition block_before (x y : difflib.Match) : Prop :=
  (difflib.m_a x + difflib.m_size x <= difflib.m_a y)%nat
  /\ (difflib.m_b x + difflib.m_size x <= difflib.m_b y)%nat.

(** The block lies inside both lists and covers equal lines. *)
Definition block_matches (a b : list string) (m : difflib.Match) : Prop :=
  (difflib.m_a m + difflib.m_size m <= length a)%nat
  /\ (difflib.m_b m + difflib.m_size m <= length b)%nat
  /\ difflib.slice a (difflib.m_a m) (difflib.m_a m + difflib.m_size m)
     = difflib.slice b (difflib.m_b m) (difflib.m_b m + difflib.m_size m).

(** What ends a line of [splitlines]: one line boundary, the pair CR LF, or
    nothing (after the last line of a text that does not end with a
    boundary). *)
Definition is_boundary (e : string) : bool :=
  match e with
  | EmptyString => true
  | String c EmptyString => pystr.is_linebreak c
  | String c (String d EmptyString) => Ascii.eqb c pystr.CR && Ascii.eqb d pystr.LF
  | _ => false
  end.

(** ** A concrete tree and constructor environment for evaluation *)

(** [/repo] holds [a.txt], the directory [.git] with [config], the
    directory [src] with [m.py] and the unreadable [m.pyc], and a link
    [vendor] to a directory elsewhere. *)
Definition repo_tree : Tree :=
  Dir [("a.txt", File);
       (".git", Dir [("config", File)]);
       ("src", Dir [("m.py", File); ("m.pyc", File)]);
       ("vendor", Unwalked)].

Definition repo_files : list (string * string) :=
  [("/repo/a.txt", "alpha"); ("/repo/.git/config", "[core]"); ("/repo/src/m.py", "pass")].

(** The operating system with that tree below [/repo] and no [.gitignore]. *)
Definition repo_init_env : InitEnv :=
  {| init_os := {| getcwd := "/";
                   isdir := fun p => String.eqb p "/repo/.git" || String.eqb p "/repo/src"
                                     || String.eqb p "/repo/vendor";
                   read_text := fun p => odict.get p repo_files;
                   time := 0 |};
     isfile := fun _ => false;
     open_read := fun _ => IOError;
     walk_top := repo_tree |}.

(** The same with a [.gitignore] that cannot be decoded. *)
Definition repo_init_env_undecodable : InitEnv :=
  {| init_os := init_os repo_init_env;
     isfile := fun p => String.eqb p "/repo/.gitignore";
     open_read := fun _ => UnicodeDecodeError;
     walk_top := repo_tree |}.

(** The same with a [.gitignore] of three lines: a comment, an empty line
    and the pattern [build/]. *)
Definition repo_init_env_gitignore : InitEnv :=
  {| init_os := init_os repo_init_env;
     isfile := fun p => String.eqb p "/repo/.gitignore";
     open_read := fun _ => Text ("# output" +:+ nl +:+ nl +:+ "build/" +:+ nl);
     walk_top := repo_tree |}.

(** The pattern compiler on the lists of lines used here: no line gives the
    spec that matches nothing, the one line [build/] the spec above; it
    accepts no other list. *)
Definition from_lines_small : GitWildMatch :=
  fun lines =>
    match lines with
    | [] => Some (fun _ => false)
    | [line] => if String.eqb line "build/" then Some gitignore_build_dir else None
    | _ => None
    end.

(** * Properties *)

(** ** The ignore policy *)

Section IgnorePolicy.

Context `{!PathMatcher}.

Lemma relpath_absolute env1 env2 p d :
  posixpath.isabs p = true -> posixpath.isabs d = true ->
  posixpath.relpath env1 p d = posixpath.relpath env2 p d.
Proof.
  intros Hp Hd. unfold posixpath.relpath, posixpath.abspath.
  rewrite Hp, Hd. reflexivity.
Qed.

(** C7 (amended).  [_should_ignore] and [_should_watch] return a boolean
    and change nothing.  On absolute paths, [_should_watch] is a function of
    the static configuration (watched directory, include patterns, ignore
    patterns, compiled ignore file) and the path, and [_should_ignore] is a
    function of the static configuration, the path and one fact of the file
    system: whether the path is a directory.  Two calls, on two watchers
    with the same static configuration whatever their caches, tables and
    timers are, and under two states of the operating system that agree on
    that fact, return the same boolean. *)
Theorem should_ignore_should_watch_deterministic
    (self self' : FileWatcher) (env1 env2 : Env) (p : string) :
  same_config self self' ->
  posixpath.isabs p = true ->
  posixpath.isabs (directory self) = true ->
  isdir env1 p = isdir env2 p ->
  _should_ignore self env1 p = _should_ignore self' env2 p
  /\ _should_watch self env1 p = _should_watch self' env2 p.
Proof.
  intros (Hdirectory & Hpatterns & Hignore & Hspec) Hp Hd Hdir.
  unfold _should_ignore, _should_watch.
  rewrite Hdirectory, Hpatterns, Hignore, Hspec.
  rewrite (relpath_absolute env1 env2 p _ Hp Hd), Hdir. split; reflexivity.
Qed.

Lemma git_part_ignored (self : FileWatcher) (env : Env) (p : string) :
  In ".git" (pystr.split "/" (posixpath.relpath env p (directory self))) ->
  _should_ignore self env p = true.
Proof.
  intros Hin. unfold _should_ignore.
  assert (existsb (fun part => String.eqb part ".git")
            (pystr.split "/" (posixpath.relpath env p (directory self))) = true) as ->.
  { apply existsb_exists. exists ".git". split; [exact Hin | reflexivity]. }
  reflexivity.
Qed.

(** C9 (amended).  A path whose path relative to the watched directory has a
    segment [.git] is ignored whatever the include patterns are: the filter
    of the handlers rejects it, create and modify events for it change
    nothing, and a debounced commit for it emits nothing. *)
Theorem git_segment_never_watched
    (self : FileWatcher) (env : Env) (p : string) :
  In ".git" (pystr.split "/" (posixpath.relpath env p (directory self))) ->
  _should_ignore self env p = true
  /\ filtered_out self env p = true
  /\ (forall ev, src_path ev = p ->
        on_created env ev self = self
        /\ on_modified env ev self = self)
  /\ event_stream (_handle_debounced_change env p self) = event_stream self.
Proof.
  intros Hin.
  assert (Hig : _should_ignore self env p = true) by (apply git_part_ignored; exact Hin).
  assert (Hf : forall s', directory s' = directory self ->
             filtered_out s' env p = true).
  { intros s' Hd. unfold filtered_out.
    rewrite (git_part_ignored s' env p); [reflexivity | rewrite Hd; exact Hin]. }
  split; [exact Hig |]. split; [apply Hf; reflexivity |]. split.
  - intros ev <-. unfold on_created, on_modified.
    rewrite (Hf self eq_refl).
    destruct (is_directory ev), (swap_or_backup (src_path ev)); split; reflexivity.
  - unfold _handle_debounced_change.
    destruct (bool_decide _); [| reflexivity].
    rewrite Hf; reflexivity.
Qed.

End IgnorePolicy.

(** C7 (counterexample).  With an ignore file holding [build/], the answer of
    [_should_ignore] for [/repo/build] changes with the file system: it is
    not a function of the configuration and the path alone. *)
Lemma should_ignore_reads_the_file_system :
  ~ (forall env1 env2 : Env,
       _should_ignore build_watcher env1 "/repo/build"
       = _should_ignore build_watcher env2 "/repo/build").
Proof.
  intros H. specialize (H env_build_is_dir (env_at 0 [])).
  vm_compute in H. discriminate H.
Qed.

Lemma should_ignore_should_watch_deterministic_witness :
  let self' := run [(env_at 0 [("/repo/a.txt", "x")], Modified (file_event "/repo/a.txt"));
                    (env_at 5 [], Deleted (file_event "/repo/b.txt"))] build_watcher in
  timers self' <> timers build_watcher
  /\ _should_ignore build_watcher env_build_is_dir "/repo/build/out.o"
     = _should_ignore self' (env_at 7 [("/repo/a.txt", "x")]) "/repo/build/out.o"
  /\ _should_watch build_watcher env_build_is_dir "/repo/build/out.o"
     = _should_watch self' (env_at 7 [("/repo/a.txt", "x")]) "/repo/build/out.o".
Proof.
  intros self'. split; [vm_compute; discriminate |].
  assert (Hcfg : same_config build_watcher self') by (repeat split).
  exact (should_ignore_should_watch_deterministic build_watcher self'
           env_build_is_dir (env_at 7 [("/repo/a.txt", "x")]) "/repo/build/out.o"
           Hcfg eq_refl eq_refl eq_refl).
Defined.

(** C9 (counterexample).  When the watched directory itself lies inside a
    [.git] directory, a path below it has a segment [.git] and is not
    ignored. *)
Lemma git_segment_of_the_root_not_ignored :
  In ".git" (pystr.split "/" "/repo/.git/config")
  /\ _should_ignore git_dir_watcher (env_at 0 []) "/repo/.git/config" = false
  /\ filtered_out git_dir_watcher (env_at 0 []) "/repo/.git/config" = false.
Proof. vm_compute. intuition. Qed.

Lemma git_segment_never_watched_witness :
  _should_ignore (repo_watcher []) (env_at 0 []) "/repo/.git/config" = true
  /\ filtered_out (repo_watcher []) (env_at 0 []) "/repo/.git/config" = true
  /\ (forall ev, src_path ev = "/repo/.git/config" ->
        on_created (env_at 0 []) ev (repo_watcher []) = repo_watcher []
        /\ on_modified (env_at 0 []) ev (repo_watcher []) = repo_watcher [])
  /\ event_stream (_handle_debounced_change (env_at 0 []) "/repo/.git/config"
                     (repo_watcher []))
     = event_stream (repo_watcher []).
Proof.
  apply (git_segment_never_watched (repo_watcher []) (env_at 0 [])
           "/repo/.git/config").
  vm_compute. intuition.
Defined.

(** ** The handlers *)

Section Handlers.

Context `{!PathMatcher}.

Arguments _generate_diff : simpl never.
Arguments posixpath.relpath : simpl never.
Arguments String.eqb : simpl never.


Lemma filtered_out_same_config s s' env p :
  same_config s s' -> filtered_out s' env p = filtered_out s env p.
Proof.
  intros (Hd & Hp & Hi & Hg).
  unfold filtered_out, _should_ignore, _should_watch.
  rewrite Hd, Hp, Hi, Hg. reflexivity.
Qed.

Lemma same_config_refl s : same_config s s.
Proof. repeat split. Qed.

Lemma cancel_pending_config p s : same_config s (cancel_pending p s).
Proof. unfold cancel_pending. destruct (debounce_timers s !! p); repeat split. Qed.

Lemma schedule_config env p s : same_config s (_schedule_debounced_change env p s).
Proof.
  unfold _schedule_debounced_change. destruct (debounce_timers s !! p); repeat split.
Qed.

Lemma debounced_change_config env p s : same_config s (_handle_debounced_change env p s).
Proof.
  unfold _handle_debounced_change.
  destruct (bool_decide (p ∈ pending_changes s)); [| apply same_config_refl].
  match goal with |- context [filtered_out ?x env p] => destruct (filtered_out x env p) end;
    [repeat split |].
  destruct (swap_or_backup p); [repeat split |].
  match goal with |- context [negb ?b] => destruct (negb b) end; repeat split.
Qed.

Lemma same_config_trans s1 s2 s3 :
  same_config s1 s2 -> same_config s2 s3 -> same_config s1 s3.
Proof.
  intros (? & ? & ? & ?) (? & ? & ? & ?). repeat split; congruence.
Qed.

(** What [_schedule_debounced_change] does to each table. *)
Lemma schedule_timers env p s :
  timers (_schedule_debounced_change env p s)
  = match debounce_timers s !! p with
    | Some tid => alter cancel tid (timers s)
    | None => timers s
    end ++ [{| interval := debounce_delay s; started := time env;
               function := handle_debounced_change p; finished := false |}].
Proof.
  unfold _schedule_debounced_change. destruct (debounce_timers s !! p); reflexivity.
Qed.

Lemma schedule_tables env p s :
  let s' := _schedule_debounced_change env p s in
  event_stream s' = event_stream s
  /\ file_contents s' = file_contents s
  /\ recent_deletes s' = recent_deletes s
  /\ pending_changes s' = pending_changes s ∪ {[p]}
  /\ debounce_timers s' = <[p := length (timers s)]> (debounce_timers s)
  /\ use_debouncing s' = use_debouncing s
  /\ debounce_delay s' = debounce_delay s
  /\ rename_window s' = rename_window s
  /\ observer_alive s' = observer_alive s.
Proof.
  unfold _schedule_debounced_change.
  destruct (debounce_timers s !! p); cbn; rewrite ?length_alter; repeat split.
Qed.

(** The commit of [_handle_debounced_change] when the path is pending and
    passes the filters. *)
Lemma debounced_commit env p s :
  p ∈ pending_changes s ->
  filtered_out s env p = false ->
  swap_or_backup p = false ->
  let old := default "" (file_contents s !! p) in
  let new := _read_file_content env p in
  let rel := posixpath.relpath env p (directory s) in
  event_stream (_handle_debounced_change env p s)
  = event_stream s ++
    (if String.eqb old new then []
     else [({| path := rel; prev_exist := true; old_content := old;
               new_content := new; content := _generate_diff old new rel |}, USER)])
  /\ file_contents (_handle_debounced_change env p s)
     = (if String.eqb old new then file_contents s else <[p := new]> (file_contents s))
  /\ timers (_handle_debounced_change env p s) = timers s
  /\ recent_deletes (_handle_debounced_change env p s) = recent_deletes s.
Proof.
  intros Hin Hf Hs. cbn zeta. unfold _handle_debounced_change.
  rewrite bool_decide_eq_true_2 by exact Hin.
  rewrite (filtered_out_same_config s) by repeat split.
  rewrite Hf, Hs. cbn.
  destruct (String.eqb _ _); cbn; rewrite ?app_nil_r; repeat split.
Qed.

(** C10.  Every observation the debounced commit emits carries
    [prev_exist = true]; in particular a file that is not in the cache and is
    first seen through a debounced create event is reported with old content
    empty and [prev_exist = true]. *)
Theorem debounced_commit_prev_exist (env : Env) (p : string) (self : FileWatcher) :
  (exists new,
     event_stream (_handle_debounced_change env p self) = event_stream self ++ new
     /\ Forall (fun o => prev_exist (fst o) = true) new)
  /\ (forall (env0 : Env) (ev : FileSystemEvent) (c : string),
        is_directory ev = false ->
        src_path ev = p ->
        swap_or_backup p = false ->
        filtered_out self env0 p = false ->
        filtered_out self env p = false ->
        use_debouncing self = true ->
        rename_scan (time env0) (rename_window self) (_read_file_content env0 p)
          (recent_deletes self) = None ->
        file_contents self !! p = None ->
        read_text env p = Some c ->
        c <> "" ->
        let rel := posixpath.relpath env p (directory self) in
        event_stream (Timer_run env (length (timers self)) (on_created env0 ev self))
        = event_stream self ++
          [({| path := rel; prev_exist := true; old_content := "";
               new_content := c; content := _generate_diff "" c rel |}, USER)]).
Proof.
  split.
  - unfold _handle_debounced_change.
    destruct (bool_decide _); [| exists []; rewrite app_nil_r; split; [reflexivity | constructor]].
    destruct (filtered_out _ _ _);
      [exists []; rewrite app_nil_r; split; [reflexivity | constructor] |].
    destruct (swap_or_backup p);
      [exists []; rewrite app_nil_r; split; [reflexivity | constructor] |].
    destruct (negb _).
    + eexists. split; [reflexivity |]. repeat constructor.
    + exists []. rewrite app_nil_r. split; [reflexivity | constructor].
  - intros env0 ev c Hd Hp Hs Hf0 Hf Hdeb Hscan Hnone Hread Hc rel.
    unfold on_created. rewrite Hd, Hp, Hs, Hf0, Hscan, Hdeb.
    pose proof (schedule_tables env0 p self) as (He & Hfc & Hrd & Hpc & Hdt & Hrest).
    pose proof (schedule_timers env0 p self) as Ht.
    set (s1 := _schedule_debounced_change env0 p self) in *.
    unfold Timer_run.
    assert (Hlook : timers s1 !! length (timers self)
                    = Some {| interval := debounce_delay self; started := time env0;
                              function := handle_debounced_change p; finished := false |}).
    { rewrite Ht. destruct (debounce_timers self !! p).
      - rewrite lookup_app_r; rewrite length_alter; [| lia].
        rewrite Nat.sub_diag. reflexivity.
      - rewrite lookup_app_r by lia. rewrite Nat.sub_diag. reflexivity. }
    rewrite Hlook. cbn.
    assert (Hin : p ∈ pending_changes s1) 
      by (rewrite Hpc; apply elem_of_union; right; apply elem_of_singleton; reflexivity).
    assert (Hf1 : filtered_out s1 env p = false).
    { rewrite (filtered_out_same_config self); [exact Hf | apply schedule_config]. }
    assert (Hdir : directory s1 = directory self) by apply schedule_config.
    pose proof (debounced_commit env p s1 Hin Hf1 Hs) as (Hev & _).
    cbn zeta in Hev. rewrite Hdir, He, Hfc, Hnone in Hev.
    unfold _read_file_content in Hev. rewrite Hread in Hev.
    change (default "" (Some c)) with c in Hev. change (default "" None) with "" in Hev.
    destruct (String.eqb_spec "" c) as [E | _]; [congruence |].
    exact Hev.
Qed.

(** C4 (amended).  The two commit paths that compare contents, the debounced
    commit and the immediate modify, emit nothing when the cached content
    equals the content read. *)
Theorem unchanged_content_not_emitted (env : Env) (p : string) (self : FileWatcher) :
  default "" (file_contents self !! p) = _read_file_content env p ->
  event_stream (_handle_debounced_change env p self) = event_stream self
  /\ file_contents (_handle_debounced_change env p self) = file_contents self
  /\ (forall ev, src_path ev = p -> use_debouncing self = false ->
        on_modified env ev self = self).
Proof.
  intros Heq. split; [| split].
  - unfold _handle_debounced_change.
    destruct (bool_decide _); [| reflexivity].
    destruct (filtered_out _ _ _); [reflexivity |].
    destruct (swap_or_backup p); [reflexivity |].
    cbn. rewrite Heq, String.eqb_refl. reflexivity.
  - unfold _handle_debounced_change.
    destruct (bool_decide _); [| reflexivity].
    destruct (filtered_out _ _ _); [reflexivity |].
    destruct (swap_or_backup p); [reflexivity |].
    cbn. rewrite Heq, String.eqb_refl. reflexivity.
  - intros ev <- Hdeb. unfold on_modified.
    rewrite Hdeb, Heq, String.eqb_refl.
    destruct (is_directory ev), (swap_or_backup (src_path ev)),
      (filtered_out self env (src_path ev)); reflexivity.
Qed.

(** An event on the path of a swap or backup file is discarded by
    [on_created], [on_modified] and [on_deleted] before anything else
    happens. *)
Lemma swap_or_backup_discarded (env : Env) (ev : FileSystemEvent) (self : FileWatcher) :
  swap_or_backup (src_path ev) = true ->
  on_created env ev self = self /\ on_modified env ev self = self
  /\ on_deleted env ev self = self.
Proof.
  intros Hs. unfold on_created, on_modified, on_deleted. rewrite Hs.
  destruct (is_directory ev); repeat split.
Qed.

(** [on_moved] with a swap or backup path on either side leaves the cache,
    the recent deletes and the event stream alone; what it does before the
    test is [cancel_pending] on the source path. *)
Lemma on_moved_swap_or_backup (env : Env) (ev : FileSystemEvent) (self : FileWatcher) :
  is_directory ev = false ->
  swap_or_backup (src_path ev) || swap_or_backup (dest_path ev) = true ->
  on_moved env ev self = cancel_pending (src_path ev) self.
Proof.
  intros Hd Hs. unfold on_moved. rewrite Hd, Hs. reflexivity.
Qed.

Lemma timers_fold_cancel (l : list nat) (s : FileWatcher) :
  timers (fold_right cancel_timer s l)
  = fold_right (fun tid ts => alter cancel tid ts) (timers s) l.
Proof. induction l as [| tid l IH]; cbn; [reflexivity | rewrite IH; reflexivity]. Qed.

Lemma fold_cancel_lookup (l : list nat) (ts : list Timer) (tid : nat) (t : Timer) :
  fold_right (fun tid ts => alter cancel tid ts) ts l !! tid = Some t ->
  (tid ∈ l -> finished t = true)
  /\ exists t0, ts !! tid = Some t0 /\ (finished t0 = true -> finished t = true)
       /\ function t = function t0.
Proof.
  revert t. induction l as [| x l IH]; cbn; intros t Hl.
  - split; [intros Hin; inversion Hin |]. exists t. auto.
  - destruct (decide (x = tid)) as [-> | Hne].
    + rewrite list_lookup_alter_eq in Hl.
      destruct (fold_right _ ts l !! tid) as [t1 |] eqn:E; [| discriminate].
      injection Hl as <-. split; [reflexivity |].
      destruct (IH t1 eq_refl) as (_ & t0 & H0 & _ & Hfn). exists t0. auto.
    + rewrite list_lookup_alter_ne in Hl by exact Hne.
      destruct (IH t Hl) as (Hin & Hex). split; [| exact Hex].
      intros Hel. apply elem_of_cons in Hel as [-> | Hel]; [congruence | auto].
Qed.

(** What [stop()] does cancel: every timer [debounce_timers] refers to. *)
Lemma stop_cancels_debounce_timers (self : FileWatcher) (p : string) (tid : nat) (t : Timer) :
  debounce_timers self !! p = Some tid ->
  timers (stop self) !! tid = Some t ->
  finished t = true.
Proof.
  intros Hp Ht. unfold stop in Ht. cbn in Ht. rewrite timers_fold_cancel in Ht.
  apply fold_cancel_lookup in Ht as (Hin & _). apply Hin.
  apply list_elem_of_fmap. exists (p, tid). split; [reflexivity |].
  apply elem_of_map_to_list. exact Hp.
Qed.

End Handlers.

Lemma debounced_commit_prev_exist_witness :
  let env0 := env_at 0 [("/repo/new.txt", "hi")] in
  let env := env_at 100 [("/repo/new.txt", "hi")] in
  event_stream (Timer_run env 0 (on_created env0 (file_event "/repo/new.txt") (repo_watcher [])))
  = [({| path := "new.txt"; prev_exist := true; old_content := "";
         new_content := "hi"; content := "+hi" |}, USER)].
Proof.
  intros env0 env.
  destruct (debounced_commit_prev_exist env "/repo/new.txt" (repo_watcher [])) as [_ H].
  apply (H env0 (file_event "/repo/new.txt") "hi");
    try reflexivity; try (vm_compute; reflexivity); discriminate.
Defined.

(** C4 (counterexample).  The commit paths that do not compare contents emit
    although old and new content are equal: the immediate create of an empty
    file, the finalization of the delete of an empty file, and the move of an
    empty file. *)
Lemma empty_file_create_delete_move_emitted :
  event_stream (on_created (env_at 0 [("/repo/new.txt", "")]) (file_event "/repo/new.txt")
                  (repo_watcher_immediate []))
  = [({| path := "new.txt"; prev_exist := false; old_content := "";
         new_content := ""; content := "" |}, USER)]
  /\ event_stream (Timer_run (env_at 100 []) 0
                     (on_deleted (env_at 0 []) (file_event "/repo/e.txt")
                        (repo_watcher [("/repo/e.txt", "")])))
     = [({| path := "e.txt"; prev_exist := true; old_content := "";
            new_content := ""; content := "" |}, USER)]
  /\ event_stream (on_moved (env_at 0 [("/repo/f.txt", "")])
                     (move_event "/repo/e.txt" "/repo/f.txt")
                     (repo_watcher [("/repo/e.txt", "")]))
     = [({| path := "e.txt"; prev_exist := true; old_content := "";
            new_content := ""; content := "" |}, USER);
        ({| path := "f.txt"; prev_exist := false; old_content := "";
            new_content := ""; content := "" |}, USER)].
Proof. vm_compute. repeat split. Qed.

Lemma unchanged_content_not_emitted_witness :
  let env := env_at 100 [("/repo/a.txt", "x")] in
  let s := on_modified (env_at 0 [("/repo/a.txt", "x")]) (file_event "/repo/a.txt")
             (repo_watcher [("/repo/a.txt", "x")]) in
  "/repo/a.txt" ∈ pending_changes s
  /\ event_stream (_handle_debounced_change env "/repo/a.txt" s) = event_stream s
  /\ file_contents (_handle_debounced_change env "/repo/a.txt" s) = file_contents s
  /\ (forall ev, src_path ev = "/repo/a.txt" -> use_debouncing s = false ->
        on_modified env ev s = s).
Proof.
  intros env s. split.
  - apply (bool_decide_eq_true_1 ("/repo/a.txt" ∈ pending_changes s)).
    vm_compute. reflexivity.
  - apply (unchanged_content_not_emitted env "/repo/a.txt" s). vm_compute. reflexivity.
Defined.

(** C8 (the code at the failing input).  A change of [/repo/a.txt] is pending
    when the file is moved to the backup name [/repo/a.txt~]: [on_moved]
    cancels the timer, forgets it and clears the pending mark before it
    tests the paths, so the event is not discarded untouched. *)
Theorem move_to_backup_cancels_pending_change :
  let s := on_modified (env_at 0 [("/repo/a.txt", "y")]) (file_event "/repo/a.txt")
             (repo_watcher [("/repo/a.txt", "x")]) in
  let s' := on_moved (env_at 10 [("/repo/a.txt~", "y")])
              (move_event "/repo/a.txt" "/repo/a.txt~") s in
  swap_or_backup "/repo/a.txt~" = true
  /\ debounce_timers s = {[ "/repo/a.txt" := 0%nat ]} /\ debounce_timers s' = ∅
  /\ pending_changes s = {[ "/repo/a.txt" ]} /\ pending_changes s' = ∅
  /\ finished <$> timers s !! 0%nat = Some false
  /\ finished <$> timers s' !! 0%nat = Some true
  /\ s' <> s.
Proof.
  cbv zeta. repeat split; try (vm_compute; reflexivity).
  intros E. apply (f_equal (fun w => finished <$> timers w !! 0%nat)) in E.
  vm_compute in E. discriminate E.
Qed.

(** C3 (the code at the failing input).  [/repo/a.txt] is deleted, then
    [stop()] returns; the timer that finalizes the delete was never entered
    into [debounce_timers], so it is not cancelled: it wakes up after the
    rename window, emits an observation and changes [recent_deletes]. *)
Theorem rename_timer_survives_stop :
  let s1 := run [(env_at 0 [], Deleted (file_event "/repo/a.txt")); (env_at 10 [], Stop)]
              (repo_watcher [("/repo/a.txt", "x")]) in
  let s2 := step (env_at 100 []) (TimerFires 0) s1 in
  observer_alive s1 = false
  /\ enabled (env_at 100 []) (TimerFires 0) s1
  /\ finished <$> timers s1 !! 0%nat = Some false
  /\ event_stream s1 = [] /\ recent_deletes s1 = [("/repo/a.txt", ("x", 0%Z))]
  /\ event_stream s2
     = [({| path := "a.txt"; prev_exist := true; old_content := "x";
            new_content := ""; content := "-x" |}, USER)]
  /\ recent_deletes s2 = [].
Proof.
  cbv zeta. repeat split; try (vm_compute; reflexivity).
  eexists. split; [vm_compute; reflexivity |]. vm_compute. discriminate.
Qed.

(** ** Deletes, creates and renames *)

Section Scenarios.

Context `{!PathMatcher}.

Arguments _generate_diff : simpl never.
Arguments posixpath.relpath : simpl never.
Arguments String.eqb : simpl never.

(** *** The ordered dict *)

Lemma odict_get_pop {V} (k : string) (d : list (string * V)) :
  odict.get k (odict.pop k d) = None.
Proof.
  induction d as [| [k' v] d IH]; [reflexivity |].
  unfold odict.pop in *. cbn.
  destruct (String.eqb_spec k k') as [-> | Hne]; cbn; [exact IH |].
  destruct (String.eqb_spec k k') as [E | _]; [contradiction | exact IH].
Qed.

Lemma odict_mem_pop {V} (k : string) (d : list (string * V)) :
  odict.mem k (odict.pop k d) = false.
Proof. unfold odict.mem. rewrite odict_get_pop. reflexivity. Qed.

Lemma odict_pop_set {V} (k : string) (v : V) (d : list (string * V)) :
  odict.pop k (odict.set k v d) = odict.pop k d.
Proof.
  induction d as [| [k' v'] d IH].
  - unfold odict.pop. cbn. rewrite String.eqb_refl. reflexivity.
  - unfold odict.pop in *. cbn.
    destruct (String.eqb_spec k k') as [-> | Hne]; cbn.
    + rewrite String.eqb_refl. reflexivity.
    + destruct (String.eqb_spec k k') as [E | _]; [contradiction |].
      cbn. rewrite IH. reflexivity.
Qed.

Lemma odict_mem_set {V} (k : string) (v : V) (d : list (string * V)) :
  odict.mem k (odict.set k v d) = true.
Proof.
  unfold odict.mem. induction d as [| [k' v'] d IH]; cbn.
  - rewrite String.eqb_refl. reflexivity.
  - destruct (String.eqb_spec k k') as [-> | Hne]; cbn.
    + rewrite String.eqb_refl. reflexivity.
    + destruct (String.eqb_spec k k') as [E | _]; [contradiction | exact IH].
Qed.



Lemma rename_scan_finds (A C : string) (t0 now window : Z) d :
  (now - t0 <= window)%Z ->
  no_other_match A C now window d ->
  rename_scan now window C (odict.set A (C, t0) d) = Some A.
Proof.
  intros Hw Hd. induction d as [| [k [c ts]] d IH]; cbn.
  - rewrite String.eqb_refl.
    destruct (Z.leb_spec (now - t0) window); [reflexivity | lia].
  - inversion Hd as [| ? ? Hk Hd']; subst. cbn in Hk.
    destruct (String.eqb_spec A k) as [-> | Hne]; cbn.
    + rewrite String.eqb_refl.
      destruct (Z.leb_spec (now - t0) window); [reflexivity | lia].
    + destruct Hk as [E | [Hc | Hold]].
      * congruence.
      * destruct (String.eqb_spec C c) as [E | _]; [congruence |].
        rewrite andb_false_r. apply IH. exact Hd'.
      * destruct (Z.leb_spec (now - ts) window); [lia |]. apply IH. exact Hd'.
Qed.

Lemma rename_scan_none (C : string) (now window : Z) d :
  no_match C now window d -> rename_scan now window C d = None.
Proof.
  induction 1 as [| [k [c ts]] d Hk Hd IH]; cbn; [reflexivity |].
  cbn in Hk. destruct Hk as [Hc | Hold].
  - destruct (String.eqb_spec C c) as [E | _]; [congruence |].
    rewrite andb_false_r. exact IH.
  - destruct (Z.leb_spec (now - ts) window); [lia | exact IH].
Qed.

Lemma no_match_pop (A C : string) (now window : Z) d :
  no_match C now window d -> no_match C now window (odict.pop A d).
Proof.
  unfold no_match, odict.pop. intros Hd. rewrite List.Forall_forall in *.
  intros x Hx. apply List.filter_In in Hx as [Hx _]. auto.
Qed.

Lemma no_match_set (A C C' : string) (t0 now window : Z) d :
  C' <> C -> no_match C' now window d ->
  no_match C' now window (odict.set A (C, t0) d).
Proof.
  intros Hne. unfold no_match. induction 1 as [| [k v] d Hk Hd IH]; cbn.
  - constructor; [left; cbn; congruence | constructor].
  - destruct (String.eqb A k); constructor; auto; left; cbn; congruence.
Qed.

(** *** The tables after [cancel_pending] and [on_deleted] *)

Lemma cancel_pending_tables (p : string) (s : FileWatcher) :
  let s' := cancel_pending p s in
  event_stream s' = event_stream s
  /\ file_contents s' = file_contents s
  /\ recent_deletes s' = recent_deletes s
  /\ length (timers s') = length (timers s)
  /\ use_debouncing s' = use_debouncing s
  /\ rename_window s' = rename_window s
  /\ debounce_delay s' = debounce_delay s
  /\ observer_alive s' = observer_alive s.
Proof.
  unfold cancel_pending. destruct (debounce_timers s !! p); cbn;
    rewrite ?length_alter; repeat split.
Qed.

Lemma cancel_pending_refs (p q : string) (tid : nat) (s : FileWatcher) :
  debounce_timers (cancel_pending p s) !! q = Some tid ->
  debounce_timers s !! q = Some tid.
Proof.
  unfold cancel_pending. destruct (debounce_timers s !! p) eqn:E; cbn; [| auto].
  intros Hq. apply lookup_delete_Some in Hq as [_ Hq]. exact Hq.
Qed.


(** The state a delete event leaves in debounced mode: the cache entry is
    gone, the content is kept in [recent_deletes] and one timer was started
    to finalize the delete. *)
Lemma on_deleted_debounced (env : Env) (ev : FileSystemEvent) (s : FileWatcher) :
  is_directory ev = false ->
  swap_or_backup (src_path ev) = false ->
  filtered_out s env (src_path ev) = false ->
  use_debouncing s = true ->
  let A := src_path ev in
  let old := default "" (file_contents s !! A) in
  let s' := on_deleted env ev s in
  same_config s s'
  /\ event_stream s' = event_stream s
  /\ file_contents s' = delete A (file_contents s)
  /\ recent_deletes s' = odict.set A (old, time env) (recent_deletes s)
  /\ timers s' = timers (cancel_pending A s)
                 ++ [{| interval := rename_window s; started := time env;
                        function := handle_delayed_delete A old; finished := false |}]
  /\ use_debouncing s' = true
  /\ rename_window s' = rename_window s
  /\ debounce_delay s' = debounce_delay s
  /\ observer_alive s' = observer_alive s
  /\ debounce_timers s' = debounce_timers (cancel_pending A s).
Proof.
  intros Hd Hs Hf Hdeb. cbn zeta. unfold on_deleted. rewrite Hd, Hs.
  pose proof (cancel_pending_config (src_path ev) s) as Hc.
  pose proof (cancel_pending_tables (src_path ev) s) as (He & Hfc & Hrd & Hlen & Hu & Hw & Hdd & Hoa).
  rewrite (filtered_out_same_config s) by exact Hc. rewrite Hf.
  cbn. rewrite Hu, Hdeb. cbn. rewrite He, Hfc, Hrd, Hw, Hdd, Hoa.
  destruct Hc as (? & ? & ? & ?). repeat split; cbn; congruence.
Qed.

(** The timer at the next free position, just appended. *)
Lemma lookup_appended {A} (l : list A) (x : A) (n : nat) :
  n = length l -> (l ++ [x]) !! n = Some x.
Proof. intros ->. rewrite lookup_app_r by lia. rewrite Nat.sub_diag. reflexivity. Qed.

Lemma lookup_before_appended {A} (l : list A) (x : A) (n : nat) :
  (n < length l)%nat -> (l ++ [x]) !! n = l !! n.
Proof. intros Hn. apply lookup_app_l. exact Hn. Qed.

(** A debounced change scheduled in any state and committed by its timer. *)
Lemma schedule_then_fire (env env' : Env) (p : string) (s : FileWatcher) :
  filtered_out s env' p = false ->
  swap_or_backup p = false ->
  let s1 := _schedule_debounced_change env p s in
  let s2 := Timer_run env' (length (timers s)) s1 in
  let old := default "" (file_contents s !! p) in
  let new := _read_file_content env' p in
  let rel := posixpath.relpath env' p (directory s) in
  event_stream s2
  = event_stream s ++
    (if String.eqb old new then []
     else [({| path := rel; prev_exist := true; old_content := old;
               new_content := new; content := _generate_diff old new rel |}, USER)])
  /\ file_contents s2
     = (if String.eqb old new then file_contents s else <[p := new]> (file_contents s))
  /\ recent_deletes s2 = recent_deletes s
  /\ same_config s s2
  /\ length (timers s2) = S (length (timers s))
  /\ timers s2 = alter cancel (length (timers s)) (timers s1).
Proof.
  intros Hf Hs. cbn zeta.
  pose proof (schedule_tables env p s) as (He & Hfc & Hrd & Hpc & Hdt & Hrest).
  pose proof (schedule_timers env p s) as Ht.
  pose proof (schedule_config env p s) as Hc.
  set (s1 := _schedule_debounced_change env p s) in *.
  assert (Hlook : timers s1 !! length (timers s)
                  = Some {| interval := debounce_delay s; started := time env;
                            function := handle_debounced_change p; finished := false |}).
  { rewrite Ht. apply lookup_appended.
    destruct (debounce_timers s !! p); rewrite ?length_alter; reflexivity. }
  assert (Hin : p ∈ pending_changes s1)
    by (rewrite Hpc; apply elem_of_union; right; apply elem_of_singleton; reflexivity).
  assert (Hf1 : filtered_out s1 env' p = false)
    by (rewrite (filtered_out_same_config s); [exact Hf | exact Hc]).
  pose proof (debounced_commit env' p s1 Hin Hf1 Hs) as (Hev & Hfc' & Hts & Hrd').
  cbn zeta in Hev, Hfc'.
  assert (Hdir : directory s1 = directory s) by apply Hc.
  rewrite Hdir, He, Hfc in Hev. rewrite Hfc in Hfc'.
  unfold Timer_run. rewrite Hlook. cbn [finished function run_callback].
  change (event_stream (cancel_timer ?t ?x)) with (event_stream x).
  change (file_contents (cancel_timer ?t ?x)) with (file_contents x).
  change (recent_deletes (cancel_timer ?t ?x)) with (recent_deletes x).
  split; [exact Hev |]. split; [exact Hfc' |]. split; [congruence |]. split.
  - eapply same_config_trans; [exact Hc |].
    eapply same_config_trans; [apply debounced_change_config | repeat split].
  - split.
    + unfold cancel_timer. cbn. rewrite length_alter, Hts, Ht, length_app. cbn.
      destruct (debounce_timers s !! p); rewrite ?length_alter; lia.
    + unfold cancel_timer. cbn. rewrite Hts. reflexivity.
Qed.

(** *** How the events route *)

Lemma on_created_rename (env : Env) (ev : FileSystemEvent) (s : FileWatcher) (old_path : string) :
  is_directory ev = false ->
  swap_or_backup (src_path ev) = false ->
  filtered_out s env (src_path ev) = false ->
  rename_scan (time env) (rename_window s) (_read_file_content env (src_path ev))
    (recent_deletes s) = Some old_path ->
  on_created env ev s
  = set_recent_deletes (odict.pop old_path)
      (set_file_contents <[src_path ev := _read_file_content env (src_path ev)]> s).
Proof.
  intros Hd Hs Hf Hscan. unfold on_created. rewrite Hd, Hs, Hf, Hscan. reflexivity.
Qed.

Lemma on_created_scheduled (env : Env) (ev : FileSystemEvent) (s : FileWatcher) :
  is_directory ev = false ->
  swap_or_backup (src_path ev) = false ->
  filtered_out s env (src_path ev) = false ->
  rename_scan (time env) (rename_window s) (_read_file_content env (src_path ev))
    (recent_deletes s) = None ->
  use_debouncing s = true ->
  on_created env ev s = _schedule_debounced_change env (src_path ev) s.
Proof.
  intros Hd Hs Hf Hscan Hdeb. unfold on_created. rewrite Hd, Hs, Hf, Hscan, Hdeb.
  reflexivity.
Qed.

Lemma on_modified_scheduled (env : Env) (ev : FileSystemEvent) (s : FileWatcher) :
  is_directory ev = false ->
  swap_or_backup (src_path ev) = false ->
  filtered_out s env (src_path ev) = false ->
  use_debouncing s = true ->
  on_modified env ev s = _schedule_debounced_change env (src_path ev) s.
Proof.
  intros Hd Hs Hf Hdeb. unfold on_modified. rewrite Hd, Hs, Hf, Hdeb. reflexivity.
Qed.

Lemma delayed_delete_fires (env : Env) (tid : nat) (t : Timer) (A C : string)
    (s : FileWatcher) :
  timers s !! tid = Some t ->
  finished t = false ->
  function t = handle_delayed_delete A C ->
  Timer_run env tid s = cancel_timer tid (_handle_delayed_delete env A C s).
Proof.
  intros Ht Hf Hfn. unfold Timer_run. rewrite Ht, Hf, Hfn. reflexivity.
Qed.

(** The finalization of a delete whose entry is still in [recent_deletes]. *)
Lemma delayed_delete_emits (env : Env) (A C : string) (s : FileWatcher) :
  odict.mem A (recent_deletes s) = true ->
  let rel := posixpath.relpath env A (directory s) in
  _handle_delayed_delete env A C s
  = set_recent_deletes (odict.pop A)
      (add_event {| path := rel; prev_exist := true; old_content := C;
                    new_content := ""; content := _generate_diff C "" rel |} s).
Proof. intros Hm. unfold _handle_delayed_delete. rewrite Hm. reflexivity. Qed.

Lemma delayed_delete_consumed (env : Env) (A C : string) (s : FileWatcher) :
  odict.mem A (recent_deletes s) = false ->
  _handle_delayed_delete env A C s = s.
Proof. intros Hm. unfold _handle_delayed_delete. rewrite Hm. reflexivity. Qed.


Lemma debounced_change_fires (env : Env) (tid : nat) (t : Timer) (p : string)
    (s : FileWatcher) :
  timers s !! tid = Some t ->
  finished t = false ->
  function t = handle_debounced_change p ->
  Timer_run env tid s = cancel_timer tid (_handle_debounced_change env p s).
Proof.
  intros Ht Hf Hfn. unfold Timer_run. rewrite Ht, Hf, Hfn. reflexivity.
Qed.

(** A delete followed by a create of different content in debounced mode,
    under the three orders in which the two timers and the create can come;
    [K] is what the cache holds for [B] once [A] is deleted. *)
Lemma delete_then_different_create_debounced
    (env0 env1 envD envC : Env) (evA evB : FileSystemEvent) (C C' : string)
    (self : FileWatcher) :
  let A := src_path evA in
  let B := src_path evB in
  use_debouncing self = true ->
  timer_refs_valid self ->
  is_directory evA = false -> is_directory evB = false ->
  swap_or_backup A = false -> swap_or_backup B = false ->
  filtered_out self env0 A = false ->
  filtered_out self env1 B = false ->
  filtered_out self envC B = false ->
  file_contents self !! A = Some C ->
  read_text env1 B = Some C' ->
  read_text envC B = Some C' ->
  C' <> C ->
  no_match C' (time env1) (rename_window self) (recent_deletes self) ->
  let sD := on_deleted env0 evA self in
  let tidD := length (timers self) in
  let tidC := S (length (timers self)) in
  let relA := posixpath.relpath envD A (directory self) in
  let relB := posixpath.relpath envC B (directory self) in
  let K := default "" (delete A (file_contents self) !! B) in
  let obsD := ({| path := relA; prev_exist := true; old_content := C;
                  new_content := ""; content := _generate_diff C "" relA |}, USER) in
  let obsC := ({| path := relB; prev_exist := true; old_content := K;
                  new_content := C'; content := _generate_diff K C' relB |}, USER) in
  let commit := if String.eqb K C' then [] else [obsC] in
  event_stream (Timer_run envC tidC (on_created env1 evB (Timer_run envD tidD sD)))
  = event_stream self ++ [obsD] ++ commit
  /\ event_stream (Timer_run envC tidC (Timer_run envD tidD (on_created env1 evB sD)))
     = event_stream self ++ [obsD] ++ commit
  /\ event_stream (Timer_run envD tidD (Timer_run envC tidC (on_created env1 evB sD)))
     = event_stream self ++ commit ++ [obsD].
Proof.
  intros A B Hdeb Hwf HdA HdB HsA HsB HfA HfB HfC HC Hread1 HreadC Hne Hnm
    sD tidD tidC relA relB K obsD obsC commit.
  pose proof (on_deleted_debounced env0 evA self HdA HsA HfA Hdeb)
    as (Hc1 & He1 & Hfc1 & Hrd1 & Ht1 & Hdeb1 & Hw1 & Hdd1 & Hoa1 & Hdt1).
  fold A in Hc1, He1, Hfc1, Hrd1, Ht1, Hdt1.
  fold sD in Hc1, He1, Hfc1, Hrd1, Ht1, Hdeb1, Hw1, Hdt1.
  rewrite HC in Hrd1, Ht1. change (default "" (Some C)) with C in Hrd1, Ht1.
  assert (Hlen : length (timers (cancel_pending A self)) = tidD)
    by apply cancel_pending_tables.
  assert (HlenD : length (timers sD) = tidC).
  { rewrite Ht1, length_app, Hlen. cbn. unfold tidC, tidD. lia. }
  assert (HlookD : timers sD !! tidD
                   = Some {| interval := rename_window self; started := time env0;
                             function := handle_delayed_delete A C; finished := false |}).
  { rewrite Ht1. apply lookup_appended. symmetry. exact Hlen. }
  assert (Hread1' : _read_file_content env1 B = C')
    by (unfold _read_file_content; rewrite Hread1; reflexivity).
  assert (HreadC' : _read_file_content envC B = C')
    by (unfold _read_file_content; rewrite HreadC; reflexivity).
  assert (HcacheB : default "" (file_contents sD !! B) = K)
    by (rewrite Hfc1; reflexivity).
  assert (HdirD : directory sD = directory self) by apply Hc1.
  assert (HrefB : forall tid, debounce_timers sD !! B = Some tid -> tid <> tidD).
  { intros tid Hq. rewrite Hdt1 in Hq. apply cancel_pending_refs in Hq.
    apply Hwf in Hq. unfold tidD. lia. }
  (* the create after the delete, before the finalization *)
  assert (HsY : on_created env1 evB sD = _schedule_debounced_change env1 B sD).
  { apply on_created_scheduled; try assumption.
    - rewrite (filtered_out_same_config self); assumption.
    - fold B. rewrite Hread1', Hrd1, Hw1. apply rename_scan_none.
      apply no_match_set; assumption. }
  pose proof (schedule_tables env1 B sD) as (HeY & HfcY & HrdY & HpcY & HdtY & HrestY).
  pose proof (schedule_timers env1 B sD) as HtY.
  pose proof (schedule_config env1 B sD) as HcY.
  rewrite <- HsY in HeY, HfcY, HrdY, HpcY, HdtY, HtY, HcY.
  set (sY := on_created env1 evB sD) in *.
  assert (HlookYD : timers sY !! tidD
                    = Some {| interval := rename_window self; started := time env0;
                              function := handle_delayed_delete A C; finished := false |}).
  { rewrite HtY. rewrite lookup_before_appended.
    - destruct (debounce_timers sD !! B) as [tid |] eqn:E; [| exact HlookD].
      rewrite list_lookup_alter_ne; [exact HlookD | apply HrefB; reflexivity].
    - destruct (debounce_timers sD !! B); rewrite ?length_alter, HlenD; unfold tidC, tidD; lia. }
  assert (HlookYC : timers sY !! tidC
                    = Some {| interval := debounce_delay sD; started := time env1;
                              function := handle_debounced_change B; finished := false |}).
  { rewrite HtY. apply lookup_appended.
    destruct (debounce_timers sD !! B); rewrite ?length_alter, HlenD; reflexivity. }
  assert (HmemD : odict.mem A (recent_deletes sD) = true)
    by (rewrite Hrd1; apply odict_mem_set).
  split; [| split].
  - (* finalization, create, commit *)
    rewrite (delayed_delete_fires envD tidD _ A C sD HlookD eq_refl eq_refl).
    rewrite (delayed_delete_emits envD A C sD HmemD). rewrite HdirD. fold relA.
    set (sX := cancel_timer tidD _).
    assert (HcX : same_config self sX).
    { destruct Hc1 as (? & ? & ? & ?). repeat split; assumption. }
    assert (HsX : on_created env1 evB sX = _schedule_debounced_change env1 B sX).
    { apply on_created_scheduled; try assumption.
      - rewrite (filtered_out_same_config self); assumption.
      - fold B. rewrite Hread1'. apply rename_scan_none.
        change (recent_deletes sX) with (odict.pop A (recent_deletes sD)).
        change (rename_window sX) with (rename_window sD).
        rewrite Hrd1, Hw1, odict_pop_set. apply no_match_pop. exact Hnm. }
    rewrite HsX.
    assert (HlenX : length (timers sX) = tidC).
    { unfold sX, cancel_timer. cbn. rewrite length_alter. exact HlenD. }
    pose proof (schedule_then_fire env1 envC B sX
                  ltac:(rewrite (filtered_out_same_config self); assumption) HsB)
      as (Hev & _).
    cbn zeta in Hev. rewrite HlenX in Hev. rewrite Hev.
    change (file_contents sX) with (file_contents sD).
    change (event_stream sX) with (event_stream sD ++ [obsD]).
    change (directory sX) with (directory sD).
    rewrite HcacheB, HreadC', He1, HdirD. fold relB. rewrite <- app_assoc. reflexivity.
  - (* create, finalization, commit *)
    rewrite (delayed_delete_fires envD tidD _ A C sY HlookYD eq_refl eq_refl).
    rewrite (delayed_delete_emits envD A C sY ltac:(rewrite HrdY; exact HmemD)).
    assert (HdirY : directory sY = directory self).
    { destruct HcY as (Hd & _). rewrite Hd. exact HdirD. }
    rewrite HdirY. fold relA.
    set (sY2 := cancel_timer tidD _).
    assert (HlookC2 : timers sY2 !! tidC
                      = Some {| interval := debounce_delay sD; started := time env1;
                                function := handle_debounced_change B; finished := false |}).
    { unfold sY2, cancel_timer. cbn. rewrite list_lookup_alter_ne; [exact HlookYC |].
      unfold tidC, tidD. lia. }
    rewrite (debounced_change_fires envC tidC _ B sY2 HlookC2 eq_refl eq_refl).
    change (event_stream (cancel_timer ?t ?x)) with (event_stream x).
    assert (HcY2 : same_config self sY2).
    { eapply same_config_trans; [exact Hc1 |].
      destruct HcY as (? & ? & ? & ?). repeat split; assumption. }
    assert (Hin : B ∈ pending_changes sY2).
    { change (pending_changes sY2) with (pending_changes sY). rewrite HpcY.
      apply elem_of_union; right; apply elem_of_singleton; reflexivity. }
    pose proof (debounced_commit envC B sY2 Hin
                  ltac:(rewrite (filtered_out_same_config self); assumption) HsB)
      as (Hev & _).
    cbn zeta in Hev. rewrite Hev.
    change (file_contents sY2) with (file_contents sY).
    change (event_stream sY2) with (event_stream sY ++ [obsD]).
    change (directory sY2) with (directory sY).
    rewrite HfcY, HcacheB, HreadC', HeY, He1, HdirY. fold relB.
    rewrite <- app_assoc. reflexivity.
  - (* create, commit, finalization *)
    pose proof (schedule_then_fire env1 envC B sD
                  ltac:(rewrite (filtered_out_same_config self); assumption) HsB)
      as (Hev & Hfc & Hrd & Hcfg & Hl & Hts).
    cbn zeta in Hev, Hfc, Hrd, Hcfg, Hl, Hts.
    rewrite HlenD in Hev, Hfc, Hrd, Hcfg, Hl, Hts.
    rewrite <- HsY in Hev, Hfc, Hrd, Hcfg, Hl, Hts.
    set (sZ := Timer_run envC tidC sY) in *.
    assert (HlookZ : timers sZ !! tidD
                     = Some {| interval := rename_window self; started := time env0;
                               function := handle_delayed_delete A C; finished := false |}).
    { rewrite Hts. rewrite list_lookup_alter_ne; [exact HlookYD |]. unfold tidC, tidD. lia. }
    rewrite (delayed_delete_fires envD tidD _ A C sZ HlookZ eq_refl eq_refl).
    rewrite (delayed_delete_emits envD A C sZ ltac:(rewrite Hrd; exact HmemD)).
    cbn. rewrite Hev.
    assert (HdirZ : directory sZ = directory self).
    { destruct Hcfg as (Hd & _). rewrite Hd. exact HdirD. }
    rewrite HdirZ, HcacheB, HreadC', He1, HdirD. fold relB.
    rewrite <- app_assoc. reflexivity.
Qed.

(** The same two events in immediate mode: both observations are emitted by
    the handlers themselves, the creation with [prev_exist = false]. *)
Lemma delete_then_different_create_immediate
    (env0 env1 : Env) (evA evB : FileSystemEvent) (C C' : string) (self : FileWatcher) :
  let A := src_path evA in
  let B := src_path evB in
  use_debouncing self = false ->
  is_directory evA = false -> is_directory evB = false ->
  swap_or_backup A = false -> swap_or_backup B = false ->
  filtered_out self env0 A = false ->
  filtered_out self env1 B = false ->
  file_contents self !! A = Some C ->
  read_text env1 B = Some C' ->
  no_match C' (time env1) (rename_window self) (recent_deletes self) ->
  let relA := posixpath.relpath env0 A (directory self) in
  let relB := posixpath.relpath env1 B (directory self) in
  event_stream (on_created env1 evB (on_deleted env0 evA self))
  = event_stream self ++
    [({| path := relA; prev_exist := true; old_content := C;
         new_content := ""; content := _generate_diff C "" relA |}, USER);
     ({| path := relB; prev_exist := false; old_content := "";
         new_content := C'; content := _generate_diff "" C' relB |}, USER)].
Proof.
  intros A B Hdeb HdA HdB HsA HsB HfA HfB HC Hread Hnm relA relB.
  assert (Hread' : _read_file_content env1 B = C')
    by (unfold _read_file_content; rewrite Hread; reflexivity).
  pose proof (cancel_pending_config A self) as Hc.
  pose proof (cancel_pending_tables A self) as (He & Hfc & Hrd & Hlen & Hu & Hw & Hdd & Hoa).
  unfold on_deleted. rewrite HdA. fold A. rewrite HsA.
  rewrite (filtered_out_same_config self) by exact Hc. rewrite HfA.
  cbn [use_debouncing set_file_contents]. rewrite Hu, Hdeb.
  set (sD := add_event _ _).
  assert (HcD : same_config self sD).
  { destruct Hc as (? & ? & ? & ?). repeat split; assumption. }
  unfold on_created. rewrite HdB. fold B. rewrite HsB.
  rewrite (filtered_out_same_config self) by exact HcD. rewrite HfB, Hread'.
  change (recent_deletes sD) with (recent_deletes (cancel_pending A self)).
  change (rename_window sD) with (rename_window (cancel_pending A self)).
  rewrite Hrd, Hw, (rename_scan_none _ _ _ _ Hnm).
  change (use_debouncing sD) with (use_debouncing (cancel_pending A self)).
  rewrite Hu, Hdeb. cbn. rewrite He, Hfc, HC.
  destruct Hc as (-> & _). rewrite <- app_assoc. reflexivity.
Qed.

(** C6 (amended).  Let a delete event for [A], cached with content [C], be
    followed by a create event for [B] whose content on disk is [C'], with
    [C'] different from [C], both paths passing the filters and no entry of
    [recent_deletes] that is young enough holding the content [C'].  In
    debounced mode, whether the finalization of the delete wakes up before
    the create, between the create and its commit, or after the commit, the
    deletion of [A] ([C] to empty) is emitted, and the commit of [B] emits
    one observation with [prev_exist = true] for the change from [K] to
    [C'], where [K] is the content the cache holds for [B] once [A] is
    deleted (empty when [B] is not cached or [B = A]), unless [K] and [C']
    are equal: then nothing is emitted for [B].  So there are exactly two
    observations, the deletion of [A] and the change of [B] from empty to
    [C'], when [B] is not cached and [C'] is not empty; only the deletion
    when [B] is not cached and [C'] is empty; and the deletion and the
    change from [K] to [C'] when [B] is cached with another content.  In
    immediate mode the two handlers emit the deletion of [A] and the
    creation of [B] (empty to [C'], [prev_exist = false]) themselves. *)
Theorem delete_then_different_create
    (env0 env1 envD envC : Env) (evA evB : FileSystemEvent) (C C' : string)
    (self : FileWatcher) :
  let A := src_path evA in
  let B := src_path evB in
  is_directory evA = false -> is_directory evB = false ->
  swap_or_backup A = false -> swap_or_backup B = false ->
  filtered_out self env0 A = false ->
  filtered_out self env1 B = false ->
  file_contents self !! A = Some C ->
  read_text env1 B = Some C' ->
  C' <> C ->
  no_match C' (time env1) (rename_window self) (recent_deletes self) ->
  (use_debouncing self = true ->
   timer_refs_valid self ->
   filtered_out self envC B = false ->
   read_text envC B = Some C' ->
   let sD := on_deleted env0 evA self in
   let tidD := length (timers self) in
   let tidC := S (length (timers self)) in
   let relA := posixpath.relpath envD A (directory self) in
   let relB := posixpath.relpath envC B (directory self) in
   let K := default "" (delete A (file_contents self) !! B) in
   let obsD := ({| path := relA; prev_exist := true; old_content := C;
                   new_content := ""; content := _generate_diff C "" relA |}, USER) in
   let obsC := ({| path := relB; prev_exist := true; old_content := K;
                   new_content := C'; content := _generate_diff K C' relB |}, USER) in
   let commit := if String.eqb K C' then [] else [obsC] in
   (event_stream (Timer_run envC tidC (on_created env1 evB (Timer_run envD tidD sD)))
    = event_stream self ++ [obsD] ++ commit
    /\ event_stream (Timer_run envC tidC (Timer_run envD tidD (on_created env1 evB sD)))
       = event_stream self ++ [obsD] ++ commit
    /\ event_stream (Timer_run envD tidD (Timer_run envC tidC (on_created env1 evB sD)))
       = event_stream self ++ commit ++ [obsD])
   /\ (K = "" -> C' <> "" ->
       commit = [({| path := relB; prev_exist := true; old_content := "";
                     new_content := C'; content := _generate_diff "" C' relB |}, USER)])
   /\ (K = "" -> C' = "" -> commit = [])
   /\ (B = A \/ file_contents self !! B = None -> K = ""))
  /\ (use_debouncing self = false ->
      let relA := posixpath.relpath env0 A (directory self) in
      let relB := posixpath.relpath env1 B (directory self) in
      event_stream (on_created env1 evB (on_deleted env0 evA self))
      = event_stream self ++
        [({| path := relA; prev_exist := true; old_content := C;
             new_content := ""; content := _generate_diff C "" relA |}, USER);
         ({| path := relB; prev_exist := false; old_content := "";
             new_content := C'; content := _generate_diff "" C' relB |}, USER)]).
Proof.
  intros A B HdA HdB HsA HsB HfA HfB HC Hread Hne Hnm. split.
  - intros Hdeb Hwf HfC HreadC sD tidD tidC relA relB K obsD obsC commit.
    split; [| split; [| split]].
    + apply (delete_then_different_create_debounced env0 env1 envD envC evA evB C C' self);
        assumption.
    + intros HK Hnonempty. unfold commit, obsC. rewrite HK.
      destruct (String.eqb_spec "" C'); [congruence | reflexivity].
    + intros HK ->. unfold commit. rewrite HK. reflexivity.
    + unfold K. intros [-> | HB]; [rewrite lookup_delete_eq; reflexivity |].
      destruct (decide (A = B)) as [<- | Hn]; [rewrite lookup_delete_eq; reflexivity |].
      rewrite lookup_delete_ne, HB by exact Hn. reflexivity.
  - intros Hdeb.
    apply (delete_then_different_create_immediate env0 env1 evA evB C C' self);
      assumption.
Qed.

End Scenarios.



(** C6 (counterexample).  [/repo/a.txt], cached with content [x], is deleted
    and the empty file [/repo/b.txt] is created, outside the rename window.
    When both timers have run, the deletion of [a.txt] is the only
    observation: the debounced commit of [b.txt] finds old and new content
    both empty and emits nothing. *)
Lemma delete_then_empty_create_emits_once :
  let s := run [(env_at 0 [], Deleted (file_event "/repo/a.txt"));
                (env_at 100 [], TimerFires 0);
                (env_at 200 [("/repo/b.txt", "")], Created (file_event "/repo/b.txt"));
                (env_at 300 [("/repo/b.txt", "")], TimerFires 1)]
             (repo_watcher [("/repo/a.txt", "x")]) in
  map finished (timers s) = [true; true]
  /\ event_stream s
     = [({| path := "a.txt"; prev_exist := true; old_content := "x";
            new_content := ""; content := "-x" |}, USER)].
Proof. vm_compute. split; reflexivity. Qed.

Lemma delete_then_different_create_witness :
  let env0 := env_at 0 [] in
  let env1 := env_at 30 [("/repo/b.txt", "y")] in
  let envD := env_at 100 [("/repo/b.txt", "y")] in
  let envC := env_at 130 [("/repo/b.txt", "y")] in
  let evA := file_event "/repo/a.txt" in
  let evB := file_event "/repo/b.txt" in
  let self := repo_watcher [("/repo/a.txt", "x")] in
  let sD := on_deleted env0 evA self in
  let obsD := ({| path := "a.txt"; prev_exist := true; old_content := "x";
                  new_content := ""; content := "-x" |}, USER) in
  let obsC := ({| path := "b.txt"; prev_exist := true; old_content := "";
                  new_content := "y"; content := "+y" |}, USER) in
  event_stream (Timer_run envC 1 (on_created env1 evB (Timer_run envD 0 sD))) = [obsD; obsC]
  /\ event_stream (Timer_run envC 1 (Timer_run envD 0 (on_created env1 evB sD))) = [obsD; obsC]
  /\ event_stream (Timer_run envD 0 (Timer_run envC 1 (on_created env1 evB sD))) = [obsC; obsD].
Proof.
  intros env0 env1 envD envC evA evB self.
  assert (Hf0 : filtered_out self env0 (src_path evA) = false) by (vm_compute; reflexivity).
  assert (Hf1 : filtered_out self env1 (src_path evB) = false) by (vm_compute; reflexivity).
  assert (HfC : filtered_out self envC (src_path evB) = false) by (vm_compute; reflexivity).
  assert (HC : file_contents self !! src_path evA = Some "x") by (vm_compute; reflexivity).
  assert (Hne : "y" <> "x") by discriminate.
  assert (Hnm : no_match "y" (time env1) (rename_window self) (recent_deletes self))
    by constructor.
  assert (Hwf : timer_refs_valid self).
  { intros q tid Hq. change (debounce_timers self) with (∅ : gmap string nat) in Hq.
    rewrite lookup_empty in Hq. discriminate Hq. }
  exact (proj1 (proj1 (delete_then_different_create env0 env1 envD envC evA evB "x" "y" self
                         eq_refl eq_refl eq_refl eq_refl Hf0 Hf1 HC eq_refl Hne Hnm)
                  eq_refl Hwf HfC eq_refl)).
Defined.

(** The same two events when [/repo/b.txt] is in the cache with content [k]
    and is created empty: the commit reports the change from [k] to the
    empty content. *)
Example delete_then_create_of_a_cached_file :
  let s := run [(env_at 0 [], Deleted (file_event "/repo/a.txt"));
                (env_at 30 [("/repo/b.txt", "")], Created (file_event "/repo/b.txt"));
                (env_at 100 [("/repo/b.txt", "")], TimerFires 0);
                (env_at 130 [("/repo/b.txt", "")], TimerFires 1)]
             (repo_watcher [("/repo/a.txt", "x"); ("/repo/b.txt", "k")]) in
  event_stream s
  = [({| path := "a.txt"; prev_exist := true; old_content := "x";
         new_content := ""; content := "-x" |}, USER);
     ({| path := "b.txt"; prev_exist := true; old_content := "k";
         new_content := ""; content := "-k" |}, USER)].
Proof. vm_compute. reflexivity. Qed.

(** ** The references to timers stay valid *)

Section TimerRefs.

Context `{!PathMatcher}.

Lemma refs_grow_valid (s s' : FileWatcher) :
  timer_refs_valid s -> refs_grow s s' -> timer_refs_valid s'.
Proof.
  intros Hv [Hlen Hrefs] q tid Hq. destruct (Hrefs q tid Hq) as [Hold | Hnew]; [| exact Hnew].
  apply Hv in Hold. lia.
Qed.

Lemma refs_grow_refl (s : FileWatcher) : refs_grow s s.
Proof. split; [lia | auto]. Qed.

Lemma refs_grow_trans (s1 s2 s3 : FileWatcher) :
  refs_grow s1 s2 -> refs_grow s2 s3 -> refs_grow s1 s3.
Proof.
  intros [L1 R1] [L2 R2]. split; [lia |]. intros q tid Hq.
  destruct (R2 q tid Hq) as [H2 | H2]; [| right; exact H2].
  destruct (R1 q tid H2) as [H1 | H1]; [left; exact H1 | right; lia].
Qed.

(** Changes that keep the timers in place and drop references at most. *)
Lemma refs_grow_same (s s' : FileWatcher) :
  length (timers s') = length (timers s) ->
  (forall q tid, debounce_timers s' !! q = Some tid -> debounce_timers s !! q = Some tid) ->
  refs_grow s s'.
Proof. intros Hlen Hrefs. split; [lia |]. intros q tid Hq. left. auto. Qed.

Lemma refs_grow_cancel_pending (p : string) (s : FileWatcher) :
  refs_grow s (cancel_pending p s).
Proof.
  apply refs_grow_same; [apply cancel_pending_tables |].
  intros q tid. apply cancel_pending_refs.
Qed.

Lemma refs_grow_schedule (env : Env) (p : string) (s : FileWatcher) :
  refs_grow s (_schedule_debounced_change env p s).
Proof.
  pose proof (schedule_tables env p s) as (_ & _ & _ & _ & Hdt & _).
  pose proof (schedule_timers env p s) as Ht.
  assert (Hlen : length (timers (_schedule_debounced_change env p s)) = S (length (timers s))).
  { rewrite Ht, length_app. cbn.
    destruct (debounce_timers s !! p); rewrite ?length_alter; lia. }
  split; [lia |]. intros q tid Hq. rewrite Hdt in Hq.
  destruct (decide (p = q)) as [<- | Hne].
  - rewrite lookup_insert_eq in Hq. injection Hq as <-. right. lia.
  - rewrite lookup_insert_ne in Hq by exact Hne. left. exact Hq.
Qed.

Lemma refs_grow_debounced_change (env : Env) (p : string) (s : FileWatcher) :
  refs_grow s (_handle_debounced_change env p s).
Proof.
  assert (Hdel : forall q tid, delete p (debounce_timers s) !! q = Some tid ->
                   debounce_timers s !! q = Some tid).
  { intros q tid Hq. apply lookup_delete_Some in Hq as [_ Hq]. exact Hq. }
  unfold _handle_debounced_change.
  destruct (bool_decide (p ∈ pending_changes s)); [| apply refs_grow_refl].
  match goal with |- context [filtered_out ?x env p] => destruct (filtered_out x env p) end;
    [apply refs_grow_same; [reflexivity | exact Hdel] |].
  destruct (swap_or_backup p); [apply refs_grow_same; [reflexivity | exact Hdel] |].
  match goal with |- context [negb ?c] => destruct (negb c) end;
    apply refs_grow_same; try reflexivity; exact Hdel.
Qed.

Lemma refs_grow_on_created (env : Env) (ev : FileSystemEvent) (s : FileWatcher) :
  refs_grow s (on_created env ev s).
Proof.
  unfold on_created.
  destruct (is_directory ev); [apply refs_grow_refl |].
  destruct (swap_or_backup (src_path ev)); [apply refs_grow_refl |].
  destruct (filtered_out s env (src_path ev)); [apply refs_grow_refl |].
  destruct (rename_scan _ _ _ _); [apply refs_grow_same; auto |].
  destruct (use_debouncing s); [apply refs_grow_schedule | apply refs_grow_same; auto].
Qed.

Lemma refs_grow_on_modified (env : Env) (ev : FileSystemEvent) (s : FileWatcher) :
  refs_grow s (on_modified env ev s).
Proof.
  unfold on_modified.
  destruct (is_directory ev); [apply refs_grow_refl |].
  destruct (swap_or_backup (src_path ev)); [apply refs_grow_refl |].
  destruct (filtered_out s env (src_path ev)); [apply refs_grow_refl |].
  destruct (use_debouncing s); [apply refs_grow_schedule |].
  destruct (negb _); [apply refs_grow_same; auto | apply refs_grow_refl].
Qed.

Lemma refs_grow_on_deleted (env : Env) (ev : FileSystemEvent) (s : FileWatcher) :
  refs_grow s (on_deleted env ev s).
Proof.
  unfold on_deleted.
  destruct (is_directory ev); [apply refs_grow_refl |].
  destruct (swap_or_backup (src_path ev)); [apply refs_grow_refl |].
  eapply refs_grow_trans; [apply (refs_grow_cancel_pending (src_path ev)) |].
  set (s1 := cancel_pending (src_path ev) s).
  destruct (filtered_out s1 env (src_path ev)); [apply refs_grow_refl |].
  cbn [use_debouncing set_file_contents].
  destruct (use_debouncing s1).
  - split; [cbn; rewrite length_app; cbn; lia |]. intros q tid Hq. left. exact Hq.
  - apply refs_grow_same; auto.
Qed.

Lemma refs_grow_on_moved (env : Env) (ev : FileSystemEvent) (s : FileWatcher) :
  refs_grow s (on_moved env ev s).
Proof.
  unfold on_moved.
  destruct (is_directory ev); [apply refs_grow_refl |].
  eapply refs_grow_trans; [apply (refs_grow_cancel_pending (src_path ev)) |].
  set (s1 := cancel_pending (src_path ev) s).
  destruct (_ || _); [apply refs_grow_refl |].
  destruct (filtered_out s1 env (src_path ev)); [apply refs_grow_refl |].
  match goal with |- context [negb ?c && ?d] => destruct (negb c && d) end;
    apply refs_grow_same; auto.
Qed.

Lemma refs_grow_Timer_run (env : Env) (tid : nat) (s : FileWatcher) :
  refs_grow s (Timer_run env tid s).
Proof.
  unfold Timer_run. destruct (timers s !! tid) as [t |]; [| apply refs_grow_refl].
  destruct (finished t); [apply refs_grow_refl |].
  eapply refs_grow_trans;
    [| apply refs_grow_same; [unfold cancel_timer; cbn; apply length_alter | auto]].
  destruct (function t) as [p | p old]; cbn [run_callback].
  - apply refs_grow_debounced_change.
  - unfold _handle_delayed_delete.
    destruct (odict.mem p (recent_deletes s)); [apply refs_grow_same; auto | apply refs_grow_refl].
Qed.

Lemma refs_grow_stop (s : FileWatcher) : refs_grow s (stop s).
Proof.
  unfold stop. apply refs_grow_same.
  - cbn. rewrite timers_fold_cancel.
    induction (map snd (map_to_list (debounce_timers s))) as [| x l IH]; [reflexivity |].
    cbn. rewrite length_alter. exact IH.
  - cbn. induction (map snd (map_to_list (debounce_timers s))) as [| x l IH]; auto.
Qed.

(** A watcher as [__init__] leaves it has no reference at all, and every
    action keeps the references valid. *)
Lemma timer_refs_valid_init env dir rec pats ignore gitignore seed :
  timer_refs_valid (FileWatcher_init env dir rec pats ignore gitignore seed).
Proof. intros q tid Hq. cbn in Hq. rewrite lookup_empty in Hq. discriminate Hq. Qed.

Lemma timer_refs_valid_step (env : Env) (act : Action) (s : FileWatcher) :
  timer_refs_valid s -> timer_refs_valid (step env act s).
Proof.
  intros Hv. apply (refs_grow_valid s); [exact Hv |].
  destruct act; cbn [step].
  - destruct (observer_alive s); [apply refs_grow_on_created | apply refs_grow_refl].
  - destruct (observer_alive s); [apply refs_grow_on_modified | apply refs_grow_refl].
  - destruct (observer_alive s); [apply refs_grow_on_deleted | apply refs_grow_refl].
  - destruct (observer_alive s); [apply refs_grow_on_moved | apply refs_grow_refl].
  - apply refs_grow_Timer_run.
  - apply refs_grow_stop.
Qed.

(** After [stop()] the observer delivers no raw event. *)
Lemma no_delivery_after_stop (env : Env) (ev : FileSystemEvent) (s : FileWatcher) :
  step env (Created ev) (stop s) = stop s
  /\ step env (Modified ev) (stop s) = stop s
  /\ step env (Deleted ev) (stop s) = stop s
  /\ step env (Moved ev) (stop s) = stop s.
Proof. repeat split. Qed.

End TimerRefs.

(** ** Debouncing *)

Section Debounce.

Context `{!PathMatcher}.

Arguments _generate_diff : simpl never.
Arguments posixpath.relpath : simpl never.
Arguments String.eqb : simpl never.

Variable self : FileWatcher.
Variable p : string.

Hypothesis p_not_swap : swap_or_backup p = false.

Local Abbreviation quiet := (quiet self).
Local Abbreviation armed := (armed self p).
Local Abbreviation burst_inv := (burst_inv self p).

Lemma run_app (sched1 sched2 : list (Env * Action)) (s : FileWatcher) :
  run (sched1 ++ sched2) s = run sched2 (run sched1 s).
Proof.
  revert s. induction sched1 as [| [env act] sched1 IH]; intros s; cbn; [reflexivity |].
  apply IH.
Qed.

Lemma timely_times (t0 : Z) (sched : list (Env * Action)) (s : FileWatcher) :
  timely t0 sched s -> Forall (fun ea => (t0 <= time (fst ea))%Z) sched.
Proof.
  revert t0 s. induction sched as [| [env act] sched IH]; intros t0 s Ht; [constructor |].
  cbn in Ht. destruct Ht as (Hle & _ & Hrest). constructor; [exact Hle |].
  eapply Forall_impl; [apply (IH _ _ Hrest) |]. cbn. intros ea Hea. lia.
Qed.

(** In a burst that still has a modify event to come, time has not reached
    the deadline of the timer started at [tl]. *)
Lemma next_modified_soon (pre : list (Env * Action)) (eN : Env) (evN : FileSystemEvent)
    (t tl delay : Z) :
  burst p delay (Some tl) (pre ++ [(eN, Modified evN)]) ->
  Forall (fun ea => (t <= time (fst ea))%Z) (pre ++ [(eN, Modified evN)]) ->
  (t < tl + delay)%Z.
Proof.
  revert t tl. induction pre as [| [env act] pre IH]; intros t tl Hb Ht.
  - cbn in Hb. destruct Hb as (_ & _ & Hlt & _).
    apply Forall_cons in Ht as [Hle _]. cbn in Hle. lia.
  - cbn in Hb. apply Forall_cons in Ht as [Hle Ht']. cbn in Hle.
    destruct act; try contradiction.
    + destruct Hb as (_ & _ & Hlt & _). lia.
    + eapply IH; eassumption.
Qed.

Lemma finished_timer_noop (env : Env) (tid : nat) (s : FileWatcher) :
  (forall t, timers s !! tid = Some t -> finished t = true) ->
  Timer_run env tid s = s.
Proof.
  intros Hf. unfold Timer_run. destruct (timers s !! tid) as [t |] eqn:E; [| reflexivity].
  rewrite (Hf t eq_refl). reflexivity.
Qed.

(** A modify event for [p] arms a new timer and leaves no other one
    outstanding. *)
Lemma modified_arms (last : option Z) (env : Env) (ev : FileSystemEvent) (s : FileWatcher) :
  burst_inv last s ->
  src_path ev = p -> is_directory ev = false ->
  filtered_out self env p = false ->
  burst_inv (Some (time env)) (step env (Modified ev) s).
Proof.
  intros [Hq Hl] Hp Hd Hf.
  destruct Hq as (Hc & He & Hfc & Hdeb & Hal & Hdd).
  cbn [step]. rewrite Hal.
  rewrite on_modified_scheduled; try assumption; rewrite ?Hp; try assumption;
    [| rewrite (filtered_out_same_config self); assumption].
  pose proof (schedule_tables env p s) as (He' & Hfc' & Hrd' & Hpc' & Hdt' & Hdeb' & Hdd' & Hw' & Hal').
  pose proof (schedule_timers env p s) as Ht'.
  pose proof (schedule_config env p s) as Hc'.
  set (s' := _schedule_debounced_change env p s) in *.
  split.
  - repeat split; try congruence; destruct Hc as (? & ? & ? & ?), Hc' as (? & ? & ? & ?);
      congruence.
  - exists (length (timers s)). split; [rewrite Hdt'; apply lookup_insert_eq |].
    split; [rewrite Hpc'; apply elem_of_union; right; apply elem_of_singleton; reflexivity |].
    split.
    + rewrite Ht', Hdd. apply lookup_appended.
      destruct (debounce_timers s !! p); rewrite ?length_alter; reflexivity.
    + intros tid' t' Hne Hlook. rewrite Ht' in Hlook.
      assert (Hlt : (tid' < length (timers s))%nat).
      { apply lookup_lt_Some in Hlook. rewrite length_app in Hlook. cbn in Hlook.
        destruct (debounce_timers s !! p); rewrite ?length_alter in Hlook; lia. }
      rewrite lookup_app_l in Hlook
        by (destruct (debounce_timers s !! p); rewrite ?length_alter; exact Hlt).
      destruct last as [tl |].
      * destruct Hl as (tid & Hdt & _ & Htid & Hoth). rewrite Hdt in Hlook.
        destruct (decide (tid = tid')) as [-> | Hn].
        -- rewrite list_lookup_alter_eq, Htid in Hlook. injection Hlook as <-. reflexivity.
        -- rewrite list_lookup_alter_ne in Hlook by exact Hn.
           eapply Hoth; [| exact Hlook]. congruence.
      * unfold all_finished in Hl. rewrite List.Forall_forall in Hl.
        destruct (debounce_timers s !! p) as [tid |].
        -- destruct (decide (tid = tid')) as [-> | Hn].
           ++ rewrite list_lookup_alter_eq in Hlook.
              destruct (timers s !! tid') as [t0 |]; [| discriminate].
              injection Hlook as <-. reflexivity.
           ++ rewrite list_lookup_alter_ne in Hlook by exact Hn.
              apply Hl. apply list_elem_of_In. eapply list_elem_of_lookup_2. exact Hlook.
        -- apply Hl. apply list_elem_of_In. eapply list_elem_of_lookup_2. exact Hlook.
Qed.

(** While the burst lasts, a timer that wakes up is one that was cancelled
    or has run: the step changes nothing. *)
Lemma fire_during_burst (last : option Z) (env : Env) (tid' : nat) (s : FileWatcher) :
  burst_inv last s ->
  enabled env (TimerFires tid') s ->
  match last with
  | Some tl => (time env < tl + debounce_delay self)%Z
  | None => True
  end ->
  step env (TimerFires tid') s = s.
Proof.
  intros [Hq Hl] (t' & Hlook & Hdead) Hsoon. cbn [step].
  apply finished_timer_noop. intros t Ht. rewrite Hlook in Ht. injection Ht as <-.
  destruct last as [tl |].
  - destruct Hl as (tid & _ & _ & Htid & Hoth).
    destruct (decide (tid' = tid)) as [-> | Hn]; [| eapply Hoth; eassumption].
    rewrite Htid in Hlook. injection Hlook as <-. cbn in Hdead. lia.
  - unfold all_finished in Hl. rewrite List.Forall_forall in Hl.
    apply Hl. apply list_elem_of_In. eapply list_elem_of_lookup_2. exact Hlook.
Qed.

(** The burst up to its last modify event keeps the invariant. *)
Lemma burst_keeps_inv (pre : list (Env * Action)) (eN : Env) (evN : FileSystemEvent)
    (tail : list (Env * Action)) :
  forall (last : option Z) (t0 : Z) (s : FileWatcher),
    burst_inv last s ->
    burst p (debounce_delay self) last (pre ++ [(eN, Modified evN)]) ->
    Forall (fun ea => filtered_out self (fst ea) p = false) (pre ++ [(eN, Modified evN)]) ->
    timely t0 (pre ++ (eN, Modified evN) :: tail) s ->
    burst_inv (Some (time eN)) (run (pre ++ [(eN, Modified evN)]) s).
Proof.
  induction pre as [| [env act] pre IH]; intros last t0 s Hinv Hb Hf Ht.
  - cbn in Hb. destruct Hb as (Hp & Hd & _ & _).
    apply Forall_cons in Hf as [Hf0 _]. cbn in Hf0.
    cbn [app run]. apply (modified_arms last); assumption.
  - cbn [app] in Hb, Hf, Ht. cbn [app run].
    apply Forall_cons in Hf as [Hf0 Hf']. cbn in Hf0.
    cbn [timely] in Ht. destruct Ht as (Hle & Hen & Ht').
    destruct act; cbn [burst] in Hb; try contradiction.
    + destruct Hb as (Hp & Hd & _ & Hb').
      eapply IH; [| exact Hb' | exact Hf' | exact Ht'].
      apply (modified_arms last); assumption.
    + assert (Hstep : step env (TimerFires tid) s = s).
      { apply (fire_during_burst last); [exact Hinv | exact Hen |].
        destruct last as [tl |]; [| exact I].
        eapply next_modified_soon; [exact Hb |].
        apply timely_times in Ht'.
        rewrite Forall_app in Ht'. destruct Ht' as [Hpre Hrest].
        apply Forall_app. split; [exact Hpre |].
        apply Forall_cons in Hrest as [Hhd _]. constructor; [exact Hhd | constructor]. }
      rewrite Hstep in *. eapply IH; eassumption.
Qed.

(** Once no timer is outstanding, timers that wake up change nothing. *)
Lemma fires_after_commit (tail : list (Env * Action)) (s : FileWatcher) :
  all_finished s ->
  Forall (fun ea => is_fire (snd ea)) tail ->
  run tail s = s.
Proof.
  intros Hall. induction 1 as [| [env act] tail Hfire _ IH]; [reflexivity |].
  cbn [run]. destruct act; cbn in Hfire; try contradiction. cbn [step].
  rewrite finished_timer_noop; [exact IH |].
  intros t Hlook. unfold all_finished in Hall. rewrite List.Forall_forall in Hall.
  apply Hall. apply list_elem_of_In. eapply list_elem_of_lookup_2. exact Hlook.
Qed.

(** After the last modify event: the armed timer commits the first time it
    wakes up, with the content on disk at that moment. *)
Lemma armed_commits (new : string) (tail : list (Env * Action)) :
  forall (tl : Z) (s : FileWatcher),
    burst_inv (Some tl) s ->
    Forall (fun ea => is_fire (snd ea) /\ _read_file_content (fst ea) p = new) tail ->
    Forall (fun ea => filtered_out self (fst ea) p = false) tail ->
    all_finished (run tail s) ->
    let old := default "" (file_contents self !! p) in
    exists env, env ∈ map fst tail /\
      let rel := posixpath.relpath env p (directory self) in
      event_stream (run tail s)
      = event_stream self ++
        (if String.eqb old new then []
         else [({| path := rel; prev_exist := true; old_content := old;
                   new_content := new; content := _generate_diff old new rel |}, USER)]).
Proof.
  induction tail as [| [env act] tail IH]; intros tl s Hinv Hfire Hf Hall old.
  - exfalso. destruct Hinv as [_ (tid & _ & _ & Htid & _)]. cbn in Hall.
    unfold all_finished in Hall. rewrite List.Forall_forall in Hall.
    specialize (Hall _ (proj1 (list_elem_of_In _ _) (list_elem_of_lookup_2 _ _ _ Htid))).
    discriminate Hall.
  - apply Forall_cons in Hfire as [[Hact Hread] Hfire'].
    apply Forall_cons in Hf as [Hf0 Hf']. cbn in Hact, Hread, Hf0.
    destruct act; cbn in Hact; try contradiction. clear Hact.
    cbn [run] in *. cbn [step] in *.
    pose proof Hinv as [Hq (tid0 & Hdt & Hin & Htid & Hoth)].
    destruct (decide (tid = tid0)) as [-> | Hn].
    + (* the armed timer wakes up *)
      destruct Hq as (Hc & He & Hfc & Hdeb & Hal & Hdd).
      assert (Hfs : filtered_out s env p = false)
        by (rewrite (filtered_out_same_config self); assumption).
      pose proof (debounced_commit env p s Hin Hfs p_not_swap) as (Hev & _ & Hts & _).
      cbn zeta in Hev.
      assert (Hrun : Timer_run env tid0 s = cancel_timer tid0 (_handle_debounced_change env p s)).
      { eapply debounced_change_fires; [exact Htid | reflexivity | reflexivity]. }
      rewrite Hrun in *.
      set (s' := cancel_timer tid0 (_handle_debounced_change env p s)) in *.
      assert (Hall' : all_finished s').
      { unfold all_finished, s', cancel_timer. cbn. rewrite Hts.
        apply Forall_lookup_2. intros i t Hi.
        destruct (decide (i = tid0)) as [-> | Hni].
        - rewrite list_lookup_alter_eq, Htid in Hi. injection Hi as <-. reflexivity.
        - rewrite list_lookup_alter_ne in Hi by congruence. eapply Hoth; eassumption. }
      rewrite (fires_after_commit tail s' Hall')
        by (eapply Forall_impl; [exact Hfire' | cbn; tauto]).
      exists env. split; [cbn; apply elem_of_cons; left; reflexivity |].
      cbn zeta. change (event_stream s') with (event_stream (_handle_debounced_change env p s)).
      rewrite Hev, He, Hfc, Hread. destruct Hc as (-> & _). reflexivity.
    + (* another timer wakes up: it has run or was cancelled *)
      rewrite finished_timer_noop in Hall |- *
        by (intros t Ht; eapply Hoth; eassumption).
      destruct (IH tl s Hinv Hfire' Hf' Hall) as (env' & Hel & Hres).
      exists env'. split; [cbn; apply elem_of_cons; right; exact Hel | exact Hres].
Qed.


End Debounce.

(** Checks a concrete schedule for timeliness, step by step. *)
Ltac timely_tac :=
  cbn [timely app];
  repeat match goal with
         | |- _ /\ _ => split
         | |- (_ <= _)%Z => cbn; lia
         | |- enabled _ (TimerFires _) _ =>
             eexists; split; [vm_compute; reflexivity | cbn; lia]
         | |- enabled _ _ _ => exact I
         | |- True => exact I
         end.



(** ** The diff generator *)

Section Difflib.

Import difflib.

Variables a b : list string.

Local Abbreviation la := (length a).
Local Abbreviation lb := (length b).

Local Abbreviation same_run := (same_run a b).
Local Abbreviation valid_match := (valid_match a b).
Local Abbreviation row_inv := (row_inv a b).
Local Abbreviation block_ok := (block_ok a b).
Local Abbreviation range_ok := (range_ok a b).
Local Abbreviation loop_inv := (loop_inv a b).
Local Abbreviation chain := (chain a b).
Local Abbreviation code_ok := (code_ok a b).
Local Abbreviation contig := (contig a b).
Local Abbreviation grp := (grp a b).

(** *** [find_longest_match] returns a match inside its ranges *)

(** Brings the two indices of a comparison into a given form. *)
Ltac reindex i j :=
  match goal with
  | |- line_eqb (_ !! ?X) (_ !! ?Y) = true =>
      replace X with i by lia; replace Y with j by lia
  end.

Lemma line_eqb_refl_Some (x : string) : line_eqb (Some x) (Some x) = true.
Proof. apply String.eqb_refl. Qed.

Lemma indices_from_spec (l : list string) (elt : string) (j0 j : nat) :
  In j (indices_from j0 l elt) -> (j0 <= j)%nat /\ l !! (j - j0)%nat = Some elt.
Proof.
  revert j0. induction l as [| x l IH]; intros j0 Hin; [contradiction |].
  cbn in Hin. destruct (String.eqb_spec x elt) as [-> | Hne].
  - destruct Hin as [<- | Hin].
    + split; [lia |]. rewrite Nat.sub_diag. reflexivity.
    + apply IH in Hin as [Hle Hl]. split; [lia |].
      replace (j - j0)%nat with (S (j - S j0)) by lia. exact Hl.
  - apply IH in Hin as [Hle Hl]. split; [lia |].
    replace (j - j0)%nat with (S (j - S j0)) by lia. exact Hl.
Qed.

Lemma b2j_spec (elt : string) (j : nat) : In j (b2j b elt) -> b !! j = Some elt.
Proof.
  unfold b2j. destruct (popular b elt); [contradiction |].
  intros Hin. apply indices_from_spec in Hin as [_ Hl].
  rewrite Nat.sub_0_r in Hl. exact Hl.
Qed.

Lemma flm_inner_inv (alo ahi blo bhi i : nat) (x : string) (j2len : gmap nat nat) :
  (alo <= i)%nat -> (i < ahi)%nat -> a !! i = Some x ->
  row_inv alo blo bhi i j2len ->
  forall (js : list nat) (newj2len : gmap nat nat) (best : Match),
    (forall j, In j js -> b !! j = Some x) ->
    row_inv alo blo bhi (S i) newj2len ->
    valid_match alo ahi blo bhi best ->
    row_inv alo blo bhi (S i) (fst (flm_inner blo bhi i j2len js newj2len best))
    /\ valid_match alo ahi blo bhi (snd (flm_inner blo bhi i j2len js newj2len best)).
Proof.
  intros Hlo Hhi Hai Hprev. induction js as [| j js IH]; intros newj2len best Hjs Hnew Hbest.
  - split; assumption.
  - cbn [flm_inner].
    destruct (Nat.ltb_spec j blo) as [Hjlo | Hjlo];
      [apply IH; [intros; apply Hjs; right | |]; assumption |].
    destruct (Nat.leb_spec bhi j) as [Hjhi | Hjhi]; [split; assumption |].
    assert (Hbj : b !! j = Some x) by (apply Hjs; left; reflexivity).
    set (k := (j2len_get_pred j2len j + 1)%nat).
    assert (Hrun : (1 <= k)%nat /\ (alo + k <= S i)%nat /\ (blo + k <= j + 1)%nat
                   /\ same_run (S i - k) (j + 1 - k) k).
    { unfold k, j2len_get_pred. destruct j as [| j'].
      - repeat split; try lia. intros d Hd.
        reindex i 0%nat. rewrite Hai, Hbj. apply line_eqb_refl_Some.
      - destruct (j2len !! j') as [k' |] eqn:E.
        + destruct (Hprev j' k' E) as (Hk1 & Hk2 & Hk3 & _ & Hsame).
          change (default 0%nat (Some k')) with k'.
          repeat split; try lia. intros d Hd.
          destruct (decide (d = k')) as [-> | Hdk].
          * reindex i (S j'). rewrite Hai, Hbj. apply line_eqb_refl_Some.
          * reindex (i - k' + d)%nat (j' + 1 - k' + d)%nat. apply Hsame. lia.
        + change (default 0%nat None) with 0%nat.
          repeat split; try lia. intros d Hd.
          reindex i (S j'). rewrite Hai, Hbj. apply line_eqb_refl_Some. }
    destruct Hrun as (Hk1 & Hk2 & Hk3 & Hsame).
    apply IH.
    + intros j0 Hj0. apply Hjs. right. exact Hj0.
    + intros j0 k0 Hlook. destruct (decide (j = j0)) as [<- | Hn].
      * rewrite lookup_insert_eq in Hlook. injection Hlook as <-.
        repeat split; try lia. exact Hsame.
      * rewrite lookup_insert_ne in Hlook by exact Hn. apply Hnew. exact Hlook.
    + destruct (m_size best <? k)%nat; [| exact Hbest].
      unfold valid_match. cbn.
      replace (i + 1 - k)%nat with (S i - k)%nat by lia.
      repeat split; try lia. exact Hsame.
Qed.

Lemma flm_rows_inv (alo ahi blo bhi : nat) :
  forall (n i : nat) (j2len : gmap nat nat) (best : Match),
    (alo <= i)%nat -> (i + n <= ahi)%nat ->
    row_inv alo blo bhi i j2len ->
    valid_match alo ahi blo bhi best ->
    valid_match alo ahi blo bhi
      (snd (fold_left (flm_row a b blo bhi) (seq i n) (j2len, best))).
Proof.
  induction n as [| n IH]; intros i j2len best Hlo Hhi Hrow Hbest; [exact Hbest |].
  cbn [seq fold_left]. unfold flm_row at 2.
  destruct (a !! i) as [x |] eqn:Hai.
  - pose proof (flm_inner_inv alo ahi blo bhi i x j2len Hlo ltac:(lia) Hai Hrow
                  (b2j b x) ∅ best (b2j_spec x)
                  ltac:(intros j k Hl; rewrite lookup_empty in Hl; discriminate Hl)
                  Hbest) as [Hr Hb].
    destruct (flm_inner blo bhi i j2len (b2j b x) ∅ best) as [j2len' best'].
    apply IH; [lia | lia | exact Hr | exact Hb].
  - apply IH; [lia | lia | | exact Hbest].
    intros j k Hl. rewrite lookup_empty in Hl. discriminate Hl.
Qed.

Lemma extend_left_valid (junk : bool) (alo ahi blo bhi : nat) :
  forall besti bestj bestsize,
    valid_match alo ahi blo bhi (mkMatch besti bestj bestsize) ->
    valid_match alo ahi blo bhi (extend_left a b junk alo blo besti bestj bestsize).
Proof.
  induction besti as [| i' IH]; intros bestj bestsize Hv; [exact Hv |].
  cbn [extend_left]. destruct bestj as [| j']; [exact Hv |].
  destruct (_ && _) eqn:Hc; [| exact Hv].
  apply andb_prop in Hc as [Hc Heq]. apply andb_prop in Hc as [Hc _].
  apply andb_prop in Hc as [Hc1 Hc2].
  apply Nat.ltb_lt in Hc1. apply Nat.ltb_lt in Hc2.
  apply IH. destruct Hv as (H1 & H2 & H3 & H4 & H5). cbn in *.
  unfold valid_match. cbn. repeat split; try lia.
  intros d Hd. destruct d as [| d].
  - reindex i' j'. exact Heq.
  - reindex (S i' + d)%nat (S j' + d)%nat. apply H5. lia.
Qed.

Lemma extend_right_valid (junk : bool) (alo ahi blo bhi besti bestj : nat) :
  forall n bestsize,
    valid_match alo ahi blo bhi (mkMatch besti bestj bestsize) ->
    valid_match alo ahi blo bhi (extend_right a b junk n ahi bhi besti bestj bestsize).
Proof.
  induction n as [| n IH]; intros bestsize Hv; [exact Hv |].
  cbn [extend_right]. destruct (_ && _) eqn:Hc; [| exact Hv].
  apply andb_prop in Hc as [Hc Heq]. apply andb_prop in Hc as [Hc _].
  apply andb_prop in Hc as [Hc1 Hc2].
  apply Nat.ltb_lt in Hc1. apply Nat.ltb_lt in Hc2.
  apply IH. destruct Hv as (H1 & H2 & H3 & H4 & H5). cbn in *.
  unfold valid_match. cbn. repeat split; try lia.
  intros d Hd. destruct (decide (d = bestsize)) as [-> | Hn]; [exact Heq |].
  apply H5. lia.
Qed.

Lemma extend_valid (junk : bool) (alo ahi blo bhi : nat) (m : Match) :
  valid_match alo ahi blo bhi m -> valid_match alo ahi blo bhi (extend a b junk alo ahi blo bhi m).
Proof.
  intros Hv. unfold extend.
  pose proof (extend_left_valid junk alo ahi blo bhi (m_a m) (m_b m) (m_size m)) as Hl.
  destruct m as [i j k]. cbn in *. specialize (Hl Hv).
  destruct (extend_left a b junk alo blo i j k) as [i1 j1 k1]. cbn.
  apply extend_right_valid. exact Hl.
Qed.

(** The match [find_longest_match] returns lies inside the ranges it was
    given and is a match. *)
Lemma find_longest_match_valid (alo ahi blo bhi : nat) :
  (alo <= ahi)%nat -> (blo <= bhi)%nat ->
  valid_match alo ahi blo bhi (find_longest_match a b alo ahi blo bhi).
Proof.
  intros Ha Hb. unfold find_longest_match.
  pose proof (flm_rows_inv alo ahi blo bhi (ahi - alo) alo ∅ (mkMatch alo blo 0)
                (le_n _) ltac:(lia)
                ltac:(intros j k Hl; rewrite lookup_empty in Hl; discriminate Hl)) as Hrows.
  destruct (fold_left _ _ _) as [j2len best]. cbn in Hrows.
  apply extend_valid, extend_valid, Hrows.
  unfold valid_match. cbn. repeat split; try lia. intros d Hd. lia.
Qed.

(** *** The blocks of [get_matching_blocks] *)

Lemma comparable_sym r1 r2 : comparable r1 r2 -> comparable r2 r1.
Proof. unfold comparable. tauto. Qed.

Lemma comparable_inside s r x : inside s r -> comparable r x -> comparable s x.
Proof.
  destruct s as [[[alo' ahi'] blo'] bhi'], r as [[[alo ahi] blo] bhi],
    x as [[[xalo xahi] xblo] xbhi].
  unfold inside, comparable, range_lt. lia.
Qed.

Lemma Forall_submseteq {A} (P : A -> Prop) (l1 l2 : list A) :
  l1 ⊆+ l2 -> Forall P l2 -> Forall P l1.
Proof.
  intros Hsub Hall. rewrite Forall_forall in *. intros x Hx.
  apply Hall. eapply elem_of_submseteq; eassumption.
Qed.

(** A symmetric relation that holds between all pairs of a list holds
    between all pairs of a smaller multiset. *)
Lemma ForallOrdPairs_submseteq {A} (R : A -> A -> Prop) (l1 l2 : list A) :
  (forall x y, R x y -> R y x) ->
  l1 ⊆+ l2 -> ForallOrdPairs R l2 -> ForallOrdPairs R l1.
Proof.
  intros Hsym Hsub. induction Hsub as [| x l1 l2 Hsub IH | x y l | x l1 l2 Hsub IH
                                       | l1 l2 l3 _ IH1 _ IH2]; intros Hfop.
  - constructor.
  - inversion Hfop as [| ? ? Hx Hl]; subst. constructor; [| auto].
    eapply Forall_submseteq; eassumption.
  - inversion Hfop as [| ? ? Hx Hl]; subst. inversion Hl as [| ? ? Hy Hl']; subst.
    apply Forall_cons in Hx as [Hxy Hx]. constructor; [| constructor; assumption].
    constructor; [apply Hsym; exact Hxy | exact Hy].
  - inversion Hfop; subst. auto.
  - auto.
Qed.

(** The blocks found by the loop are matches that lie pairwise one before
    the other. *)
Lemma matching_loop_inv :
  forall (fuel : nat) (queue : list (nat * nat * nat * nat)) (blocks : list Match),
    loop_inv queue blocks ->
    Forall block_ok (matching_loop a b fuel queue blocks)
    /\ ForallOrdPairs comparable (map block_range (matching_loop a b fuel queue blocks)).
Proof.
  assert (Hdone : forall queue blocks, loop_inv queue blocks ->
            Forall block_ok blocks /\ ForallOrdPairs comparable (map block_range blocks)).
  { intros queue blocks (_ & Hb & Hfop). split; [exact Hb |].
    eapply ForallOrdPairs_submseteq; [apply comparable_sym | | exact Hfop].
    apply submseteq_inserts_l. reflexivity. }
  induction fuel as [| fuel IH]; intros queue blocks Hinv; [apply (Hdone queue), Hinv |].
  destruct queue as [| [[[alo ahi] blo] bhi] queue']; [apply (Hdone []), Hinv |].
  cbn [matching_loop].
  destruct Hinv as (Hq & Hb & Hfop).
  apply Forall_cons in Hq as [(Ha1 & Ha2 & Hb1 & Hb2) Hq'].
  pose proof (find_longest_match_valid alo ahi blo bhi Ha1 Hb1) as Hv.
  set (x := find_longest_match a b alo ahi blo bhi) in *.
  destruct Hv as (Hv1 & Hv2 & Hv3 & Hv4 & Hv5).
  cbn [app] in Hfop. inversion Hfop as [| ? ? Hr Hrest]; subst.
  destruct (Nat.ltb_spec 0 (m_size x)) as [Hk | Hk].
  - apply IH. split; [| split].
    + destruct (_ && _), (_ && _); repeat constructor; try assumption; lia.
    + apply Forall_app. split; [exact Hb |]. constructor; [| constructor].
      unfold block_ok. repeat split; try lia. exact Hv5.
    + set (left := (alo, m_a x, blo, m_b x)).
      set (right := ((m_a x + m_size x)%nat, ahi, (m_b x + m_size x)%nat, bhi)).
      set (X := queue' ++ map block_range blocks) in *.
      assert (Hin : forall s, inside s (alo, ahi, blo, bhi) -> Forall (comparable s) X).
      { intros s Hs. eapply Forall_impl; [exact Hr |]. intros y Hy.
        eapply comparable_inside; eassumption. }
      assert (Hall : ForallOrdPairs comparable (right :: left :: block_range x :: X)).
      { constructor; [| constructor; [| constructor; [| exact Hrest]]].
        - constructor; [right; cbn; lia |]. constructor; [right; cbn; lia |].
          apply Hin. cbn. lia.
        - constructor; [left; cbn; lia |]. apply Hin. cbn. lia.
        - apply Hin. cbn. lia. }
      eapply ForallOrdPairs_submseteq; [apply comparable_sym | | exact Hall].
      rewrite map_app. cbn [map]. fold left right. unfold X.
      destruct (_ && _), (_ && _); solve_submseteq.
  - apply IH. split; [exact Hq' |]. split; [exact Hb | exact Hrest].
Qed.

(** [a[i : i+k] == b[j : j+k]] as slices. *)
Lemma same_run_slices (i j k : nat) :
  (i + k <= la)%nat -> (j + k <= lb)%nat -> same_run i j k ->
  slice a i (i + k) = slice b j (j + k).
Proof.
  intros Hi Hj Hrun. unfold slice.
  replace (i + k - i)%nat with k by lia. replace (j + k - j)%nat with k by lia.
  apply list_eq. intros d. destruct (Nat.lt_ge_cases d k) as [Hd | Hd].
  - rewrite !lookup_take_lt, !lookup_drop by exact Hd.
    specialize (Hrun d Hd). unfold line_eqb in Hrun.
    destruct (a !! (i + d)%nat) as [u |], (b !! (j + d)%nat) as [v |]; try discriminate.
    apply String.eqb_eq in Hrun. congruence.
  - rewrite !lookup_take_ge by exact Hd. reflexivity.
Qed.

(** *** Sorting and collapsing the blocks *)

Lemma match_leb_block_lt (x y : Match) :
  (0 < m_size x)%nat -> (0 < m_size y)%nat -> block_comparable x y ->
  if match_leb x y then block_lt x y else block_lt y x.
Proof.
  intros Hx Hy Hc.
  unfold match_leb, block_lt, block_comparable, comparable, range_lt, block_range in *.
  destruct x as [xa xb xk], y as [ya yb yk]. cbn [m_a m_b m_size] in *.
  destruct (Nat.ltb_spec xa ya), (Nat.eqb_spec xa ya), (Nat.ltb_spec xb yb),
    (Nat.eqb_spec xb yb), (Nat.leb_spec xk yk); cbn [orb andb]; lia.
Qed.

Lemma Forall_sort_insert (P : Match -> Prop) (x : Match) (l : list Match) :
  Forall P (sort_insert x l) <-> P x /\ Forall P l.
Proof.
  induction l as [| y l IH]; cbn.
  - rewrite Forall_cons. tauto.
  - destruct (match_leb x y).
    + rewrite Forall_cons. tauto.
    + rewrite !Forall_cons, IH. tauto.
Qed.

Lemma Forall_sort (P : Match -> Prop) (l : list Match) :
  Forall P (sort l) <-> Forall P l.
Proof.
  induction l as [| x l IH]; cbn; [tauto |].
  rewrite Forall_sort_insert, Forall_cons, IH. tauto.
Qed.

Lemma block_lt_trans (x y z : Match) : block_lt x y -> block_lt y z -> block_lt x z.
Proof.
  destruct x, y, z. unfold block_lt, range_lt. cbn. lia.
Qed.

Lemma sort_insert_sorted (x : Match) (l : list Match) :
  (0 < m_size x)%nat -> Forall (fun y => (0 < m_size y)%nat) l ->
  Forall (block_comparable x) l ->
  StronglySorted block_lt l ->
  StronglySorted block_lt (sort_insert x l).
Proof.
  intros Hx. induction l as [| y l IH]; intros Hpos Hcmp Hs; cbn.
  - repeat constructor.
  - apply Forall_cons in Hpos as [Hy Hpos]. apply Forall_cons in Hcmp as [Hxy Hcmp].
    inversion Hs as [| ? ? Hs' Hyl]; subst.
    pose proof (match_leb_block_lt x y Hx Hy Hxy) as Hleb.
    destruct (match_leb x y).
    + constructor; [exact Hs |]. constructor; [exact Hleb |].
      eapply Forall_impl; [exact Hyl |]. intros z Hz. eapply block_lt_trans; eassumption.
    + constructor; [apply IH; assumption |].
      apply Forall_sort_insert. split; assumption.
Qed.

Lemma sort_sorted (l : list Match) :
  Forall block_ok l ->
  ForallOrdPairs comparable (map block_range l) ->
  StronglySorted block_lt (sort l).
Proof.
  induction l as [| x l IH]; intros Hok Hfop; cbn; [constructor |].
  apply Forall_cons in Hok as [Hx Hok].
  cbn in Hfop. inversion Hfop as [| ? ? Hxl Hl]; subst.
  apply sort_insert_sorted.
  - apply Hx.
  - apply Forall_sort. eapply Forall_impl; [exact Hok |]. intros y Hy. apply Hy.
  - apply Forall_sort. rewrite Forall_forall. intros y Hy.
    rewrite Forall_forall in Hxl. apply Hxl.
    apply list_elem_of_fmap. exists y. split; [reflexivity | exact Hy].
  - apply IH; assumption.
Qed.

Lemma same_run_app (i j k1 k2 : nat) :
  same_run i j k1 -> same_run (i + k1) (j + k1) k2 -> same_run i j (k1 + k2).
Proof.
  intros H1 H2 d Hd. destruct (Nat.lt_ge_cases d k1) as [Hlt | Hge]; [apply H1; exact Hlt |].
  reindex (i + k1 + (d - k1))%nat (j + k1 + (d - k1))%nat. apply H2. lia.
Qed.

Lemma collapse_chain :
  forall (blocks : list Match) (i1 j1 k1 i j : nat),
    (i <= i1)%nat -> (j <= j1)%nat ->
    (i1 + k1 <= la)%nat -> (j1 + k1 <= lb)%nat ->
    same_run i1 j1 k1 ->
    Forall (fun m => (i1 + k1 <= m_a m)%nat /\ (j1 + k1 <= m_b m)%nat) blocks ->
    StronglySorted block_lt blocks ->
    Forall block_ok blocks ->
    chain i j (collapse i1 j1 k1 blocks ++ [mkMatch la lb 0]).
Proof.
  induction blocks as [| [i2 j2 k2] rest IH]; intros i1 j1 k1 i j Hi Hj Hla Hlb Hrun Hafter Hs Hok.
  - cbn [collapse]. destruct (Nat.ltb_spec 0 k1); cbn; repeat split; try lia; try exact Hrun.
    all: intros d Hd; lia.
  - cbn [collapse].
    apply Forall_cons in Hafter as [[Ha1 Ha2] Hafter].
    apply Forall_cons in Hok as [(Hk2 & Hb1 & Hb2 & Hrun2) Hok]. cbn in Ha1, Ha2, Hk2, Hb1, Hb2, Hrun2.
    inversion Hs as [| ? ? Hs' Hlt]; subst.
    assert (Hrest : Forall (fun m => (i2 + k2 <= m_a m)%nat /\ (j2 + k2 <= m_b m)%nat) rest).
    { eapply Forall_impl; [exact Hlt |]. intros [xa xb xk]. unfold block_lt, range_lt. cbn. lia. }
    destruct (_ && _) eqn:Hadj.
    + apply andb_prop in Hadj as [E1 E2].
      apply Nat.eqb_eq in E1. apply Nat.eqb_eq in E2. subst i2 j2.
      apply IH; try assumption; try lia.
      * apply same_run_app; assumption.
      * eapply Forall_impl; [exact Hrest |]. cbn. intros m Hm. lia.
    + destruct (Nat.ltb_spec 0 k1).
      * cbn [app chain m_a m_b m_size]. repeat split; try lia; try exact Hrun.
        all: apply IH; try assumption; lia.
      * cbn [app]. apply IH; try assumption; lia.
Qed.

(** [get_matching_blocks()] returns such a list. *)
Lemma get_matching_blocks_chain : chain 0 0 (get_matching_blocks a b).
Proof.
  unfold get_matching_blocks.
  assert (Hinv : loop_inv [(0, la, 0, lb)]%nat []).
  { split; [| split].
    - constructor; [cbn; lia | constructor].
    - constructor.
    - cbn. repeat constructor. }
  destruct (matching_loop_inv (2 * la + 2) _ _ Hinv) as [Hok Hfop].
  apply collapse_chain; try lia.
  - intros d Hd. lia.
  - rewrite Forall_forall. intros m _. lia.
  - apply sort_sorted; assumption.
  - apply Forall_sort. exact Hok.
Qed.

(** *** From blocks to opcodes *)

Lemma slice_nil {A} (l : list A) (i : nat) : slice l i i = [].
Proof. unfold slice. rewrite Nat.sub_diag. apply take_0. Qed.

Lemma slice_app {A} (l : list A) (lo mid hi : nat) :
  (lo <= mid)%nat -> (mid <= hi)%nat ->
  slice l lo hi = slice l lo mid ++ slice l mid hi.
Proof.
  intros H1 H2. unfold slice.
  replace (hi - lo)%nat with ((mid - lo) + (hi - mid))%nat by lia.
  rewrite <- take_take_drop, drop_drop.
  replace (lo + (mid - lo))%nat with mid by lia. reflexivity.
Qed.

Lemma drop_slice {A} (l : list A) (lo hi : nat) :
  (lo <= hi)%nat -> drop lo l = slice l lo hi ++ drop hi l.
Proof.
  intros H. unfold slice.
  rewrite <- (take_drop (hi - lo) (drop lo l)) at 1. rewrite drop_drop.
  replace (lo + (hi - lo))%nat with hi by lia. reflexivity.
Qed.

Lemma opcodes_from_contig (blocks : list Match) :
  forall i j, chain i j blocks -> contig i j (opcodes_from i j blocks).
Proof.
  induction blocks as [| [ai bj size] rest IH]; intros i j Hc.
  - cbn in Hc |- *. destruct Hc as [-> ->]. rewrite !drop_all. reflexivity.
  - cbn [chain m_a m_b m_size] in Hc. destruct Hc as (Hi & Hj & Hla & Hlb & Hrun & Hc).
    specialize (IH _ _ Hc). cbn [opcodes_from].
    assert (Hsame : contig ai bj
              ((if (0 <? size)%nat then [mkOp equal ai (ai + size) bj (bj + size)] else [])
               ++ opcodes_from (ai + size) (bj + size) rest)).
    { destruct (Nat.ltb_spec 0 size) as [Hs | Hs]; cbn [app contig].
      - repeat split; try (cbn; lia); [| exact IH].
        cbn. apply same_run_slices; assumption.
      - assert (size = 0)%nat as -> by lia. rewrite !Nat.add_0_r in IH |- *. exact IH. }
    destruct (Nat.ltb_spec i ai) as [Hia | Hia], (Nat.ltb_spec j bj) as [Hjb | Hjb];
      cbn [andb app contig i1 i2 j1 j2].
    + repeat split; try (cbn; lia). exact Hsame.
    + repeat split; try (cbn; lia). replace j with bj by lia. exact Hsame.
    + repeat split; try (cbn; lia). replace i with ai by lia. exact Hsame.
    + replace i with ai by lia. replace j with bj by lia. exact Hsame.
Qed.

Lemma get_opcodes_contig : contig 0 0 (get_opcodes a b).
Proof. apply opcodes_from_contig, get_matching_blocks_chain. Qed.

(** *** Applying the lines of opcodes *)

Lemma apply_ops_app (o1 o2 : list (LineOp * string)) (R : list string) :
  apply_ops (o1 ++ o2) R
  = match apply_ops o1 R with
    | Some (out1, R1) =>
        match apply_ops o2 R1 with
        | Some (out2, R2) => Some (out1 ++ out2, R2)
        | None => None
        end
    | None => None
    end.
Proof.
  revert R. induction o1 as [| [op l] o1 IH]; intros R; cbn [app apply_ops].
  - destruct (apply_ops o2 R) as [[out2 R2] |]; reflexivity.
  - destruct op.
    + destruct R as [| x R]; [reflexivity |]. destruct (String.eqb x l); [| reflexivity].
      rewrite IH. destruct (apply_ops o1 R) as [[out1 R1] |]; [| reflexivity].
      destruct (apply_ops o2 R1) as [[out2 R2] |]; reflexivity.
    + destruct R as [| x R]; [reflexivity |]. destruct (String.eqb x l); [| reflexivity].
      rewrite IH. destruct (apply_ops o1 R) as [[out1 R1] |]; [| reflexivity].
      destruct (apply_ops o2 R1) as [[out2 R2] |]; reflexivity.
    + rewrite IH. destruct (apply_ops o1 R) as [[out1 R1] |]; [| reflexivity].
      destruct (apply_ops o2 R1) as [[out2 R2] |]; reflexivity.
Qed.

Lemma apply_ops_keep (R : list string) (n : nat) :
  apply_ops (map (pair Keep) (take n R)) R = Some (take n R, drop n R).
Proof.
  revert R. induction n as [| n IH]; intros R; [destruct R; reflexivity |].
  destruct R as [| x R]; [reflexivity |].
  cbn [take map apply_ops drop]. rewrite String.eqb_refl, IH. reflexivity.
Qed.

Lemma apply_ops_del (R : list string) (n : nat) :
  apply_ops (map (pair Del) (take n R)) R = Some ([], drop n R).
Proof.
  revert R. induction n as [| n IH]; intros R; [destruct R; reflexivity |].
  destruct R as [| x R]; [reflexivity |].
  cbn [take map apply_ops drop]. rewrite String.eqb_refl, IH. reflexivity.
Qed.

Lemma apply_ops_add (L R : list string) :
  apply_ops (map (pair Add) L) R = Some (L, R).
Proof.
  induction L as [| x L IH]; [reflexivity |]. cbn [map apply_ops]. rewrite IH. reflexivity.
Qed.

Lemma old_length_app (o1 o2 : list (LineOp * string)) :
  old_length (o1 ++ o2) = (old_length o1 + old_length o2)%nat.
Proof. unfold old_length. rewrite List.filter_app, length_app. reflexivity. Qed.

Lemma old_length_map (op : LineOp) (L : list string) :
  old_length (map (pair op) L)
  = match op with Add => 0%nat | _ => length L end.
Proof.
  unfold old_length. induction L as [| x L IH]; [destruct op; reflexivity |].
  destruct op; cbn in *; rewrite ?IH; reflexivity.
Qed.

Lemma length_slice {A} (l : list A) (lo hi : nat) :
  (hi <= length l)%nat -> length (slice l lo hi) = (hi - lo)%nat.
Proof. intros H. unfold slice. rewrite length_take, length_drop. lia. Qed.

(** The lines of one sound opcode turn [a[i1:i2]] into [b[j1:j2]]. *)
Lemma apply_opcode (c : Opcode) :
  code_ok c ->
  apply_ops (opcode_ops a b c) (drop (i1 c) a) = Some (slice b (j1 c) (j2 c), drop (i2 c) a)
  /\ old_length (opcode_ops a b c) = (i2 c - i1 c)%nat.
Proof.
  intros (Hi & Hla & Hj & Hlb & Htag). unfold opcode_ops.
  assert (Hdrop : drop (i2 c - i1 c) (drop (i1 c) a) = drop (i2 c) a).
  { rewrite drop_drop. f_equal. lia. }
  destruct (tag c).
  - (* replace *)
    split.
    + rewrite apply_ops_app. unfold slice at 1. rewrite apply_ops_del, Hdrop.
      rewrite apply_ops_add. reflexivity.
    + rewrite old_length_app, !old_length_map, length_slice by exact Hla. lia.
  - (* delete *)
    split.
    + unfold slice at 1. rewrite apply_ops_del, Hdrop.
      rewrite Htag, slice_nil. reflexivity.
    + rewrite old_length_map, length_slice by exact Hla. reflexivity.
  - (* insert *)
    split.
    + rewrite apply_ops_add, Htag. reflexivity.
    + rewrite old_length_map. lia.
  - (* equal *)
    split.
    + unfold slice at 1. rewrite apply_ops_keep, Hdrop.
      fold (slice a (i1 c) (i2 c)). rewrite Htag. reflexivity.
    + rewrite old_length_map, length_slice by exact Hla. reflexivity.
Qed.

Lemma grp_snoc (g : list Opcode) (c : Opcode) :
  forall gi gj i j,
    grp gi gj g i j -> i1 c = i -> j1 c = j -> code_ok c ->
    grp gi gj (g ++ [c]) (i2 c) (j2 c).
Proof.
  induction g as [| c0 g IH]; intros gi gj i j Hg Hi Hj Hc.
  - cbn in Hg |- *. destruct Hg as [-> ->].
    exact (conj Hi (conj Hj (conj Hc (conj eq_refl eq_refl)))).
  - cbn [app grp] in Hg |- *. destruct Hg as (H1 & H2 & H3 & Hg).
    refine (conj H1 (conj H2 (conj H3 _))). eapply IH; eassumption.
Qed.

Lemma grp_start (g : list Opcode) (gi gj i j : nat) :
  grp gi gj g i j ->
  forall c, i1 c = i -> i1 (List.hd (mkOp equal 0 0 0 0) (g ++ [c])) = gi.
Proof.
  destruct g as [| c0 g]; cbn.
  - intros [-> _] c Hc. exact Hc.
  - intros (H1 & _) c _. exact H1.
Qed.

(** The lines of a group turn [a[gi:i]] into [b[gj:j]]. *)
Lemma apply_group (g : list Opcode) :
  forall gi gj i j,
    grp gi gj g i j -> (gi <= la)%nat -> (gj <= lb)%nat ->
    apply_ops (flat_map (opcode_ops a b) g) (drop gi a) = Some (slice b gj j, drop i a)
    /\ old_length (flat_map (opcode_ops a b) g) = (i - gi)%nat
    /\ (gi <= i)%nat /\ (i <= la)%nat /\ (gj <= j)%nat /\ (j <= lb)%nat.
Proof.
  induction g as [| c g IH]; intros gi gj i j Hg Hgi Hgj.
  - cbn in Hg |- *. destruct Hg as [<- <-]. rewrite slice_nil.
    repeat split; try lia.
  - cbn [grp] in Hg. destruct Hg as (H1 & H2 & Hc & Hg).
    pose proof Hc as (Hi & Hla & Hj & Hlb & _).
    destruct (apply_opcode c Hc) as [Happ Hlen].
    destruct (IH _ _ _ _ Hg Hla Hlb) as (Happ' & Hlen' & B1 & B2 & B3 & B4).
    cbn [flat_map]. rewrite apply_ops_app, old_length_app. subst gi gj.
    rewrite Happ, Happ', Hlen, Hlen'. repeat split; try lia.
    rewrite <- slice_app by lia. reflexivity.
Qed.

(** *** Applying the hunks of the groups *)

(** One hunk: the lines from [pa] to the start of the group are copied, then
    the lines of the group are applied. *)
Lemma apply_hunk_group (g : list Opcode) (hunks : list Hunk) (out : list string)
    (gi gj i j pa pb : nat) :
  grp gi gj g i j ->
  i1 (List.hd (mkOp equal 0 0 0 0) g) = gi ->
  (pa <= gi)%nat -> (pb <= gj)%nat -> (gi <= la)%nat -> (gj <= lb)%nat ->
  slice a pa gi = slice b pb gj ->
  apply_hunks hunks i (drop i a) = Some out ->
  apply_hunks (hunk_of_group a b g :: hunks) pa (drop pa a)
  = Some (slice b pb j ++ out).
Proof.
  intros Hg Hhd Hpa Hpb Hgi Hgj Hgap Hrest.
  destruct (apply_group g gi gj i j Hg Hgi Hgj) as (Happ & Hlen & B1 & B2 & B3 & B4).
  cbn [apply_hunks hunk_of_group h_start h_ops]. rewrite Hhd.
  destruct (Nat.ltb_spec gi pa) as [Hlt | _]; [lia |].
  rewrite length_drop.
  destruct (Nat.ltb_spec (la - pa) (gi - pa)) as [Hlt | _]; [lia |].
  rewrite drop_drop. replace (pa + (gi - pa))%nat with gi by lia.
  rewrite Happ, Hlen. replace (gi + (i - gi))%nat with i by lia. rewrite Hrest.
  fold (slice a pa gi). rewrite Hgap, (slice_app b pb gj j) by lia.
  rewrite <- app_assoc. reflexivity.
Qed.

Lemma gap_rest (pa pb i j : nat) :
  (pa <= i)%nat -> (pb <= j)%nat ->
  slice a pa i = slice b pb j -> drop i a = drop j b -> drop pa a = drop pb b.
Proof.
  intros Hpa Hpb Hgap Hrest.
  rewrite (drop_slice a pa i Hpa), (drop_slice b pb j Hpb), Hgap, Hrest. reflexivity.
Qed.

(** The groups that the loop of [get_grouped_opcodes(0)] yields, applied as
    hunks to what is left of [a] from [pa], give what is left of [b] from
    [pb]: [a[pa:gi]] and [b[pb:gj]] are equal, the group under construction
    leads from [(gi, gj)] to [(i, j)], and the opcodes still to come follow
    from [(i, j)]. *)
Lemma group_loop_patch (codes : list Opcode) :
  forall (g : list Opcode) (gi gj i j pa pb : nat),
    contig i j codes ->
    grp gi gj g i j ->
    (pa <= gi)%nat -> (pb <= gj)%nat -> (gi <= la)%nat -> (gj <= lb)%nat ->
    slice a pa gi = slice b pb gj ->
    apply_hunks (map (hunk_of_group a b) (group_loop 0 codes g)) pa (drop pa a)
    = Some (drop pb b).
Proof.
  induction codes as [| c codes IH]; intros g gi gj i j pa pb Hc Hg Hpa Hpb Hgi Hgj Hgap.
  - cbn [contig] in Hc. cbn [group_loop].
    destruct (apply_group g gi gj i j Hg Hgi Hgj) as (_ & _ & B1 & B2 & B3 & B4).
    assert (Hyield : apply_hunks (map (hunk_of_group a b) [g]) pa (drop pa a)
                     = Some (drop pb b) \/ g = []).
    { destruct g as [| c0 g']; [right; reflexivity | left].
      cbn [map].
      rewrite (apply_hunk_group (c0 :: g') [] (drop i a) gi gj i j pa pb Hg); try assumption.
      - rewrite Hc, <- drop_slice by lia. reflexivity.
      - cbn in Hg |- *. apply Hg.
      - reflexivity. }
    assert (Hskip : apply_hunks [] pa (drop pa a) = Some (drop pb b)
                    \/ (exists c0 g', g = c0 :: g' /\ (tag c0 = equal -> g' <> []))).
    { destruct g as [| c0 g'].
      - left. cbn in Hg |- *. destruct Hg as [<- <-].
        f_equal. eapply gap_rest; eassumption.
      - destruct (tag c0) eqn:Ht, g' as [| c1 g''];
          try (right; exists c0; eexists; split;
               [reflexivity | intros Heq; first [congruence | discriminate]]).
        left. cbn in Hg |- *. destruct Hg as (H1 & H2 & Hok & <- & <-).
        destruct Hok as (? & ? & ? & ? & Hsl). rewrite Ht in Hsl. subst gi gj.
        f_equal. apply (gap_rest pa pb (i2 c0) (j2 c0)); try lia; [| exact Hc].
        rewrite (slice_app a pa (i1 c0) (i2 c0)), (slice_app b pb (j1 c0) (j2 c0)) by lia.
        rewrite Hgap, Hsl. reflexivity. }
    destruct g as [| [t x1 x2 y1 y2] [| c1 g'']].
    + destruct Hskip as [H | (c0 & g' & E & _)]; [exact H | discriminate E].
    + destruct t; try (destruct Hyield as [H | E]; [exact H | discriminate E]).
      destruct Hskip as [H | (c0 & g' & E & Hne)]; [exact H |].
      injection E as <- <-. exfalso. apply (Hne eq_refl). reflexivity.
    + destruct t; destruct Hyield as [H | E]; try exact H; discriminate E.
  - cbn [contig] in Hc. destruct Hc as (Hi1 & Hj1 & Hok & Hc).
    pose proof Hok as (B1 & B2 & B3 & B4 & Htag).
    destruct c as [t x1 x2 y1 y2]. cbn [i1 i2 j1 j2 tag] in *. subst x1 y1.
    cbn [group_loop]. replace (0 + 0)%nat with 0%nat by reflexivity.
    destruct (is_equal t && (0 <? x2 - i)%nat) eqn:Hcond.
    + apply andb_prop in Hcond as [Heq Hlen]. destruct t; try discriminate Heq.
      rewrite !Nat.add_0_r, !Nat.sub_0_r.
      rewrite (Nat.min_r x2 i), (Nat.min_r y2 j), (Nat.max_r i x2), (Nat.max_r j y2) by lia.
      cbn [map].
      destruct (apply_group g gi gj i j Hg Hgi Hgj) as (_ & _ & G1 & G2 & G3 & G4).
      assert (He0 : code_ok (mkOp equal i i j j)).
      { unfold code_ok. cbn [tag i1 i2 j1 j2]. rewrite !slice_nil. repeat split; lia. }
      pose proof (grp_snoc g (mkOp equal i i j j) gi gj i j Hg eq_refl eq_refl He0) as Hg'.
      cbn [i2 j2] in Hg'.
      rewrite (apply_hunk_group (g ++ [mkOp equal i i j j]) _ (drop j b) gi gj i j pa pb Hg');
        try assumption.
      * rewrite <- drop_slice by lia. reflexivity.
      * apply (grp_start g gi gj i j Hg). reflexivity.
      * apply (IH [mkOp equal x2 x2 y2 y2] x2 y2 x2 y2 i j); try lia; try assumption.
        cbn [grp i1 i2 j1 j2]. unfold code_ok. cbn [tag i1 i2 j1 j2]. rewrite !slice_nil.
        repeat split; lia.
    + apply (IH (g ++ [mkOp t i x2 j y2]) gi gj x2 y2 pa pb); try assumption.
      apply (grp_snoc g (mkOp t i x2 j y2) gi gj i j Hg eq_refl eq_refl Hok).
Qed.

Lemma fix_last_contig (codes : list Opcode) :
  forall i j, contig i j codes -> contig i j (fix_last 0 codes).
Proof.
  induction codes as [| c codes IH]; intros i j Hc; [exact Hc |].
  cbn [contig] in Hc. destruct Hc as (H1 & H2 & Hok & Hc).
  destruct codes as [| c' codes'].
  - destruct c as [t x1 x2 y1 y2].
    destruct t; cbn [fix_last contig]; try exact (conj H1 (conj H2 (conj Hok Hc))).
    destruct Hok as (B1 & B2 & B3 & B4 & Hsl). cbn [i1 i2 j1 j2 tag] in *.
    rewrite !Nat.add_0_r, (Nat.min_r x2 x1), (Nat.min_r y2 y1) by lia.
    split; [exact H1 |]. split; [exact H2 |]. split.
    + unfold code_ok. cbn [tag i1 i2 j1 j2]. rewrite !slice_nil. repeat split; lia.
    + cbn. apply (gap_rest x1 y1 x2 y2); assumption.
  - specialize (IH _ _ Hc).
    assert (E : fix_last 0 (c :: c' :: codes') = c :: fix_last 0 (c' :: codes')).
    { destruct c as [t ? ? ? ?]. destruct t; reflexivity. }
    rewrite E. exact (conj H1 (conj H2 (conj Hok IH))).
Qed.

(** C1 (amended), on lists of lines: the hunks of the zero-context diff,
    applied with their offsets, turn [a] into [b]. *)
Lemma diff_hunks_patch : patch (diff_hunks a b) a = Some b.
Proof.
  unfold patch, diff_hunks, get_grouped_opcodes.
  pose proof get_opcodes_contig as Hc.
  destruct (get_opcodes a b) as [| c codes] eqn:E.
  - cbn in Hc |- *. rewrite !drop_0 in Hc. congruence.
  - cbn [contig] in Hc. destruct Hc as (H1 & H2 & Hok & Hc).
    rewrite <- (drop_0 a) at 2. rewrite <- (drop_0 b).
    destruct c as [t x1 x2 y1 y2]. cbn [i1 i2 j1 j2 tag] in *. subst x1 y1.
    assert (Hgen : forall c0 gi gj,
              contig gi gj (c0 :: codes) -> (gi <= la)%nat -> (gj <= lb)%nat ->
              slice a 0 gi = slice b 0 gj ->
              apply_hunks (map (hunk_of_group a b)
                             (group_loop 0 (fix_last 0 (c0 :: codes)) [])) 0 (drop 0 a)
              = Some (drop 0 b)).
    { intros c0 gi gj Hc0 Hgi Hgj Hgap.
      apply (group_loop_patch _ [] gi gj gi gj 0 0); try lia; try assumption.
      - apply fix_last_contig. exact Hc0.
      - split; reflexivity. }
    pose proof Hok as (B1 & B2 & B3 & B4 & Htag). cbn [i1 i2 j1 j2 tag] in *.
    destruct t; cbn [fix_first].
    + apply (Hgen _ 0%nat 0%nat); try lia; [| rewrite !slice_nil; reflexivity].
      exact (conj eq_refl (conj eq_refl (conj Hok Hc))).
    + apply (Hgen _ 0%nat 0%nat); try lia; [| rewrite !slice_nil; reflexivity].
      exact (conj eq_refl (conj eq_refl (conj Hok Hc))).
    + apply (Hgen _ 0%nat 0%nat); try lia; [| rewrite !slice_nil; reflexivity].
      exact (conj eq_refl (conj eq_refl (conj Hok Hc))).
    + rewrite !Nat.sub_0_r, (Nat.max_r 0 x2), (Nat.max_r 0 y2) by lia.
      apply (Hgen _ x2 y2); try lia; [| exact Htag].
      cbn [contig i1 i2 j1 j2]. split; [reflexivity |]. split; [reflexivity |].
      split; [| exact Hc].
      unfold code_ok. cbn [tag i1 i2 j1 j2]. rewrite !slice_nil. repeat split; lia.
Qed.

(** *** The loops run to their end *)

Lemma queue_weight_cons (alo ahi blo bhi : nat) (queue : list (nat * nat * nat * nat)) :
  queue_weight ((alo, ahi, blo, bhi) :: queue)
  = (2 * (ahi - alo) + 1 + queue_weight queue)%nat.
Proof. reflexivity. Qed.

(** More than [queue_weight queue] rounds change nothing: the loop of
    [get_matching_blocks] ends because its queue is empty. *)
Lemma matching_loop_fuel :
  forall (fuel : nat) (queue : list (nat * nat * nat * nat)) (blocks : list Match),
    Forall range_ok queue ->
    (queue_weight queue <= fuel)%nat ->
    forall extra, matching_loop a b (fuel + extra) queue blocks
                  = matching_loop a b fuel queue blocks.
Proof.
  induction fuel as [| fuel IH]; intros queue blocks Hq Hw extra.
  - destruct queue as [| [[[alo ahi] blo] bhi] queue'].
    + destruct extra; reflexivity.
    + rewrite queue_weight_cons in Hw. lia.
  - destruct queue as [| [[[alo ahi] blo] bhi] queue']; [reflexivity |].
    apply Forall_cons in Hq as [(Ha1 & Ha2 & Hb1 & Hb2) Hq'].
    pose proof (find_longest_match_valid alo ahi blo bhi Ha1 Hb1) as Hv.
    cbn [Nat.add matching_loop].
    set (x := find_longest_match a b alo ahi blo bhi) in *.
    destruct Hv as (Hv1 & Hv2 & Hv3 & Hv4 & _).
    rewrite queue_weight_cons in Hw.
    destruct (Nat.ltb_spec 0 (m_size x)) as [Hk | Hk].
    + apply IH.
      * destruct (_ && _), (_ && _); repeat constructor; try assumption; lia.
      * destruct (_ && _), (_ && _); rewrite ?queue_weight_cons; lia.
    + apply IH; [exact Hq' | lia].
Qed.

Lemma get_matching_blocks_fuel (extra : nat) :
  matching_loop a b (2 * la + 2 + extra) [(0, la, 0, lb)]%nat []
  = matching_loop a b (2 * la + 2) [(0, la, 0, lb)]%nat [].
Proof.
  apply matching_loop_fuel.
  - constructor; [cbn; lia | constructor].
  - rewrite queue_weight_cons. change (queue_weight []) with 0%nat. lia.
Qed.

(** [extend_right] stops because a test of its loop fails, not because its
    counter runs out. *)
Lemma extend_right_fuel (junk : bool) (ahi bhi besti bestj : nat) :
  forall n bestsize,
    (ahi - (besti + bestsize) <= n)%nat ->
    extend_right a b junk (S n) ahi bhi besti bestj bestsize
    = extend_right a b junk n ahi bhi besti bestj bestsize.
Proof.
  induction n as [| n IH]; intros bestsize Hn.
  - cbn [extend_right].
    destruct (Nat.ltb_spec (besti + bestsize) ahi) as [Hlt | _]; [lia | reflexivity].
  - change (extend_right a b junk (S (S n)) ahi bhi besti bestj bestsize)
      with (if (besti + bestsize <? ahi)%nat && (bestj + bestsize <? bhi)%nat
               && Bool.eqb (isbjunk (b !! (bestj + bestsize)%nat)) junk
               && line_eqb (a !! (besti + bestsize)%nat) (b !! (bestj + bestsize)%nat)
            then extend_right a b junk (S n) ahi bhi besti bestj (bestsize + 1)
            else mkMatch besti bestj bestsize).
    cbn [extend_right]. destruct (_ && _); [| reflexivity].
    apply IH. lia.
Qed.

(** *** The text of the diff *)

Lemma opcode_lines_ops (c : Opcode) :
  opcode_lines a b c = map op_line (opcode_ops a b c).
Proof.
  unfold opcode_lines, opcode_ops.
  destruct (tag c); rewrite ?map_app, !map_map; reflexivity.
Qed.

Lemma group_lines_ops (g : list Opcode) :
  flat_map (opcode_lines a b) g = hunk_lines (hunk_of_group a b g).
Proof.
  unfold hunk_lines. cbn [hunk_of_group h_ops].
  induction g as [| c g IH]; [reflexivity |].
  cbn [flat_map]. rewrite map_app, IH, opcode_lines_ops. reflexivity.
Qed.

Lemma op_line_kept (ol : LineOp * string) :
  negb (pystr.startswith (op_line ol) "@@") = true.
Proof. destruct ol as [[] l]; reflexivity. Qed.

Lemma filter_hunk_lines (h : Hunk) :
  List.filter (fun line => negb (pystr.startswith line "@@")) (hunk_lines h) = hunk_lines h.
Proof.
  unfold hunk_lines. induction (h_ops h) as [| ol ops IH]; [reflexivity |].
  cbn [map List.filter]. rewrite op_line_kept, IH. reflexivity.
Qed.

(** Without the hunk headers, the lines of the groups are the lines of the
    hunks. *)
Lemma filter_group_lines (groups : list (list Opcode)) :
  List.filter (fun line => negb (pystr.startswith line "@@"))
    (flat_map (group_lines a b "") groups)
  = flat_map hunk_lines (map (hunk_of_group a b) groups).
Proof.
  induction groups as [| g groups IH]; [reflexivity |].
  cbn [flat_map map]. unfold group_lines at 1.
  change (List.filter ?f ((?h :: ?l) ++ ?r)) with (List.filter f (h :: (l ++ r))).
  cbn [List.filter].
  assert (Hh : negb (pystr.startswith (hunk_header "" g) "@@") = false) by reflexivity.
  rewrite Hh, List.filter_app, IH, group_lines_ops, filter_hunk_lines. reflexivity.
Qed.

Lemma unified_diff_body (fromfile tofile : string) :
  let diff_lines := unified_diff a b fromfile tofile 0 "" in
  (if (2 <? length diff_lines)%nat
   then List.filter (fun line => negb (pystr.startswith line "@@")) (drop 2 diff_lines)
   else diff_lines)
  = flat_map hunk_lines (diff_hunks a b).
Proof.
  unfold unified_diff, diff_hunks.
  destruct (get_grouped_opcodes a b 0) as [| g groups]; [reflexivity |].
  assert (Hlen : forall h1 h2 : string,
            (2 <? length (h1 :: h2 :: flat_map (group_lines a b "") (g :: groups)))%nat = true).
  { intros h1 h2. reflexivity. }
  cbv zeta. rewrite Hlen. cbn [drop]. apply filter_group_lines.
Qed.

End Difflib.

Lemma concat_empty_cons (x : string) (l : list string) :
  String.concat "" (x :: l) = x +:+ String.concat "" l.
Proof.
  destruct l as [| y l]; cbn [String.concat].
  - induction x as [| c x IH]; [reflexivity |].
    change (String c x +:+ "") with (String c (x +:+ "")). f_equal. exact IH.
  - reflexivity.
Qed.

(** [''.join(s.splitlines(keepends=True)) == s] *)
Lemma join_splitlines (s : string) : pystr.join "" (pystr.splitlines s) = s.
Proof.
  unfold pystr.join.
  enough (H : String.concat "" (pystr.splitlines s) = s
              /\ forall c, String.concat "" (pystr.splitlines (String c s)) = String c s)
    by apply H.
  induction s as [| d s [IH1 IH2]].
  - split; [reflexivity |]. intros c. cbn. destruct (pystr.is_linebreak c); reflexivity.
  - split; [apply IH2 |]. intros c.
    change (pystr.splitlines (String c (String d s)))
      with (if pystr.is_linebreak c then
              if Ascii.eqb c pystr.CR && Ascii.eqb d pystr.LF
              then String c (String d EmptyString) :: pystr.splitlines s
              else String c EmptyString :: pystr.splitlines (String d s)
            else match pystr.splitlines (String d s) with
                 | [] => [String c EmptyString]
                 | l :: ls => String c l :: ls
                 end).
    destruct (pystr.is_linebreak c).
    + destruct (_ && _).
      * rewrite concat_empty_cons, IH1. reflexivity.
      * rewrite concat_empty_cons, (IH2 d). reflexivity.
    + specialize (IH2 d). destruct (pystr.splitlines (String d s)) as [| l ls].
      * cbn in IH2. discriminate IH2.
      * rewrite concat_empty_cons in IH2 |- *.
        change (String c l +:+ String.concat "" ls)
          with (String c (l +:+ String.concat "" ls)).
        rewrite IH2. reflexivity.
Qed.

(** C1 (amended).  For every pair of contents, the zero-context unified diff
    that the generator computes consists of hunks, each with its offset in
    the old file; applied with these offsets to the lines of the old content,
    the hunks give the lines of the new content, which joined are the new
    content; and the body the generator returns is the text of the lines of
    these hunks, the offsets left out. *)
Theorem generate_diff_hunks_roundtrip (old_content new_content path : string) :
  let old_lines := pystr.splitlines old_content in
  let new_lines := pystr.splitlines new_content in
  let hunks := diff_hunks old_lines new_lines in
  patch hunks old_lines = Some new_lines
  /\ pystr.join "" new_lines = new_content
  /\ _generate_diff old_content new_content path
     = pystr.join "" (flat_map hunk_lines hunks).
Proof.
  cbv zeta. split; [apply diff_hunks_patch |]. split; [apply join_splitlines |].
  unfold _generate_diff. cbv zeta. rewrite unified_diff_body. reflexivity.
Qed.

(** Appending the line [b] to the one-line file [a] and putting it in front
    of it give the same body: the offsets that tell the two apart are gone. *)
Example same_body_for_two_new_contents :
  _generate_diff ("a" +:+ nl) ("a" +:+ nl +:+ "b" +:+ nl) "f.txt" = "+b" +:+ nl
  /\ _generate_diff ("a" +:+ nl) ("b" +:+ nl +:+ "a" +:+ nl) "f.txt" = "+b" +:+ nl
  /\ difflib.unified_diff ["a" +:+ nl] ["a" +:+ nl; "b" +:+ nl] "f.txt" "f.txt" 0 ""
     = ["--- f.txt"; "+++ f.txt"; "@@ -1,0 +2 @@"; "+b" +:+ nl]
  /\ difflib.unified_diff ["a" +:+ nl] ["b" +:+ nl; "a" +:+ nl] "f.txt" "f.txt" 0 ""
     = ["--- f.txt"; "+++ f.txt"; "@@ -0,0 +1 @@"; "+b" +:+ nl].
Proof. vm_compute. repeat split. Qed.

(** C1 (counterexample).  No way of applying the body to the old content
    reproduces the new content for every pair: the old content [a] with the
    new contents [a b] and [b a] gives one and the same body. *)
Lemma stripped_body_is_ambiguous :
  ~ exists apply_body : string -> string -> string,
      forall old new p : string, apply_body (_generate_diff old new p) old = new.
Proof.
  intros [apply_body H].
  pose proof (H ("a" +:+ nl) ("a" +:+ nl +:+ "b" +:+ nl) "f.txt") as H1.
  pose proof (H ("a" +:+ nl) ("b" +:+ nl +:+ "a" +:+ nl) "f.txt") as H2.
  destruct same_body_for_two_new_contents as (E1 & E2 & _).
  rewrite E1 in H1. rewrite E2 in H2. rewrite H1 in H2.
  vm_compute in H2. discriminate H2.
Qed.

(** The scenario of the specification: [a.txt] holds [hello], is changed to
    [hello world], and the change is committed after the debounce window. *)
Example scenario_hello_world :
  let old := "hello" +:+ nl in
  let new := "hello world" +:+ nl in
  event_stream
    (run [(env_at 0 [("/repo/a.txt", new)], Modified (file_event "/repo/a.txt"));
          (env_at 100 [("/repo/a.txt", new)], TimerFires 0)]
       (repo_watcher [("/repo/a.txt", old)]))
  = [({| path := "a.txt"; prev_exist := true; old_content := old; new_content := new;
         content := "-hello" +:+ nl +:+ "+hello world" +:+ nl |}, USER)].
Proof. vm_compute. reflexivity. Qed.
Section Reachable.

Context `{!PathMatcher}.

Arguments _generate_diff : simpl never.
Arguments posixpath.relpath : simpl never.
Arguments String.eqb : simpl never.

(** *** The three tables: timers, references, pending paths *)

(** A property of the three tables that the primitive changes keep is kept
    by every action. *)
Section TablesInvariant.

Variable P : FileWatcher -> Prop.

Hypothesis P_same : forall s s',
  timers s' = timers s -> debounce_timers s' = debounce_timers s ->
  pending_changes s' = pending_changes s -> P s -> P s'.
Hypothesis P_schedule : forall env p s,
  swap_or_backup p = false -> P s -> P (_schedule_debounced_change env p s).
Hypothesis P_cancel_pending : forall p s, P s -> P (cancel_pending p s).
Hypothesis P_start : forall env w A C s,
  P s -> P (start_timer env w (handle_delayed_delete A C) s).
Hypothesis P_fire : forall env tid t s,
  timers s !! tid = Some t -> finished t = false ->
  P s -> P (cancel_timer tid (run_callback env (function t) s)).
Hypothesis P_stop : forall s, P s -> P (stop s).

Lemma tables_invariant_step (env : Env) (act : Action) (s : FileWatcher) :
  P s -> P (step env act s).
Proof.
  intros HP. destruct act as [ev | ev | ev | ev | tid |]; cbn [step].
  - destruct (observer_alive s); [| exact HP]. unfold on_created.
    destruct (is_directory ev); [exact HP |].
    destruct (swap_or_backup (src_path ev)) eqn:Hswap; [exact HP |].
    destruct (filtered_out s env (src_path ev)); [exact HP |].
    destruct (rename_scan _ _ _ _); [eapply P_same; [..| exact HP]; reflexivity |].
    destruct (use_debouncing s); [apply P_schedule; assumption |].
    eapply P_same; [..| exact HP]; reflexivity.
  - destruct (observer_alive s); [| exact HP]. unfold on_modified.
    destruct (is_directory ev); [exact HP |].
    destruct (swap_or_backup (src_path ev)) eqn:Hswap; [exact HP |].
    destruct (filtered_out s env (src_path ev)); [exact HP |].
    destruct (use_debouncing s); [apply P_schedule; assumption |].
    destruct (negb _); [eapply P_same; [..| exact HP]; reflexivity | exact HP].
  - destruct (observer_alive s); [| exact HP]. unfold on_deleted.
    destruct (is_directory ev); [exact HP |].
    destruct (swap_or_backup (src_path ev)); [exact HP |].
    pose proof (P_cancel_pending (src_path ev) s HP) as HP1.
    set (s1 := cancel_pending (src_path ev) s) in *.
    destruct (filtered_out s1 env (src_path ev)); [exact HP1 |].
    cbn [use_debouncing set_file_contents].
    destruct (use_debouncing s1).
    + apply P_start. eapply P_same; [..| exact HP1]; reflexivity.
    + eapply P_same; [..| exact HP1]; reflexivity.
  - destruct (observer_alive s); [| exact HP]. unfold on_moved.
    destruct (is_directory ev); [exact HP |].
    pose proof (P_cancel_pending (src_path ev) s HP) as HP1.
    set (s1 := cancel_pending (src_path ev) s) in *.
    destruct (_ || _); [exact HP1 |].
    destruct (filtered_out s1 env (src_path ev)); [exact HP1 |].
    match goal with |- context [negb ?c && ?d] => destruct (negb c && d) end;
      (eapply P_same; [..| exact HP1]; reflexivity).
  - unfold Timer_run. destruct (timers s !! tid) as [t |] eqn:Ht; [| exact HP].
    destruct (finished t) eqn:Hf; [exact HP |].
    eapply P_fire; eassumption.
  - apply P_stop. exact HP.
Qed.

Lemma tables_invariant_run (sched : list (Env * Action)) :
  forall s, P s -> P (run sched s).
Proof.
  induction sched as [| [env act] sched IH]; intros s HP; cbn [run]; [exact HP |].
  apply IH. apply tables_invariant_step. exact HP.
Qed.

End TablesInvariant.


(** What the two callbacks and [cancel_pending] do to the tables. *)
Lemma debounced_change_tables (env : Env) (p : string) (s : FileWatcher) :
  let s' := _handle_debounced_change env p s in
  timers s' = timers s
  /\ debounce_timers s'
     = (if bool_decide (p ∈ pending_changes s) then delete p (debounce_timers s)
        else debounce_timers s)
  /\ pending_changes s'
     = (if bool_decide (p ∈ pending_changes s) then pending_changes s ∖ {[p]}
        else pending_changes s).
Proof.
  unfold _handle_debounced_change.
  destruct (bool_decide (p ∈ pending_changes s)); [| auto].
  match goal with |- context [filtered_out ?x env p] => destruct (filtered_out x env p) end;
    [auto |].
  destruct (swap_or_backup p); [auto |].
  match goal with |- context [negb ?c] => destruct (negb c) end; auto.
Qed.

Lemma delayed_delete_tables (env : Env) (A C : string) (s : FileWatcher) :
  let s' := _handle_delayed_delete env A C s in
  timers s' = timers s /\ debounce_timers s' = debounce_timers s
  /\ pending_changes s' = pending_changes s /\ file_contents s' = file_contents s
  /\ observer_alive s' = observer_alive s.
Proof.
  unfold _handle_delayed_delete. destruct (odict.mem A (recent_deletes s)); auto 6.
Qed.

Lemma cancel_pending_unfold (p : string) (s : FileWatcher) :
  let s' := cancel_pending p s in
  timers s' = match debounce_timers s !! p with
              | Some tid => alter cancel tid (timers s)
              | None => timers s
              end
  /\ debounce_timers s' = delete p (debounce_timers s)
  /\ pending_changes s' = match debounce_timers s !! p with
                          | Some _ => pending_changes s ∖ {[p]}
                          | None => pending_changes s
                          end.
Proof.
  unfold cancel_pending. destruct (debounce_timers s !! p) eqn:Hp; [auto |].
  repeat split. symmetry. apply delete_id. exact Hp.
Qed.

Lemma stop_tables (s : FileWatcher) :
  timers (stop s)
  = fold_right (fun tid ts => alter cancel tid ts) (timers s)
      (map snd (map_to_list (debounce_timers s)))
  /\ debounce_timers (stop s) = debounce_timers s
  /\ pending_changes (stop s) = pending_changes s
  /\ file_contents (stop s) = file_contents s
  /\ event_stream (stop s) = event_stream s
  /\ observer_alive (stop s) = false.
Proof.
  unfold stop. cbn. rewrite timers_fold_cancel.
  induction (map snd (map_to_list (debounce_timers s))) as [| x l IH]; [auto 6 |].
  cbn. destruct IH as (_ & -> & -> & -> & -> & _). auto 6.
Qed.

(** An unfinished timer of an altered list is an unfinished timer of the
    list, and not the one cancelled. *)
Lemma alter_cancel_unfinished (ts : list Timer) (tid0 tid : nat) (t : Timer) :
  alter cancel tid0 ts !! tid = Some t -> finished t = false ->
  tid <> tid0 /\ ts !! tid = Some t.
Proof.
  intros Ht Hf. destruct (decide (tid = tid0)) as [-> | Hne].
  - rewrite list_lookup_alter_eq in Ht. destruct (ts !! tid0); [| discriminate Ht].
    cbn in Ht. injection Ht as <-. discriminate Hf.
  - rewrite list_lookup_alter_ne in Ht by auto. auto.
Qed.

Lemma pending_tracked_run (sched : list (Env * Action)) (s : FileWatcher) :
  pending_tracked s -> pending_tracked (run sched s).
Proof.
  apply tables_invariant_run.
  - intros s0 s' _ Hdt Hpc HP q. rewrite Hdt, Hpc. apply HP.
  - intros env p s0 _ HP q.
    pose proof (schedule_tables env p s0) as (_ & _ & _ & -> & -> & _).
    rewrite elem_of_union, elem_of_singleton, (HP q).
    destruct (decide (p = q)) as [<- | Hne].
    + rewrite lookup_insert_eq. split; [eauto | auto].
    + rewrite lookup_insert_ne by exact Hne. split; [intros [? | ?]; congruence || auto | auto].
  - intros p s0 HP q.
    pose proof (cancel_pending_unfold p s0) as (_ & -> & ->).
    destruct (decide (p = q)) as [<- | Hne].
    + rewrite lookup_delete_eq. destruct (debounce_timers s0 !! p) eqn:Hp.
      * rewrite elem_of_difference, elem_of_singleton. split; [tauto | intros [? [=]]].
      * rewrite (HP p), Hp. tauto.
    + rewrite lookup_delete_ne by exact Hne. rewrite <- (HP q).
      destruct (debounce_timers s0 !! p); [| tauto].
      rewrite elem_of_difference, elem_of_singleton. split; [tauto | auto].
  - intros env w A C s0 HP. exact HP.
  - intros env tid t s0 _ _ HP q. cbn [cancel_timer set_timers debounce_timers pending_changes].
    destruct (function t) as [p | A C]; cbn [run_callback].
    + pose proof (debounced_change_tables env p s0) as (_ & -> & ->).
      destruct (bool_decide_reflect (p ∈ pending_changes s0)) as [Hin | Hnin]; [| apply HP].
      destruct (decide (p = q)) as [<- | Hne].
      * rewrite lookup_delete_eq, elem_of_difference, elem_of_singleton.
        split; [tauto | intros [? [=]]].
      * rewrite lookup_delete_ne by exact Hne. rewrite <- (HP q).
        rewrite elem_of_difference, elem_of_singleton. split; [tauto | auto].
    + pose proof (delayed_delete_tables env A C s0) as (_ & -> & -> & _). apply HP.
  - intros s0 HP q. pose proof (stop_tables s0) as (_ & -> & -> & _). apply HP.
Qed.

Lemma debounce_timers_live_run (sched : list (Env * Action)) (s : FileWatcher) :
  debounce_timers_live s -> debounce_timers_live (run sched s).
Proof.
  apply tables_invariant_run.
  - intros s0 s' Hts Hdt Hpc HP tid t q. rewrite Hts, Hdt, Hpc. apply HP.
  - intros env p s0 _ HP tid t q Ht Hf Hfun.
    pose proof (schedule_tables env p s0) as (_ & _ & _ & Hpc & Hdt & _).
    rewrite (schedule_timers env p s0) in Ht. rewrite Hpc, Hdt.
    set (ts := match debounce_timers s0 !! p with
               | Some tid0 => alter cancel tid0 (timers s0)
               | None => timers s0
               end) in *.
    assert (Hlen : length ts = length (timers s0)).
    { unfold ts. destruct (debounce_timers s0 !! p); [apply length_alter | reflexivity]. }
    apply lookup_app_Some in Ht as [Ht | [Hge Ht]].
    + assert (Hold : timers s0 !! tid = Some t /\ debounce_timers s0 !! p <> Some tid).
      { unfold ts in Ht. destruct (debounce_timers s0 !! p) as [tid0 |] eqn:Hp.
        - apply alter_cancel_unfinished in Ht as [Hne Ht]; [| exact Hf].
          split; [exact Ht | congruence].
        - split; [exact Ht | discriminate]. }
      destruct Hold as [Hold Hnp]. destruct (HP tid t q Hold Hf Hfun) as [Hq Hin].
      assert (p <> q) by (intros ->; contradiction).
      rewrite lookup_insert_ne by assumption. split; [exact Hq |].
      apply elem_of_union. left. exact Hin.
    + destruct (tid - length ts)%nat as [| n] eqn:Hn; [| destruct n; discriminate Ht].
      cbn in Ht. injection Ht as <-. cbn in Hfun. injection Hfun as <-.
      replace tid with (length (timers s0)) by lia.
      rewrite lookup_insert_eq. split; [reflexivity |].
      apply elem_of_union. right. apply elem_of_singleton. reflexivity.
  - intros p s0 HP tid t q Ht Hf Hfun.
    pose proof (cancel_pending_unfold p s0) as (Hts & Hdt & Hpc).
    rewrite Hts in Ht. rewrite Hdt, Hpc.
    destruct (debounce_timers s0 !! p) as [tid0 |] eqn:Hp.
    + apply alter_cancel_unfinished in Ht as [Hne Ht]; [| exact Hf].
      destruct (HP tid t q Ht Hf Hfun) as [Hq Hin].
      assert (p <> q) by congruence.
      rewrite lookup_delete_ne by assumption. split; [exact Hq |].
      apply elem_of_difference. split; [exact Hin |].
      rewrite elem_of_singleton. congruence.
    + destruct (HP tid t q Ht Hf Hfun) as [Hq Hin].
      assert (p <> q) by congruence.
      rewrite lookup_delete_ne by assumption. auto.
  - intros env w A C s0 HP tid t q Ht Hf Hfun.
    cbn [start_timer set_timers timers debounce_timers pending_changes] in *.
    apply lookup_app_Some in Ht as [Ht | [Hge Ht]]; [eapply HP; eassumption |].
    destruct (tid - length (timers s0))%nat as [| n]; [| destruct n; discriminate Ht].
    cbn in Ht. injection Ht as <-. discriminate Hfun.
  - intros env tid0 t0 s0 Ht0 Hf0 HP tid t q Ht Hf Hfun.
    cbn [cancel_timer set_timers timers debounce_timers pending_changes] in *.
    apply alter_cancel_unfinished in Ht as [Hne Ht]; [| exact Hf].
    destruct (function t0) as [p | A C] eqn:Hfun0; cbn [run_callback] in *.
    + pose proof (debounced_change_tables env p s0) as (Hts & -> & ->).
      rewrite Hts in Ht. destruct (HP tid t q Ht Hf Hfun) as [Hq Hin].
      destruct (bool_decide (p ∈ pending_changes s0)); [| auto].
      destruct (HP tid0 t0 p Ht0 Hf0 Hfun0) as [Hp _].
      assert (p <> q) by congruence.
      rewrite lookup_delete_ne by assumption. split; [exact Hq |].
      apply elem_of_difference. split; [exact Hin |].
      rewrite elem_of_singleton. congruence.
    + pose proof (delayed_delete_tables env A C s0) as (Hts & -> & -> & _).
      rewrite Hts in Ht. eapply HP; eassumption.
  - intros s0 HP tid t q Ht Hf Hfun.
    pose proof (stop_tables s0) as (Hts & -> & -> & _). rewrite Hts in Ht.
    apply fold_cancel_lookup in Ht as (_ & t0 & Ht0 & Hfin & Hfun0).
    apply (HP tid t0 q Ht0); [| congruence].
    destruct (finished t0); [| reflexivity]. rewrite Hfin in Hf by reflexivity. discriminate Hf.
Qed.

Lemma fresh_pending_tracked (s : FileWatcher) : fresh s -> pending_tracked s.
Proof.
  intros (_ & Hdt & Hpc) p. rewrite Hdt, Hpc, lookup_empty.
  split; [intros Hin; apply elem_of_empty in Hin; contradiction | intros [? [=]]].
Qed.

Lemma fresh_debounce_timers_live (s : FileWatcher) : fresh s -> debounce_timers_live s.
Proof. intros (Hts & _) tid t p Ht. rewrite Hts in Ht. discriminate Ht. Qed.

Lemma pending_not_swap_run (sched : list (Env * Action)) (s : FileWatcher) :
  pending_not_swap s -> pending_not_swap (run sched s).
Proof.
  apply tables_invariant_run.
  - intros s0 s' _ _ Hpc HP q. rewrite Hpc. apply HP.
  - intros env p s0 Hswap HP q.
    pose proof (schedule_tables env p s0) as (_ & _ & _ & -> & _).
    rewrite elem_of_union, elem_of_singleton. intros [Hin | ->]; [apply HP; exact Hin | exact Hswap].
  - intros p s0 HP q. pose proof (cancel_pending_unfold p s0) as (_ & _ & ->).
    destruct (debounce_timers s0 !! p); [| apply HP].
    rewrite elem_of_difference. intros [Hin _]. apply HP. exact Hin.
  - intros env w A C s0 HP. exact HP.
  - intros env tid t s0 _ _ HP q. cbn [cancel_timer set_timers pending_changes].
    destruct (function t) as [p | A C]; cbn [run_callback].
    + pose proof (debounced_change_tables env p s0) as (_ & _ & ->).
      destruct (bool_decide (p ∈ pending_changes s0)); [| apply HP].
      rewrite elem_of_difference. intros [Hin _]. apply HP. exact Hin.
    + pose proof (delayed_delete_tables env A C s0) as (_ & _ & -> & _). apply HP.
  - intros s0 HP q. pose proof (stop_tables s0) as (_ & _ & -> & _). apply HP.
Qed.

End Reachable.
Section Streams.

Context `{!PathMatcher}.

Arguments _generate_diff : simpl never.
Arguments posixpath.relpath : simpl never.
Arguments String.eqb : simpl never.

(** *** The event stream *)

Ltac emits_nothing := exists []; rewrite app_nil_r; split; [reflexivity | constructor].
Ltac emits_one :=
  eexists [_]; split; [reflexivity |];
  constructor; [repeat split; cbn; congruence | constructor].

Lemma debounced_change_emits (env : Env) (p : string) (s : FileWatcher) :
  exists new, event_stream (_handle_debounced_change env p s) = event_stream s ++ new
              /\ Forall observation_ok new.
Proof.
  unfold _handle_debounced_change.
  destruct (bool_decide (p ∈ pending_changes s)); [| emits_nothing].
  match goal with |- context [filtered_out ?x env p] => destruct (filtered_out x env p) end;
    [emits_nothing |].
  destruct (swap_or_backup p); [emits_nothing |].
  match goal with |- context [negb ?c] => destruct (negb c) end;
    [emits_one | emits_nothing].
Qed.

Lemma delayed_delete_emits_deletion (env : Env) (A C : string) (s : FileWatcher) :
  exists new, event_stream (_handle_delayed_delete env A C s) = event_stream s ++ new
              /\ Forall observation_ok new /\ Forall is_deletion new.
Proof.
  unfold _handle_delayed_delete. destruct (odict.mem A (recent_deletes s)).
  - eexists [_]. split; [reflexivity |].
    split; (constructor; [repeat split; cbn; congruence | constructor]).
  - exists []. rewrite app_nil_r. repeat split; constructor.
Qed.

Lemma fold_cancel_event_stream (l : list nat) (s : FileWatcher) :
  event_stream (fold_right cancel_timer s l) = event_stream s.
Proof. induction l as [| x l IH]; [reflexivity | exact IH]. Qed.

Lemma step_emits (env : Env) (act : Action) (s : FileWatcher) :
  exists new, event_stream (step env act s) = event_stream s ++ new
              /\ Forall observation_ok new.
Proof.
  destruct act as [ev | ev | ev | ev | tid |]; cbn [step].
  - destruct (observer_alive s); [| emits_nothing]. unfold on_created.
    destruct (is_directory ev); [emits_nothing |].
    destruct (swap_or_backup (src_path ev)); [emits_nothing |].
    destruct (filtered_out s env (src_path ev)); [emits_nothing |].
    destruct (rename_scan _ _ _ _); [emits_nothing |].
    destruct (use_debouncing s); [| emits_one].
    pose proof (schedule_tables env (src_path ev) s) as (-> & _). emits_nothing.
  - destruct (observer_alive s); [| emits_nothing]. unfold on_modified.
    destruct (is_directory ev); [emits_nothing |].
    destruct (swap_or_backup (src_path ev)); [emits_nothing |].
    destruct (filtered_out s env (src_path ev)); [emits_nothing |].
    destruct (use_debouncing s).
    + pose proof (schedule_tables env (src_path ev) s) as (-> & _). emits_nothing.
    + destruct (negb _); [emits_one | emits_nothing].
  - destruct (observer_alive s); [| emits_nothing]. unfold on_deleted.
    destruct (is_directory ev); [emits_nothing |].
    destruct (swap_or_backup (src_path ev)); [emits_nothing |].
    pose proof (cancel_pending_tables (src_path ev) s) as (Hes & _).
    set (s1 := cancel_pending (src_path ev) s) in *.
    destruct (filtered_out s1 env (src_path ev)); [rewrite Hes; emits_nothing |].
    cbn [use_debouncing set_file_contents].
    destruct (use_debouncing s1); cbn; rewrite Hes; [emits_nothing | emits_one].
  - destruct (observer_alive s); [| emits_nothing]. unfold on_moved.
    destruct (is_directory ev); [emits_nothing |].
    pose proof (cancel_pending_tables (src_path ev) s) as (Hes & _).
    set (s1 := cancel_pending (src_path ev) s) in *.
    destruct (_ || _); [rewrite Hes; emits_nothing |].
    destruct (filtered_out s1 env (src_path ev)); [rewrite Hes; emits_nothing |].
    match goal with |- context [negb ?c && ?d] => destruct (negb c && d) end;
      cbn; rewrite Hes.
    + eexists [_; _]. rewrite <- app_assoc. split; [reflexivity |].
      repeat constructor; cbn; congruence.
    + emits_one.
  - unfold Timer_run. destruct (timers s !! tid) as [t |]; [| emits_nothing].
    destruct (finished t); [emits_nothing |].
    cbn [cancel_timer set_timers event_stream].
    destruct (function t) as [p | A C]; cbn [run_callback].
    + apply debounced_change_emits.
    + destruct (delayed_delete_emits_deletion env A C s) as (new & Hnew & Hok & _). eauto.
  - pose proof (stop_tables s) as (_ & _ & _ & _ & -> & _). emits_nothing.
Qed.

Lemma run_emits (sched : list (Env * Action)) :
  forall s, exists new, event_stream (run sched s) = event_stream s ++ new
                        /\ Forall observation_ok new.
Proof.
  induction sched as [| [env act] sched IH]; intros s; cbn [run].
  - exists []. rewrite app_nil_r. split; [reflexivity | constructor].
  - destruct (IH (step env act s)) as (new2 & H2 & Hok2).
    destruct (step_emits env act s) as (new1 & H1 & Hok1).
    exists (new1 ++ new2). rewrite H2, H1, app_assoc. split; [reflexivity |].
    apply Forall_app. auto.
Qed.

(** *** After [stop()] *)

Lemma stop_stopped (s : FileWatcher) : debounce_timers_live s -> stopped (stop s).
Proof.
  intros Hlive. pose proof (stop_tables s) as (Hts & _ & _ & _ & _ & Halive).
  split; [exact Halive |]. intros tid t p Ht Hfun.
  pose proof Ht as Ht'. rewrite Hts in Ht'.
  apply fold_cancel_lookup in Ht' as (_ & t0 & Ht0 & Hfin & Hfun0).
  destruct (finished t0) eqn:Hf0; [apply Hfin; reflexivity |].
  destruct (Hlive tid t0 p Ht0 Hf0) as [Hp _]; [congruence |].
  eapply stop_cancels_debounce_timers; eassumption.
Qed.

Lemma stopped_step (env : Env) (act : Action) (s : FileWatcher) :
  stopped s ->
  stopped (step env act s)
  /\ file_contents (step env act s) = file_contents s
  /\ exists new, event_stream (step env act s) = event_stream s ++ new
                 /\ Forall is_deletion new.
Proof.
  intros [Halive Hfin].
  assert (Hnone : exists new, event_stream s = event_stream s ++ new /\ Forall is_deletion new).
  { exists []. rewrite app_nil_r. split; [reflexivity | constructor]. }
  destruct act as [ev | ev | ev | ev | tid |]; cbn [step]; rewrite ?Halive;
    try (split; [split; assumption | split; [reflexivity | exact Hnone]]).
  - unfold Timer_run. destruct (timers s !! tid) as [t |] eqn:Ht;
      [| split; [split; assumption | split; [reflexivity | exact Hnone]]].
    destruct (finished t) eqn:Hf;
      [split; [split; assumption | split; [reflexivity | exact Hnone]] |].
    destruct (function t) as [p | A C] eqn:Hfun.
    { rewrite (Hfin tid t p Ht Hfun) in Hf. discriminate Hf. }
    cbn [run_callback].
    pose proof (delayed_delete_tables env A C s) as (Hts & _ & _ & Hfc & Hal).
    split; [| split].
    + split; [cbn; rewrite Hal; exact Halive |].
      intros tid' t' p Ht' Hfun'. cbn [cancel_timer set_timers timers] in Ht'.
      rewrite Hts in Ht'. destruct (finished t') eqn:Hf'; [reflexivity |].
      apply alter_cancel_unfinished in Ht' as [_ Ht']; [| exact Hf'].
      rewrite (Hfin tid' t' p Ht' Hfun') in Hf'. discriminate Hf'.
    + cbn. exact Hfc.
    + cbn [cancel_timer set_timers event_stream].
      destruct (delayed_delete_emits_deletion env A C s) as (new & Hnew & _ & Hdel). eauto.
  - pose proof (stop_tables s) as (Hts & _ & _ & Hfc & Hes & Hal).
    split; [| split; [exact Hfc | rewrite Hes; exact Hnone]].
    split; [exact Hal |]. intros tid t p Ht Hfun. rewrite Hts in Ht.
    apply fold_cancel_lookup in Ht as (_ & t0 & Ht0 & Hfin0 & Hfun0).
    apply Hfin0. apply (Hfin tid t0 p Ht0). congruence.
Qed.

Lemma stopped_run (sched : list (Env * Action)) :
  forall s, stopped s ->
    file_contents (run sched s) = file_contents s
    /\ exists new, event_stream (run sched s) = event_stream s ++ new
                   /\ Forall is_deletion new.
Proof.
  induction sched as [| [env act] sched IH]; intros s Hs; cbn [run].
  - split; [reflexivity |]. exists []. rewrite app_nil_r. split; [reflexivity | constructor].
  - destruct (stopped_step env act s Hs) as (Hs1 & Hfc1 & new1 & Hes1 & Hdel1).
    destruct (IH _ Hs1) as (Hfc2 & new2 & Hes2 & Hdel2).
    split; [congruence |]. exists (new1 ++ new2).
    rewrite Hes2, Hes1, app_assoc. split; [reflexivity |]. apply Forall_app. auto.
Qed.

End Streams.
(** ** Properties of every reachable state *)

Section ReachableStates.

Context `{!PathMatcher}.

Arguments _generate_diff : simpl never.
Arguments posixpath.relpath : simpl never.
Arguments String.eqb : simpl never.

(** X1.  In a run in which the handlers, the timer callbacks and [stop()]
    execute one at a time (a schedule), from a watcher whose tables start
    empty: after every action the set [pending_changes] holds exactly the
    paths that have an entry in [debounce_timers]. *)
Theorem pending_changes_are_the_debounced_paths
    (s0 : FileWatcher) (sched : list (Env * Action)) (p : string) :
  fresh s0 ->
  p ∈ pending_changes (run sched s0) <-> is_Some (debounce_timers (run sched s0) !! p).
Proof.
  intros Hfresh. apply pending_tracked_run. apply fresh_pending_tracked. exact Hfresh.
Qed.

(** X2.  In a run in which the handlers, the timer callbacks and [stop()]
    execute one at a time (a schedule), from a watcher whose tables start
    empty: after every action a debounce timer that can still run (it has
    neither run nor been cancelled) is the timer that [debounce_timers]
    holds for its path, and its path has a pending change; so no path has
    two such timers. *)
Theorem one_outstanding_debounce_timer_per_path
    (s0 : FileWatcher) (sched : list (Env * Action))
    (tid : nat) (t : Timer) (p : string) :
  fresh s0 ->
  let s := run sched s0 in
  timers s !! tid = Some t -> finished t = false ->
  function t = handle_debounced_change p ->
  debounce_timers s !! p = Some tid
  /\ p ∈ pending_changes s
  /\ (forall tid' t', timers s !! tid' = Some t' -> finished t' = false ->
        function t' = handle_debounced_change p -> tid' = tid).
Proof.
  intros Hfresh s Ht Hf Hfun.
  assert (Hlive : debounce_timers_live s).
  { apply debounce_timers_live_run. apply fresh_debounce_timers_live. exact Hfresh. }
  destruct (Hlive tid t p Ht Hf Hfun) as [Hp Hin].
  split; [exact Hp |]. split; [exact Hin |].
  intros tid' t' Ht' Hf' Hfun'. destruct (Hlive tid' t' p Ht' Hf' Hfun') as [Hp' _].
  congruence.
Qed.

(** X3.  In a run in which the handlers, the timer callbacks and [stop()]
    execute one at a time (a schedule; in particular no handler runs between
    the two parts of [stop()]), from a watcher whose tables start empty:
    once [stop()] has returned, the content cache never changes again and
    the only observations still emitted are reports of deletions (from the
    rename timers); no debounced change is committed after [stop()]. *)
Theorem after_stop_only_deletions
    (s0 : FileWatcher) (sched0 sched : list (Env * Action)) :
  fresh s0 ->
  let s := stop (run sched0 s0) in
  file_contents (run sched s) = file_contents s
  /\ exists new, event_stream (run sched s) = event_stream s ++ new
                 /\ Forall is_deletion new.
Proof.
  intros Hfresh s. apply stopped_run. apply stop_stopped.
  apply debounce_timers_live_run. apply fresh_debounce_timers_live. exact Hfresh.
Qed.

(** X6.  Every observation a watcher emits is tagged as coming from the
    user, its [content] is [_generate_diff] of its own old and new content
    under its own path, and [prev_exist=False] comes with an empty old
    content. *)
Theorem observations_well_formed (sched : list (Env * Action)) (s : FileWatcher) :
  Forall observation_ok (event_stream s) ->
  Forall observation_ok (event_stream (run sched s)).
Proof.
  intros Hs. destruct (run_emits sched s) as (new & -> & Hnew). apply Forall_app. auto.
Qed.

(** X24.  No swap or backup file ever gets a pending change: the paths in
    [pending_changes] all fail the swap-file test, so the test of
    [_handle_debounced_change] on swap files never stops a commit that a
    timer of the watcher asks for. *)
Theorem pending_changes_never_hold_swap_files
    (s0 : FileWatcher) (sched : list (Env * Action)) (p : string) :
  fresh s0 ->
  p ∈ pending_changes (run sched s0) -> swap_or_backup p = false.
Proof.
  intros (_ & _ & Hpc). apply pending_not_swap_run.
  intros q Hq. rewrite Hpc in Hq. apply elem_of_empty in Hq. contradiction.
Qed.

End ReachableStates.

Lemma pending_changes_are_the_debounced_paths_witness :
  fresh (repo_watcher [])
  /\ ("/repo/a.txt" ∈ pending_changes
        (run [(env_at 0 [], Modified (file_event "/repo/a.txt"))] (repo_watcher []))
      <-> is_Some (debounce_timers
                     (run [(env_at 0 [], Modified (file_event "/repo/a.txt"))]
                        (repo_watcher [])) !! "/repo/a.txt")).
Proof.
  assert (Hfresh : fresh (repo_watcher [])) by (repeat split).
  split; [exact Hfresh |].
  apply (pending_changes_are_the_debounced_paths (repo_watcher [])
           [(env_at 0 [], Modified (file_event "/repo/a.txt"))] "/repo/a.txt" Hfresh).
Defined.

Lemma one_outstanding_debounce_timer_per_path_witness :
  let s := run [(env_at 0 [], Modified (file_event "/repo/a.txt"));
                (env_at 50 [], Modified (file_event "/repo/a.txt"))] (repo_watcher []) in
  let t := {| interval := 100; started := 50;
              function := handle_debounced_change "/repo/a.txt"; finished := false |} in
  length (timers s) = 2%nat
  /\ timers s !! 1%nat = Some t
  /\ debounce_timers s !! "/repo/a.txt" = Some 1%nat
  /\ "/repo/a.txt" ∈ pending_changes s
  /\ (forall tid' t', timers s !! tid' = Some t' -> finished t' = false ->
        function t' = handle_debounced_change "/repo/a.txt" -> tid' = 1%nat).
Proof.
  intros s t.
  assert (Hfresh : fresh (repo_watcher [])) by (repeat split).
  assert (Ht : timers s !! 1%nat = Some t) by (vm_compute; reflexivity).
  split; [vm_compute; reflexivity |]. split; [exact Ht |].
  exact (one_outstanding_debounce_timer_per_path (repo_watcher []) _ 1 t "/repo/a.txt"
           Hfresh Ht eq_refl eq_refl).
Defined.

Lemma after_stop_only_deletions_witness :
  let sched0 := [(env_at 0 [], Deleted (file_event "/repo/a.txt"))] in
  let sched := [(env_at 100 [], TimerFires 0)] in
  let s := stop (run sched0 (repo_watcher [("/repo/a.txt", "x")])) in
  fresh (repo_watcher [("/repo/a.txt", "x")])
  /\ file_contents (run sched s) = file_contents s
  /\ exists new, event_stream (run sched s) = event_stream s ++ new
                 /\ Forall is_deletion new.
Proof.
  intros sched0 sched s.
  assert (Hfresh : fresh (repo_watcher [("/repo/a.txt", "x")])) by (repeat split).
  split; [exact Hfresh |].
  exact (after_stop_only_deletions (repo_watcher [("/repo/a.txt", "x")]) sched0 sched Hfresh).
Defined.

Lemma observations_well_formed_witness :
  let sched := [(env_at 0 [("/repo/a.txt", "y")], Modified (file_event "/repo/a.txt"))] in
  Forall observation_ok (event_stream (repo_watcher_immediate [("/repo/a.txt", "x")]))
  /\ Forall observation_ok
       (event_stream (run sched (repo_watcher_immediate [("/repo/a.txt", "x")]))).
Proof.
  intros sched.
  assert (H0 : Forall observation_ok
                 (event_stream (repo_watcher_immediate [("/repo/a.txt", "x")])))
    by constructor.
  split; [exact H0 |].
  exact (observations_well_formed sched (repo_watcher_immediate [("/repo/a.txt", "x")]) H0).
Defined.

Lemma pending_changes_never_hold_swap_files_witness :
  let s := run [(env_at 0 [], Modified (file_event "/repo/a.txt"))] (repo_watcher []) in
  "/repo/a.txt" ∈ pending_changes s /\ swap_or_backup "/repo/a.txt" = false.
Proof.
  intros s.
  assert (Hfresh : fresh (repo_watcher [])) by (repeat split).
  assert (Hin : "/repo/a.txt" ∈ pending_changes s)
    by (apply (bool_decide_unpack _); vm_compute; exact I).
  split; [exact Hin |].
  exact (pending_changes_never_hold_swap_files (repo_watcher [])
           [(env_at 0 [], Modified (file_event "/repo/a.txt"))] "/repo/a.txt" Hfresh Hin).
Defined.
(** ** How the handlers compose *)

Section Compositions.

Context `{!PathMatcher}.

Arguments _generate_diff : simpl never.
Arguments posixpath.relpath : simpl never.
Arguments String.eqb : simpl never.

(** X7.  In immediate mode a modify event that is delivered a second time,
    with the file unchanged in between, has no further effect: the first
    delivery brings the cache up to date. *)
Theorem on_modified_immediate_idempotent
    (env : Env) (ev : FileSystemEvent) (s : FileWatcher) :
  use_debouncing s = false ->
  on_modified env ev (on_modified env ev s) = on_modified env ev s.
Proof.
  intros Himm. unfold on_modified at 2.
  destruct (is_directory ev) eqn:Hdir; [unfold on_modified; rewrite Hdir; reflexivity |].
  destruct (swap_or_backup (src_path ev)) eqn:Hswap;
    [unfold on_modified; rewrite Hdir, Hswap; reflexivity |].
  destruct (filtered_out s env (src_path ev)) eqn:Hfilt;
    [unfold on_modified; rewrite Hdir, Hswap, Hfilt; reflexivity |].
  rewrite Himm.
  destruct (String.eqb (default "" (file_contents s !! src_path ev))
              (_read_file_content env (src_path ev))) eqn:Heq; cbn [negb].
  - unfold on_modified. rewrite Hdir, Hswap, Hfilt, Himm, Heq. reflexivity.
  - set (s' := add_event _ _).
    assert (Hcfg : same_config s s') by (repeat split).
    unfold on_modified. rewrite Hdir, Hswap, (filtered_out_same_config s s' env _ Hcfg), Hfilt.
    change (use_debouncing s') with (use_debouncing s). rewrite Himm.
    change (file_contents s')
      with (<[src_path ev := _read_file_content env (src_path ev)]> (file_contents s)).
    rewrite lookup_insert_eq. cbn [default]. rewrite String.eqb_refl, Heq. reflexivity.
Qed.

(** X8.  In immediate mode a move of a watched file is handled exactly like
    a delete event for the source followed by a create event for the
    destination, provided the destination then reads as the content cached
    for the source (the move handler does not read the file, it carries the
    cached content over) and no recent delete stands for a rename. *)
Theorem on_moved_is_delete_then_create
    (env : Env) (src dest : string) (s : FileWatcher) :
  use_debouncing s = false ->
  swap_or_backup src = false -> swap_or_backup dest = false ->
  filtered_out s env src = false ->
  (filtered_out s env dest = false ->
   _read_file_content env dest = default "" (file_contents s !! src)
   /\ rename_scan (time env) (rename_window s) (_read_file_content env dest)
        (recent_deletes s) = None) ->
  on_moved env (move_event src dest) s
  = on_created env (file_event dest) (on_deleted env (file_event src) s).
Proof.
  intros Himm Hsrc Hdest Hfilt Hread.
  pose proof (cancel_pending_tables src s) as (_ & Hfc & Hrd & _ & Hud & Hrw & _).
  pose proof (cancel_pending_config src s) as Hcfg.
  unfold on_moved, on_deleted.
  cbn [is_directory src_path dest_path move_event file_event].
  rewrite Hsrc, Hdest. cbn [orb].
  set (s1 := cancel_pending src s) in *.
  rewrite (filtered_out_same_config s s1 env src Hcfg), Hfilt.
  cbn [use_debouncing set_file_contents]. rewrite Hud, Himm, Hfc.
  set (old := default "" (file_contents s !! src)).
  set (del := {| path := posixpath.relpath env src (directory s1); prev_exist := true;
                 old_content := old; new_content := ""; content := _ |}).
  set (sD := add_event del (set_file_contents (delete src) s1)).
  assert (HcfgD : same_config s sD).
  { eapply same_config_trans; [exact Hcfg |]. repeat split. }
  change (set_file_contents (delete src) (add_event del s1)) with sD.
  unfold on_created. cbn [is_directory src_path file_event]. rewrite Hdest.
  rewrite (filtered_out_same_config s sD env dest HcfgD).
  assert (Hcond : negb (_should_ignore sD env dest) && _should_watch sD env dest
                  = negb (filtered_out s env dest)).
  { rewrite <- (filtered_out_same_config s sD env dest HcfgD). unfold filtered_out.
    destruct (_should_ignore sD env dest), (_should_watch sD env dest); reflexivity. }
  rewrite Hcond. destruct (filtered_out s env dest) eqn:Hfd; cbn [negb]; [reflexivity |].
  destruct (Hread eq_refl) as [Hr Hscan].
  subst sD del.
  cbn [rename_window recent_deletes use_debouncing add_event set_event_stream
       set_file_contents].
  rewrite Hrw, Hrd, Hscan, Hud, Himm, Hr. reflexivity.
Qed.

(** X9.  In debounced mode a delete event that no create event follows is
    reported when its rename timer runs, and only then: one observation
    with [prev_exist=True], the content cached at the time of the delete as
    old content and an empty new content; after it the path is neither in
    the cache nor among the recent deletes. *)
Theorem delete_reported_when_its_timer_runs
    (env0 env1 : Env) (ev : FileSystemEvent) (s : FileWatcher) :
  use_debouncing s = true ->
  is_directory ev = false ->
  swap_or_backup (src_path ev) = false ->
  filtered_out s env0 (src_path ev) = false ->
  let A := src_path ev in
  let old := default "" (file_contents s !! A) in
  let rel := posixpath.relpath env1 A (directory s) in
  let s1 := on_deleted env0 ev s in
  let s2 := Timer_run env1 (length (timers s)) s1 in
  event_stream s1 = event_stream s
  /\ event_stream s2
     = event_stream s ++ [({| path := rel; prev_exist := true; old_content := old;
                              new_content := ""; content := _generate_diff old "" rel |}, USER)]
  /\ file_contents s2 !! A = None
  /\ odict.get A (recent_deletes s2) = None.
Proof.
  intros Hdeb Hdir Hswap Hfilt A old rel s1 s2.
  pose proof (on_deleted_debounced env0 ev s Hdir Hswap Hfilt Hdeb)
    as (Hcfg & Hes & Hfc & Hrd & Hts & _).
  fold A old s1 in Hcfg, Hes, Hfc, Hrd, Hts.
  pose proof (cancel_pending_tables A s) as (_ & _ & _ & Hlen & _).
  set (t := {| interval := rename_window s; started := time env0;
               function := handle_delayed_delete A old; finished := false |}) in *.
  assert (Ht : timers s1 !! length (timers s) = Some t).
  { rewrite Hts. apply lookup_appended. symmetry. exact Hlen. }
  assert (Hmem : odict.mem A (recent_deletes s1) = true).
  { rewrite Hrd. apply odict_mem_set. }
  assert (Hs2 : s2 = cancel_timer (length (timers s))
                       (set_recent_deletes (odict.pop A)
                          (add_event {| path := posixpath.relpath env1 A (directory s1);
                                        prev_exist := true; old_content := old;
                                        new_content := "";
                                        content := _generate_diff old ""
                                                     (posixpath.relpath env1 A (directory s1)) |}
                             s1))).
  { unfold s2. rewrite (delayed_delete_fires env1 _ t A old s1 Ht eq_refl eq_refl).
    rewrite (delayed_delete_emits env1 A old s1 Hmem). reflexivity. }
  destruct Hcfg as (Hd & _).
  split; [exact Hes |]. rewrite Hs2. cbn. rewrite Hd, Hes, Hfc.
  split; [reflexivity |]. split; [apply lookup_delete_eq | apply odict_get_pop].
Qed.

End Compositions.

Lemma on_modified_immediate_idempotent_witness :
  let env := env_at 0 [("/repo/a.txt", "y")] in
  let ev := file_event "/repo/a.txt" in
  let s := repo_watcher_immediate [("/repo/a.txt", "x")] in
  on_modified env ev (on_modified env ev s) = on_modified env ev s.
Proof.
  intros env ev s. exact (on_modified_immediate_idempotent env ev s eq_refl).
Defined.

Lemma on_moved_is_delete_then_create_witness :
  let env := env_at 0 [("/repo/b.txt", "x")] in
  let s := repo_watcher_immediate [("/repo/a.txt", "x")] in
  on_moved env (move_event "/repo/a.txt" "/repo/b.txt") s
  = on_created env (file_event "/repo/b.txt") (on_deleted env (file_event "/repo/a.txt") s).
Proof.
  intros env s.
  assert (Hfilt : filtered_out s env "/repo/a.txt" = false) by (vm_compute; reflexivity).
  assert (Hread : filtered_out s env "/repo/b.txt" = false ->
                  _read_file_content env "/repo/b.txt"
                  = default "" (file_contents s !! "/repo/a.txt")
                  /\ rename_scan (time env) (rename_window s)
                       (_read_file_content env "/repo/b.txt") (recent_deletes s) = None)
    by (intros _; split; vm_compute; reflexivity).
  exact (on_moved_is_delete_then_create env "/repo/a.txt" "/repo/b.txt" s
           eq_refl eq_refl eq_refl Hfilt Hread).
Defined.

Lemma delete_reported_when_its_timer_runs_witness :
  let env0 := env_at 0 [] in
  let env1 := env_at 100 [] in
  let ev := file_event "/repo/a.txt" in
  let s := repo_watcher [("/repo/a.txt", "x")] in
  let s1 := on_deleted env0 ev s in
  let s2 := Timer_run env1 0 s1 in
  event_stream s1 = []
  /\ event_stream s2
     = [({| path := posixpath.relpath env1 "/repo/a.txt" (directory s); prev_exist := true;
            old_content := "x"; new_content := "";
            content := _generate_diff "x" ""
                         (posixpath.relpath env1 "/repo/a.txt" (directory s)) |}, USER)]
  /\ file_contents s2 !! "/repo/a.txt" = None
  /\ odict.get "/repo/a.txt" (recent_deletes s2) = None.
Proof.
  intros env0 env1 ev s.
  assert (Hfilt : filtered_out s env0 (src_path ev) = false) by (vm_compute; reflexivity).
  exact (delete_reported_when_its_timer_runs env0 env1 ev s eq_refl eq_refl eq_refl Hfilt).
Defined.
(** ** The cache after the constructor *)

Section InitialCache.

Context `{!PathMatcher}.

Variable self : FileWatcher.
Variable env : Env.

Local Abbreviation reaches := (reaches self env).
Local Abbreviation cacheable := (cacheable self env).
Local Abbreviation walk_entry := (walk_entry self env).

Lemma Tree_induction (P : Tree -> Prop) :
  P File -> P Unwalked ->
  (forall entries, Forall (fun e => P (snd e)) entries -> P (Dir entries)) ->
  forall t, P t.
Proof.
  intros HF HU HD. fix IH 1. intros [| | entries]; [exact HF | exact HU |].
  apply HD. induction entries as [| [d sub] entries IHe]; constructor; [apply IH | exact IHe].
Qed.

Lemma walk_Dir (root : string) (entries : list (string * Tree)) (cache : gmap string string) :
  walk self env root (Dir entries) cache
  = fold_left (walk_entry root) entries
      (fold_left (fun cache file => cache_file self env (posixpath.join root file) cache)
         (files_of entries) cache).
Proof.
  cbn [walk].
  generalize (fold_left (fun cache file => cache_file self env (posixpath.join root file) cache)
                (files_of entries) cache).
  induction entries as [| [d sub] entries IH]; intros c; [reflexivity |].
  cbn [fold_left]. unfold walk_entry at 2. cbn [fst snd].
  destruct sub as [| | sub]; try apply IH.
  destruct (_should_ignore self env (posixpath.join root d)); apply IH.
Qed.

Lemma files_of_spec (entries : list (string * Tree)) (name : string) :
  name ∈ files_of entries <-> (name, File) ∈ entries.
Proof.
  induction entries as [| [d sub] entries IH]; cbn [files_of].
  - split; intros Hin; inversion Hin.
  - destruct sub as [| | sub]; rewrite ?elem_of_cons, IH.
    + split; (intros [Heq | Hin]; [left; congruence | right; exact Hin]).
    + split; [auto | intros [Heq | Hin]; [discriminate Heq | exact Hin]].
    + split; [auto | intros [Heq | Hin]; [discriminate Heq | exact Hin]].
Qed.

(** The cache after one file. *)
Lemma cache_file_sound (abs_path p c : string) (cache : gmap string string) :
  cache_file self env abs_path cache !! p = Some c ->
  cache !! p = Some c \/ (p = abs_path /\ cacheable p c).
Proof.
  unfold cache_file, cacheable.
  destruct (_should_ignore self env abs_path) eqn:Hi; [auto |].
  destruct (_should_watch self env abs_path) eqn:Hw; [| auto]. cbn.
  destruct (read_text env abs_path) as [c' |] eqn:Hr; [| auto].
  destruct (decide (abs_path = p)) as [<- | Hne].
  - rewrite lookup_insert_eq. intros [= <-]. right. auto.
  - rewrite lookup_insert_ne by exact Hne. auto.
Qed.

Lemma cache_file_stable (abs_path p c : string) (cache : gmap string string) :
  cache !! p = Some c -> read_text env p = Some c ->
  cache_file self env abs_path cache !! p = Some c.
Proof.
  intros Hc Hr. unfold cache_file.
  destruct (negb _ && _); [| exact Hc].
  destruct (read_text env abs_path) as [c' |] eqn:Hr'; [| exact Hc].
  destruct (decide (abs_path = p)) as [<- | Hne].
  - rewrite lookup_insert_eq. congruence.
  - rewrite lookup_insert_ne by exact Hne. exact Hc.
Qed.

Lemma cache_file_hit (p c : string) (cache : gmap string string) :
  cacheable p c -> cache_file self env p cache !! p = Some c.
Proof.
  intros (Hi & Hw & Hr). unfold cache_file. rewrite Hi, Hw, Hr. cbn. apply lookup_insert_eq.
Qed.

(** The same three facts for the files of one directory. *)
Lemma cache_files_sound (root : string) (files : list string) (p c : string) :
  forall cache,
    fold_left (fun cache file => cache_file self env (posixpath.join root file) cache)
      files cache !! p = Some c ->
    cache !! p = Some c
    \/ (exists name, name ∈ files /\ p = posixpath.join root name) /\ cacheable p c.
Proof.
  induction files as [| f files IH]; intros cache Hp; cbn [fold_left] in Hp; [auto |].
  apply IH in Hp as [Hp | [(name & Hin & ->) Hc]].
  - apply cache_file_sound in Hp as [Hp | [-> Hc]]; [auto |].
    right. split; [| exact Hc]. exists f. split; [left | reflexivity].
  - right. split; [| exact Hc]. exists name. split; [right; exact Hin | reflexivity].
Qed.

Lemma cache_files_stable (root : string) (files : list string) (p c : string) :
  read_text env p = Some c ->
  forall cache,
    cache !! p = Some c ->
    fold_left (fun cache file => cache_file self env (posixpath.join root file) cache)
      files cache !! p = Some c.
Proof.
  intros Hr. induction files as [| f files IH]; intros cache Hc; cbn [fold_left]; [exact Hc |].
  apply IH. apply cache_file_stable; assumption.
Qed.

Lemma cache_files_hit (root : string) (files : list string) (name c : string) :
  name ∈ files -> cacheable (posixpath.join root name) c ->
  forall cache,
    fold_left (fun cache file => cache_file self env (posixpath.join root file) cache)
      files cache !! posixpath.join root name = Some c.
Proof.
  intros Hin Hc. induction files as [| f files IH]; intros cache; [inversion Hin |].
  cbn [fold_left]. apply elem_of_cons in Hin as [<- | Hin]; [| apply IH; exact Hin].
  apply cache_files_stable; [apply Hc | apply cache_file_hit; exact Hc].
Qed.

(** The walk of a whole tree. *)
Lemma walk_facts (t : Tree) :
  forall (root : string) (cache : gmap string string),
    (forall p c, walk self env root t cache !! p = Some c ->
       cache !! p = Some c \/ (reaches root t p /\ cacheable p c))
    /\ (forall p c, cache !! p = Some c -> read_text env p = Some c ->
          walk self env root t cache !! p = Some c)
    /\ (forall p c, reaches root t p -> cacheable p c ->
          walk self env root t cache !! p = Some c).
Proof.
  induction t as [| | entries IH] using Tree_induction; intros root cache.
  - cbn [walk]. split; [auto |]. split; [auto |]. intros p c Hr. inversion Hr.
  - cbn [walk]. split; [auto |]. split; [auto |]. intros p c Hr. inversion Hr.
  - rewrite walk_Dir.
    set (cache1 := fold_left (fun cache file =>
                                cache_file self env (posixpath.join root file) cache)
                     (files_of entries) cache).
    assert (Hdirs : forall es, Forall (fun e => e ∈ entries) es ->
              forall cache2,
                (forall p c, fold_left (walk_entry root) es cache2 !! p = Some c ->
                   cache2 !! p = Some c \/ (reaches root (Dir entries) p /\ cacheable p c))
                /\ (forall p c, cache2 !! p = Some c -> read_text env p = Some c ->
                      fold_left (walk_entry root) es cache2 !! p = Some c)
                /\ (forall d sub p c, (d, Dir sub) ∈ es ->
                      _should_ignore self env (posixpath.join root d) = false ->
                      reaches (posixpath.join root d) (Dir sub) p -> cacheable p c ->
                      fold_left (walk_entry root) es cache2 !! p = Some c)).
    { intros es Hes. induction es as [| [d sub] es IHes]; intros cache2.
      - cbn [fold_left]. split; [auto |]. split; [auto |].
        intros d sub p c Hin. inversion Hin.
      - apply Forall_cons in Hes as [He Hes]. cbn [fold_left].
        destruct (IHes Hes (walk_entry root cache2 (d, sub))) as (Hs & Hst & Hh).
        assert (Hsub : snd (d, sub) = sub) by reflexivity.
        pose proof (proj1 (Forall_forall _ _) IH (d, sub) He) as IHsub. cbn [snd] in IHsub.
        split; [| split].
        + intros p c Hp. apply Hs in Hp as [Hp | Hp]; [| auto].
          unfold walk_entry in Hp. cbn [fst snd] in Hp.
          destruct sub as [| | sub]; auto.
          destruct (_should_ignore self env (posixpath.join root d)) eqn:Hi; [auto |].
          apply (proj1 (IHsub _ _)) in Hp as [Hp | [Hr Hc]]; [auto |].
          right. split; [| exact Hc]. eapply reaches_below; eassumption.
        + intros p c Hp Hr. apply Hst; [| exact Hr].
          unfold walk_entry. cbn [fst snd]. destruct sub as [| | sub]; auto.
          destruct (_should_ignore self env (posixpath.join root d)); [exact Hp |].
          apply (proj1 (proj2 (IHsub _ _))); assumption.
        + intros d' sub' p c Hin Hi Hr Hc.
          apply elem_of_cons in Hin as [Heq | Hin]; [| eapply Hh; eassumption].
          injection Heq as <- <-. apply Hst; [| apply Hc].
          unfold walk_entry. cbn [fst snd]. rewrite Hi.
          apply (proj2 (proj2 (IHsub _ _))); assumption. }
    destruct (Hdirs entries (proj2 (Forall_forall _ _) (fun e He => He)) cache1)
      as (Hs & Hst & Hh).
    split; [| split].
    + intros p c Hp. apply Hs in Hp as [Hp | Hp]; [| auto].
      apply cache_files_sound in Hp as [Hp | [(name & Hin & ->) Hc]]; [auto |].
      right. split; [| exact Hc]. apply reaches_file. apply files_of_spec. exact Hin.
    + intros p c Hp Hr. apply Hst; [| exact Hr]. apply cache_files_stable; assumption.
    + intros p c Hr Hc. inversion Hr as [root' entries' name Hin | root' entries' sub d p' Hin Hi Hr'];
        subst.
      * apply Hst; [| apply Hc]. apply cache_files_hit; [| exact Hc].
        apply files_of_spec. exact Hin.
      * eapply Hh; eassumption.
Qed.

End InitialCache.
(** ** The constructor *)

Section Constructor.

Context `{!PathMatcher}.

(** X10.  The cache that [_initialize_file_contents] builds from an empty
    one holds exactly the files that the walk reaches (files of the watched
    directory and of directories reached through directories that are not
    ignored), that pass the two filters and that can be read, each with its
    text. *)
Theorem initial_cache_exact (ienv : InitEnv) (self : FileWatcher) (p c : string) :
  file_contents self = ∅ ->
  file_contents (_initialize_file_contents ienv self) !! p = Some c
  <-> reaches self (init_os ienv) (directory self) (walk_top ienv) p
      /\ cacheable self (init_os ienv) p c.
Proof.
  intros Hempty. unfold _initialize_file_contents. cbn [file_contents set_file_contents].
  rewrite Hempty.
  destruct (walk_facts self (init_os ienv) (walk_top ienv) (directory self) ∅)
    as (Hs & _ & Hh).
  split.
  - intros Hp. apply Hs in Hp as [Hp | Hp]; [| exact Hp].
    rewrite lookup_empty in Hp. discriminate Hp.
  - intros [Hr Hc]. apply Hh; assumption.
Qed.

(** What [startswith('/')] means. *)
Lemma startswith_slash (s : string) :
  pystr.startswith s "/" = true <-> exists r, s = String "/" r.
Proof.
  unfold pystr.startswith. destruct s as [| c r]; cbn [String.prefix].
  - split; [discriminate | intros [r [=]]].
  - destruct (ascii_dec "/" c) as [<- | Hne].
    + split; [eauto | intros _; destruct r; reflexivity].
    + split; [discriminate | intros [r0 [= -> _]]; contradiction].
Qed.

Lemma normpath_isabs (p : string) :
  posixpath.isabs p = true -> posixpath.isabs (posixpath.normpath p) = true.
Proof.
  intros Habs. pose proof Habs as Hs. apply startswith_slash in Hs as [r ->].
  unfold posixpath.normpath. unfold posixpath.isabs in Habs. rewrite Habs.
  change (String.eqb (String "/" r) "") with false. cbv iota.
  destruct (_ && _); cbv zeta iota;
    match goal with
    | |- context [String.eqb (?pre +:+ ?x) ""] =>
        generalize x; intros x'; change (String.eqb (pre +:+ x') "") with false
    end; cbv iota; apply startswith_slash; eexists; reflexivity.
Qed.

Lemma abspath_isabs (env : Env) (p : string) :
  posixpath.isabs (getcwd env) = true -> posixpath.isabs (posixpath.abspath env p) = true.
Proof.
  intros Hcwd. unfold posixpath.abspath.
  destruct (posixpath.isabs p) eqn:Hp; apply normpath_isabs; [exact Hp |].
  apply startswith_slash in Hcwd as [r Hr]. rewrite Hr.
  unfold posixpath.join. unfold posixpath.isabs in Hp. rewrite Hp.
  change (String.eqb (String "/" r) "") with false. cbn [orb].
  destruct (pystr.endswith (String "/" r) "/");
    apply startswith_slash; eexists; reflexivity.
Qed.

(** X11.  A watcher that the constructor returns watches an absolute
    directory (the working directory being absolute), is not started, has
    emitted nothing, has empty tables, and ignores [.git] and [.git/*]
    whatever ignore patterns were passed. *)
Theorem constructor_postcondition `{!GitWildMatch}
    (ienv : InitEnv) (d : string) (rec : bool) (pats ign : option (list string))
    (w : FileWatcher) :
  posixpath.isabs (getcwd (init_os ienv)) = true ->
  __init__ ienv d rec pats ign = Returns w ->
  posixpath.isabs (directory w) = true
  /\ fresh w
  /\ observer_alive w = false
  /\ event_stream w = []
  /\ recent_deletes w = []
  /\ ".git" ∈ ignore_patterns w /\ ".git/*" ∈ ignore_patterns w
  /\ (forall q, q ∈ default [] ign -> q ∈ ignore_patterns w).
Proof.
  intros Hcwd Hinit. unfold __init__ in Hinit.
  destruct (_load_gitignore _ _) as [spec | e]; [| discriminate Hinit].
  injection Hinit as <-. cbn.
  split; [apply abspath_isabs; exact Hcwd |].
  split; [repeat split |]. repeat split.
  - left.
  - right. left.
  - intros q Hq. right. right. exact Hq.
Qed.

(** X12.  The constructor raises [UnicodeDecodeError] exactly when the
    watched directory has a [.gitignore] file whose text cannot be decoded;
    a missing file and one that cannot be opened ([IOError]) never make
    [_load_gitignore] fail: they stand for no patterns. *)
Theorem constructor_raises_on_undecodable_gitignore `{!GitWildMatch}
    (ienv : InitEnv) (d : string) (rec : bool) (pats ign : option (list string)) :
  let directory := posixpath.abspath (init_os ienv) d in
  let gitignore_path := posixpath.join directory ".gitignore" in
  (__init__ ienv d rec pats ign = Raises RaisedUnicodeDecodeError
   <-> isfile ienv gitignore_path = true
       /\ open_read ienv gitignore_path = UnicodeDecodeError)
  /\ (isfile ienv gitignore_path = false \/ open_read ienv gitignore_path = IOError ->
      gitignore_patterns ienv directory = Returns []).
Proof.
  intros directory gitignore_path. split.
  - unfold __init__, _load_gitignore, gitignore_patterns.
    fold directory. fold gitignore_path.
    destruct (isfile ienv gitignore_path).
    + destruct (open_read ienv gitignore_path) as [s | |].
      * destruct (from_lines _); split; try discriminate; intros [_ [=]].
      * destruct (from_lines _); split; try discriminate; intros [_ [=]].
      * split; auto.
    + destruct (from_lines _); split; try discriminate; intros [[=] _].
  - unfold gitignore_patterns. fold gitignore_path.
    intros [-> | Hr]; [reflexivity |]. rewrite Hr. destruct (isfile _ _); reflexivity.
Qed.

(** No line of [splitlines()] holds a line boundary. *)
Lemma splitlines_nokeep_no_linebreak (s : string) :
  Forall (fun l => has_linebreak l = false) (splitlines_nokeep s).
Proof.
  enough (Hboth : Forall (fun l => has_linebreak l = false) (splitlines_nokeep s)
                  /\ forall c, Forall (fun l => has_linebreak l = false)
                                 (splitlines_nokeep (String c s)))
    by apply Hboth.
  induction s as [| d s [IH1 IH2]].
  - split; [constructor |]. intros c. cbn [splitlines_nokeep].
    destruct (pystr.is_linebreak c) eqn:Hc; repeat constructor. cbn. rewrite Hc. reflexivity.
  - split; [apply IH2 |]. intros c.
    change (splitlines_nokeep (String c (String d s)))
      with (if pystr.is_linebreak c then
              if Ascii.eqb c pystr.CR && Ascii.eqb d pystr.LF
              then EmptyString :: splitlines_nokeep s
              else EmptyString :: splitlines_nokeep (String d s)
            else match splitlines_nokeep (String d s) with
                 | [] => [String c EmptyString]
                 | l :: ls => String c l :: ls
                 end).
    destruct (pystr.is_linebreak c) eqn:Hc.
    + destruct (_ && _); constructor; auto.
    + specialize (IH2 d). destruct (splitlines_nokeep (String d s)) as [| l ls].
      * repeat constructor. cbn. rewrite Hc. reflexivity.
      * apply Forall_cons in IH2 as [Hl Hls]. constructor; [| exact Hls].
        cbn. rewrite Hc, Hl. reflexivity.
Qed.

Lemma List_filter_sublist {A} (f : A -> bool) (l : list A) :
  List.filter f l `sublist_of` l.
Proof.
  induction l as [| x l IH]; cbn [List.filter]; [constructor |].
  destruct (f x); [apply sublist_skip | apply sublist_cons]; exact IH.
Qed.

(** A text is its lines, each followed by what ended it. *)
Lemma splitlines_nokeep_text (s : string) :
  exists ends,
    length ends = length (splitlines_nokeep s)
    /\ Forall (fun e => is_boundary e = true) ends
    /\ pystr.join "" (zip_with String.append (splitlines_nokeep s) ends) = s.
Proof.
  unfold pystr.join.
  enough (Hboth :
            (exists ends,
               length ends = length (splitlines_nokeep s)
               /\ Forall (fun e => is_boundary e = true) ends
               /\ String.concat "" (zip_with String.append (splitlines_nokeep s) ends) = s)
            /\ forall c, exists ends,
                 length ends = length (splitlines_nokeep (String c s))
                 /\ Forall (fun e => is_boundary e = true) ends
                 /\ String.concat "" (zip_with String.append (splitlines_nokeep (String c s))
                                        ends) = String c s)
    by apply Hboth.
  induction s as [| d s [IH1 IH2]].
  - split; [exists []; repeat split; constructor |]. intros c. cbn [splitlines_nokeep].
    destruct (pystr.is_linebreak c) eqn:Hc.
    + exists [String c ""]. repeat split. repeat constructor. cbn. exact Hc.
    + exists [""]. repeat split. repeat constructor.
  - split; [apply IH2 |]. intros c.
    change (splitlines_nokeep (String c (String d s)))
      with (if pystr.is_linebreak c then
              if Ascii.eqb c pystr.CR && Ascii.eqb d pystr.LF
              then EmptyString :: splitlines_nokeep s
              else EmptyString :: splitlines_nokeep (String d s)
            else match splitlines_nokeep (String d s) with
                 | [] => [String c EmptyString]
                 | l :: ls => String c l :: ls
                 end).
    destruct (pystr.is_linebreak c) eqn:Hc.
    + destruct (Ascii.eqb c pystr.CR && Ascii.eqb d pystr.LF) eqn:Hcrlf.
      * destruct IH1 as (ends & Hlen & Hb & Hjoin).
        exists (String c (String d "") :: ends). cbn [length zip_with].
        split; [congruence |]. split; [constructor; [exact Hcrlf | exact Hb] |].
        rewrite concat_empty_cons, Hjoin. reflexivity.
      * destruct (IH2 d) as (ends & Hlen & Hb & Hjoin).
        exists (String c "" :: ends). cbn [length zip_with].
        split; [congruence |]. split; [constructor; [exact Hc | exact Hb] |].
        rewrite concat_empty_cons, Hjoin. reflexivity.
    + destruct (IH2 d) as (ends & Hlen & Hb & Hjoin).
      destruct (splitlines_nokeep (String d s)) as [| l ls].
      * destruct ends; [| discriminate Hlen]. discriminate Hjoin.
      * destruct ends as [| e ends]; [discriminate Hlen |].
        exists (e :: ends). split; [exact Hlen |]. split; [exact Hb |].
        cbn [zip_with] in Hjoin |- *. rewrite concat_empty_cons in Hjoin |- *.
        change (String c l +:+ e) with (String c (l +:+ e)).
        change (String c (l +:+ e) +:+ String.concat "" (zip_with String.append ls ends))
          with (String c ((l +:+ e) +:+ String.concat "" (zip_with String.append ls ends))).
        rewrite Hjoin. reflexivity.
Qed.


End Constructor.

Lemma initial_cache_exact_witness :
  let self := FileWatcher_init (init_os repo_init_env) "/repo" true None []
                (fun _ => false) ∅ in
  file_contents (_initialize_file_contents repo_init_env self) !! "/repo/src/m.py" = Some "pass"
  <-> reaches self (init_os repo_init_env) (directory self) (walk_top repo_init_env)
        "/repo/src/m.py"
      /\ cacheable self (init_os repo_init_env) "/repo/src/m.py" "pass".
Proof.
  intros self. exact (initial_cache_exact repo_init_env self "/repo/src/m.py" "pass" eq_refl).
Defined.

(** The walk on the concrete tree: the file below [.git] and the unreadable
    file are left out. *)
Example initial_cache_of_repo_tree :
  let cache :=
    file_contents
      (_initialize_file_contents repo_init_env
         (FileWatcher_init (init_os repo_init_env) "/repo" true None []
            (fun _ => false) ∅)) in
  cache !! "/repo/a.txt" = Some "alpha"
  /\ cache !! "/repo/src/m.py" = Some "pass"
  /\ cache !! "/repo/.git/config" = None
  /\ cache !! "/repo/src/m.pyc" = None
  /\ size cache = 2%nat.
Proof. vm_compute. repeat split. Qed.

Lemma constructor_postcondition_witness :
  exists w,
    @__init__ glob_matcher from_lines_small repo_init_env "repo" true None
      (Some ["*.pyc"]) = Returns w
    /\ directory w = "/repo"
    /\ posixpath.isabs (directory w) = true
    /\ fresh w
    /\ "*.pyc" ∈ ignore_patterns w.
Proof.
  eexists. split; [vm_compute; reflexivity |].
  split; [vm_compute; reflexivity |].
  pose proof (@constructor_postcondition glob_matcher from_lines_small repo_init_env "repo"
                true None (Some ["*.pyc"]) _ eq_refl eq_refl)
    as (Habs & Hfresh & _ & _ & _ & _ & _ & Hign).
  split; [exact Habs |]. split; [exact Hfresh |].
  apply Hign. left.
Defined.

Example constructor_on_undecodable_gitignore :
  @__init__ glob_matcher from_lines_small repo_init_env_undecodable "/repo" true None None
  = Raises RaisedUnicodeDecodeError.
Proof. reflexivity. Qed.

(** ** Relative paths *)

Section Relpath.

Lemma append_cons (c : ascii) (s t : string) : String c s +:+ t = String c (s +:+ t).
Proof. reflexivity. Qed.

Lemma simple_name_spec (c : string) :
  simple_name c = true ->
  c <> "" /\ c <> "." /\ c <> ".." /\ has_sep c = false.
Proof.
  unfold simple_name. intros Hs.
  apply andb_true_iff in Hs as [Hs H4]. apply andb_true_iff in Hs as [Hs H3].
  apply andb_true_iff in Hs as [H1 H2].
  repeat split; try (intros ->; discriminate).
  destruct (has_sep c); [discriminate H4 | reflexivity].
Qed.

(** [(x + '/' + rest).split('/')] when [x] has no separator. *)
Lemma split_append (x rest : string) :
  has_sep x = false ->
  pystr.split "/" (x +:+ String "/" rest) = x :: pystr.split "/" rest.
Proof.
  induction x as [| c x IH]; intros Hx.
  - reflexivity.
  - cbn [has_sep] in Hx. apply orb_false_iff in Hx as [Hc Hx].
    rewrite append_cons. cbn [pystr.split].
    change (Ascii.eqb c posixpath.sep) with (Ascii.eqb c "/") in Hc. rewrite Hc.
    rewrite (IH Hx). reflexivity.
Qed.

Lemma split_no_sep (x : string) : has_sep x = false -> pystr.split "/" x = [x].
Proof.
  induction x as [| c x IH]; intros Hx; [reflexivity |].
  cbn [has_sep] in Hx. apply orb_false_iff in Hx as [Hc Hx].
  cbn [pystr.split]. change (Ascii.eqb c posixpath.sep) with (Ascii.eqb c "/") in Hc.
  rewrite Hc, (IH Hx). reflexivity.
Qed.

(** ['/'.join(l).split('/') == l] for names without separator. *)
Lemma split_join (l : list string) :
  l <> [] -> Forall (fun c => has_sep c = false) l ->
  pystr.split "/" (pystr.join "/" l) = l.
Proof.
  unfold pystr.join. induction l as [| x l IH]; intros Hne Hl; [contradiction |].
  apply Forall_cons in Hl as [Hx Hl]. destruct l as [| y l].
  - cbn [String.concat]. apply split_no_sep. exact Hx.
  - change (String.concat "/" (x :: y :: l))
      with (x +:+ String "/" (String.concat "/" (y :: l))).
    rewrite split_append by exact Hx. f_equal. apply IH; [discriminate | exact Hl].
Qed.

Lemma split_path_of (comps : list string) :
  Forall (fun c => simple_name c = true) comps ->
  List.filter (fun x => negb (String.eqb x "")) (pystr.split "/" (path_of comps)) = comps.
Proof.
  intros Hs. unfold path_of.
  change ("/" +:+ pystr.join "/" comps) with ("" +:+ String "/" (pystr.join "/" comps)).
  rewrite split_append by reflexivity. cbn [List.filter String.eqb negb].
  destruct comps as [| c comps]; [reflexivity |].
  rewrite split_join; [| discriminate |].
  - induction Hs as [| x l Hx Hl IH]; [reflexivity |].
    cbn [List.filter]. destruct (simple_name_spec x Hx) as (Hne & _).
    destruct (String.eqb_spec x ""); [contradiction |]. cbn [negb]. f_equal. exact IH.
  - eapply Forall_impl; [exact Hs |]. intros x Hx. apply simple_name_spec. exact Hx.
Qed.

(** The loop of [normpath] keeps simple components. *)
Lemma normpath_steps_simple (n : nat) (comps : list string) :
  Forall (fun c => simple_name c = true) comps ->
  forall acc, fold_left (posixpath.normpath_step n) comps acc = acc ++ comps.
Proof.
  induction 1 as [| c comps Hc Hcs IH]; intros acc; cbn [fold_left].
  - rewrite app_nil_r. reflexivity.
  - rewrite IH. unfold posixpath.normpath_step.
    destruct (simple_name_spec c Hc) as (H1 & H2 & H3 & _).
    destruct (String.eqb_spec c ""); [contradiction |].
    destruct (String.eqb_spec c "."); [contradiction |].
    destruct (String.eqb_spec c ".."); [contradiction |].
    cbn [orb negb]. rewrite <- app_assoc. reflexivity.
Qed.

(** A path built from simple components is absolute and normal. *)
Lemma normpath_path_of (comps : list string) :
  Forall (fun c => simple_name c = true) comps ->
  posixpath.normpath (path_of comps) = path_of comps.
Proof.
  intros Hs. unfold posixpath.normpath.
  change (String.eqb (path_of comps) "") with false. cbv iota.
  assert (Habs : pystr.startswith (path_of comps) "/" = true)
    by (apply startswith_slash; eexists; reflexivity).
  rewrite Habs.
  assert (Hsplit : fold_left (posixpath.normpath_step 1)
                     (pystr.split posixpath.sep (path_of comps)) [] = comps).
  { unfold path_of.
    change ("/" +:+ pystr.join "/" comps) with ("" +:+ String "/" (pystr.join "/" comps)).
    change posixpath.sep with "/"%char.
    rewrite split_append by reflexivity. cbn [fold_left].
    change (posixpath.normpath_step 1 [] "") with (@nil string).
    destruct comps as [| c comps]; [reflexivity |].
    rewrite split_join; [| discriminate |].
    - apply (normpath_steps_simple 1 _ Hs []).
    - eapply Forall_impl; [exact Hs |]. intros x Hx. apply simple_name_spec. exact Hx. }
  assert (Hone : pystr.startswith (path_of comps) "//"
                 && negb (pystr.startswith (path_of comps) "///") = false).
  { destruct comps as [| c comps]; [reflexivity |].
    apply Forall_cons in Hs as [Hc _].
    destruct (simple_name_spec c Hc) as (Hne & _ & _ & Hsep).
    destruct c as [| a c]; [contradiction |].
    cbn [has_sep] in Hsep. apply orb_false_iff in Hsep as [Ha _].
    unfold path_of, pystr.join.
    assert (Hhead : exists tl, String.concat "/" (String a c :: comps) = String a tl).
    { destruct comps; cbn [String.concat]; eexists; [reflexivity | apply append_cons]. }
    destruct Hhead as [tl ->]. change ("/" +:+ String a tl) with (String "/" (String a tl)).
    unfold pystr.startswith. cbn [String.prefix].
    destruct (ascii_dec "/" "/") as [_ | Hbad]; [| contradiction].
    destruct (ascii_dec "/" a) as [<- | _]; [discriminate Ha | reflexivity]. }
  rewrite Hone, Hsplit. cbv zeta iota.
  fold (path_of comps). change (String.eqb (path_of comps) "") with false. reflexivity.
Qed.

Lemma commonprefix_len_app (cs l1 l2 : list string) :
  posixpath.commonprefix_len (cs ++ l1) (cs ++ l2) = (length cs + posixpath.commonprefix_len l1 l2)%nat.
Proof.
  induction cs as [| c cs IH]; [reflexivity |].
  cbn [app posixpath.commonprefix_len length]. rewrite String.eqb_refl, IH. reflexivity.
Qed.

Lemma abspath_path_of (env : Env) (comps : list string) :
  Forall (fun c => simple_name c = true) comps ->
  posixpath.abspath env (path_of comps) = path_of comps.
Proof.
  intros Hs. unfold posixpath.abspath, posixpath.isabs.
  assert (Habs : pystr.startswith (path_of comps) "/" = true)
    by (apply startswith_slash; eexists; reflexivity).
  rewrite Habs. apply normpath_path_of. exact Hs.
Qed.

(** X14.  [os.path.relpath] on absolute paths made of plain names: the
    components the path shares with the start are dropped, one [..] stands
    for each component left of the start, and the components left of the
    path follow.  For a path below the watched directory the result is the
    components below the directory joined by [/], which [split('/')] gives
    back; for the directory itself it is [.]. *)
Theorem relpath_components (env : Env) (cs up down : list string) :
  Forall (fun c => simple_name c = true) (cs ++ up ++ down) ->
  match up, down with
  | u :: _, d :: _ => u <> d
  | _, _ => True
  end ->
  let rel := posixpath.relpath env (path_of (cs ++ down)) (path_of (cs ++ up)) in
  rel = match replicate (length up) ".." ++ down with
        | [] => "."
        | l => pystr.join "/" l
        end
  /\ (up = [] -> down <> [] -> pystr.split "/" rel = down).
Proof.
  intros Hs Hdiff rel.
  apply Forall_app in Hs as [Hcs Hs]. apply Forall_app in Hs as [Hup Hdown].
  assert (Hrel : rel = match replicate (length up) ".." ++ down with
                       | [] => "."
                       | l => pystr.join "/" l
                       end).
  { unfold rel, posixpath.relpath.
    rewrite !abspath_path_of by (apply Forall_app; auto).
    rewrite !split_path_of by (apply Forall_app; auto).
    rewrite commonprefix_len_app.
    assert (H0 : posixpath.commonprefix_len up down = 0%nat).
    { destruct up as [| u up]; [reflexivity |]. destruct down as [| d down]; [reflexivity |].
      cbn [posixpath.commonprefix_len]. destruct (String.eqb_spec u d); [contradiction |].
      reflexivity. }
    rewrite H0, Nat.add_0_r, length_app.
    replace (length cs + length up - length cs)%nat with (length up) by lia.
    rewrite drop_app_length. destruct (replicate (length up) ".." ++ down); reflexivity. }
  split; [exact Hrel |]. intros -> Hne. rewrite Hrel. cbn [length replicate app].
  destruct down as [| d down]; [contradiction |].
  apply split_join; [discriminate |].
  eapply Forall_impl; [exact Hdown |]. intros x Hx. apply simple_name_spec. exact Hx.
Qed.

End Relpath.

Lemma relpath_components_witness :
  posixpath.relpath (env_at 0 []) (path_of ["repo"; "src"; "m.py"]) (path_of ["repo"])
  = "src/m.py"
  /\ pystr.split "/" (posixpath.relpath (env_at 0 []) (path_of ["repo"; "src"; "m.py"])
                        (path_of ["repo"]))
     = ["src"; "m.py"].
Proof.
  assert (Hs : Forall (fun c => simple_name c = true) (["repo"] ++ [] ++ ["src"; "m.py"]))
    by (repeat constructor).
  destruct (relpath_components (env_at 0 []) ["repo"] [] ["src"; "m.py"] Hs I) as [H1 H2].
  split; [exact H1 | apply H2; [reflexivity | discriminate]].
Defined.

Example relpath_of_a_sibling :
  posixpath.relpath (env_at 0 []) "/repo/src/m.py" "/repo/docs/api" = "../../src/m.py".
Proof. reflexivity. Qed.
(** ** The diff of a creation and of a deletion *)

Section OneSidedDiff.

Import difflib.

Lemma slice_all {A} (l : list A) : slice l 0 (length l) = l.
Proof. unfold slice. rewrite Nat.sub_0_r, drop_0. apply firstn_all. Qed.

Lemma get_matching_blocks_nil_l (b : list string) :
  get_matching_blocks [] b = [mkMatch 0 (length b) 0].
Proof. reflexivity. Qed.

Lemma get_opcodes_nil_l (b : list string) :
  get_opcodes [] b = if (0 <? length b)%nat then [mkOp insert 0 0 0 (length b)] else [].
Proof.
  unfold get_opcodes. rewrite get_matching_blocks_nil_l. cbn [opcodes_from].
  destruct (0 <? length b)%nat; reflexivity.
Qed.

Lemma flm_rows_nil_r (a : list string) (blo bhi : nat) (rows : list nat) :
  forall st, snd (fold_left (flm_row a [] blo bhi) rows st) = snd st.
Proof.
  induction rows as [| i rows IH]; intros [j2len best]; [reflexivity |].
  cbn [fold_left]. rewrite IH. unfold flm_row. destruct (a !! i); reflexivity.
Qed.

Lemma extend_nil_r (a : list string) (junk : bool) :
  extend a [] junk 0 (length a) 0 0 (mkMatch 0 0 0) = mkMatch 0 0 0.
Proof.
  unfold extend. cbn [extend_left m_a m_b m_size].
  destruct (length a - (0 + 0))%nat as [| n]; cbn [extend_right]; [reflexivity |].
  change (0 + 0 <? 0)%nat with false. rewrite andb_false_r. reflexivity.
Qed.

Lemma find_longest_match_nil_r (a : list string) :
  find_longest_match a [] 0 (length a) 0 0 = mkMatch 0 0 0.
Proof.
  unfold find_longest_match.
  pose proof (flm_rows_nil_r a 0 0 (seq 0 (length a - 0)) (∅, mkMatch 0 0 0)) as Hrows.
  destruct (fold_left _ _ _) as [j2len best]. cbn [snd] in Hrows. subst best.
  rewrite !extend_nil_r. reflexivity.
Qed.

Lemma get_matching_blocks_nil_r (a : list string) :
  get_matching_blocks a [] = [mkMatch (length a) 0 0].
Proof.
  unfold get_matching_blocks. cbn [length].
  replace (2 * length a + 2)%nat with (S (2 * length a + 1)) by lia.
  cbn [matching_loop]. rewrite find_longest_match_nil_r. cbn [m_a m_b m_size].
  change (0 <? 0)%nat with false. cbv iota.
  destruct (2 * length a + 1)%nat; reflexivity.
Qed.

Lemma get_opcodes_nil_r (a : list string) :
  get_opcodes a [] = if (0 <? length a)%nat then [mkOp delete 0 (length a) 0 0] else [].
Proof.
  unfold get_opcodes. rewrite get_matching_blocks_nil_r. cbn [opcodes_from].
  change (0 <? 0)%nat with false. rewrite andb_false_r.
  destruct (0 <? length a)%nat; reflexivity.
Qed.

(** The body that [_generate_diff] returns, on the hunks. *)
Lemma generate_diff_hunk_lines (old_content new_content path : string) :
  _generate_diff old_content new_content path
  = pystr.join ""
      (flat_map hunk_lines
         (diff_hunks (pystr.splitlines old_content) (pystr.splitlines new_content))).
Proof. unfold _generate_diff. cbv zeta. rewrite unified_diff_body. reflexivity. Qed.

Lemma diff_hunks_nil_l (b : list string) :
  flat_map hunk_lines (diff_hunks [] b) = map (String.append "+") b.
Proof.
  unfold diff_hunks, get_grouped_opcodes. rewrite get_opcodes_nil_l.
  destruct b as [| x b]; [reflexivity |].
  change (0 <? length (x :: b))%nat with true. cbv iota.
  cbn [fix_first fix_last group_loop is_equal andb app map flat_map].
  rewrite app_nil_r. unfold hunk_lines, hunk_of_group. cbn [h_ops flat_map].
  rewrite app_nil_r. unfold opcode_ops. cbn [tag i1 i2 j1 j2].
  rewrite (slice_all (x :: b)), map_map. reflexivity.
Qed.

Lemma diff_hunks_nil_r (a : list string) :
  flat_map hunk_lines (diff_hunks a []) = map (String.append "-") a.
Proof.
  unfold diff_hunks, get_grouped_opcodes. rewrite get_opcodes_nil_r.
  destruct a as [| x a]; [reflexivity |].
  change (0 <? length (x :: a))%nat with true. cbv iota.
  cbn [fix_first fix_last group_loop is_equal andb app map flat_map].
  rewrite app_nil_r. unfold hunk_lines, hunk_of_group. cbn [h_ops flat_map].
  rewrite app_nil_r. unfold opcode_ops. cbn [tag i1 i2 j1 j2].
  rewrite (slice_all (x :: a)), map_map. reflexivity.
Qed.

(** X15.  The diff of a creation is all additions: with an empty old
    content the diff body is every line of the new content behind a [+],
    and nothing else. *)
Theorem generate_diff_of_creation (new_content path : string) :
  _generate_diff "" new_content path
  = pystr.join "" (map (String.append "+") (pystr.splitlines new_content)).
Proof.
  rewrite generate_diff_hunk_lines. change (pystr.splitlines "") with (@nil string).
  rewrite diff_hunks_nil_l. reflexivity.
Qed.

(** X16.  The diff of a deletion is all removals: with an empty new content
    the diff body is every line of the old content behind a [-], and
    nothing else. *)
Theorem generate_diff_of_deletion (old_content path : string) :
  _generate_diff old_content "" path
  = pystr.join "" (map (String.append "-") (pystr.splitlines old_content)).
Proof.
  rewrite generate_diff_hunk_lines. change (pystr.splitlines "") with (@nil string).
  rewrite diff_hunks_nil_r. reflexivity.
Qed.

End OneSidedDiff.

Example diff_of_a_created_file :
  _generate_diff "" ("a" +:+ nl +:+ "b") "f.txt" = "+a" +:+ nl +:+ "+b"
  /\ _generate_diff ("a" +:+ nl +:+ "b") "" "f.txt" = "-a" +:+ nl +:+ "-b".
Proof. split; reflexivity. Qed.
(** ** The diff of equal contents *)

Section SameLinesProofs.

Import difflib.

Variable a : list string.

Local Abbreviation la := (length a).
Local Abbreviation nonpopular := (nonpopular a).
Local Abbreviation diag_run := (diag_run a).
Local Abbreviation diag_run_pred := (diag_run_pred a).
Local Abbreviation row_bounded := (row_bounded a).
Local Abbreviation diag_inv := (diag_inv a).

Lemma diag_run_step (r : nat) :
  diag_run r = if nonpopular r then S (diag_run_pred r) else 0%nat.
Proof. destruct r; reflexivity. Qed.

Lemma get_pred_bounded (bound : nat) (j2len : gmap nat nat) (j : nat) :
  row_bounded bound j2len ->
  (j2len_get_pred j2len j <= diag_run_pred j)%nat /\ (j2len_get_pred j2len j <= bound)%nat.
Proof.
  intros Hb. destruct j as [| j']; cbn [j2len_get_pred difflib.j2len_get_pred].
  - split; lia.
  - apply Hb.
Qed.

Lemma indices_from_sorted (l : list string) (elt : string) :
  forall j0, StronglySorted lt (indices_from j0 l elt)
             /\ Forall (fun j => (j0 <= j)%nat) (indices_from j0 l elt).
Proof.
  induction l as [| x l IH]; intros j0; cbn [indices_from].
  - split; constructor.
  - destruct (IH (S j0)) as [Hs Hge]. destruct (String.eqb x elt).
    + split.
      * constructor; [exact Hs |]. eapply Forall_impl; [exact Hge |]. cbn. intros; lia.
      * constructor; [lia |]. eapply Forall_impl; [exact Hge |]. cbn. intros; lia.
    + split; [exact Hs |]. eapply Forall_impl; [exact Hge |]. cbn. intros; lia.
Qed.

Lemma indices_from_complete (l : list string) (elt : string) :
  forall j0 k, l !! k = Some elt -> In (j0 + k)%nat (indices_from j0 l elt).
Proof.
  induction l as [| x l IH]; intros j0 k Hk; [discriminate Hk |].
  cbn [indices_from]. destruct k as [| k].
  - cbn in Hk. injection Hk as ->. rewrite String.eqb_refl, Nat.add_0_r. left. reflexivity.
  - cbn in Hk. replace (j0 + S k)%nat with (S j0 + k)%nat by lia.
    destruct (String.eqb x elt); [right |]; apply IH; exact Hk.
Qed.

(** The inner loop of one row, on the indices [js] still to come. *)
Lemma flm_inner_diag (i : nat) (x : string) (j2len : gmap nat nat) :
  nonpopular i = true ->
  row_bounded (diag_run_pred i) j2len ->
  j2len_get_pred j2len i = diag_run_pred i ->
  forall (js : list nat) (new : gmap nat nat) (best : Match),
    Forall (fun j => a !! j = Some x /\ nonpopular j = true) js ->
    StronglySorted lt js ->
    m_a best = m_b best ->
    (forall r, (r < i)%nat -> (diag_run r <= m_size best)%nat) ->
    row_bounded (diag_run i) new ->
    (In i js \/ (Forall (fun j => (i < j)%nat) js /\ (diag_run i <= m_size best)%nat
                 /\ default 0%nat (new !! i) = diag_run i)) ->
    let res := flm_inner 0 la i j2len js new best in
    m_a (snd res) = m_b (snd res)
    /\ (forall r, (r < S i)%nat -> (diag_run r <= m_size (snd res))%nat)
    /\ row_bounded (diag_run i) (fst res)
    /\ default 0%nat (fst res !! i) = diag_run i.
Proof.
  intros Hi Hrow Hdiag js. induction js as [| j js IH]; intros new best Hjs Hsorted Hd Hbest Hnew Hcase.
  - cbn. destruct Hcase as [[] | (_ & Hsize & Hval)].
    repeat split; try assumption; try apply Hnew.
    intros r Hr. destruct (decide (r = i)) as [-> | Hne]; [exact Hsize | apply Hbest; lia].
  - apply Forall_cons in Hjs as [[Hj Hnp] Hjs].
    apply StronglySorted_inv in Hsorted as [Hsorted Hlt].
    assert (Hjla : (j < la)%nat) by (apply lookup_lt_Some in Hj; exact Hj).
    cbn [flm_inner]. change (j <? 0)%nat with false. cbv iota.
    destruct (Nat.leb_spec la j) as [Hbad | _]; [lia |].
    cbv zeta.
    destruct (get_pred_bounded _ j2len j Hrow) as [Hk1 Hk2].
    set (k := (j2len_get_pred j2len j + 1)%nat).
    assert (Hkj : (k <= diag_run j)%nat).
    { rewrite (diag_run_step j), Hnp. unfold k. lia. }
    assert (Hki : (k <= diag_run i)%nat).
    { rewrite (diag_run_step i), Hi. unfold k. lia. }
    apply IH; clear IH.
    + exact Hjs.
    + exact Hsorted.
    + destruct (Nat.ltb_spec (m_size best) k) as [Hup | _]; [| exact Hd].
      cbn [m_a m_b]. destruct (lt_eq_lt_dec j i) as [[Hlt' | ->] | Hgt]; [| reflexivity |].
      * specialize (Hbest j Hlt'). lia.
      * destruct Hcase as [[Heq | Hin] | (Hall & Hsize & _)]; [lia | | lia].
        rewrite Forall_forall in Hlt. specialize (Hlt i (proj2 (list_elem_of_In _ _) Hin)). lia.
    + intros r Hr. specialize (Hbest r Hr).
      destruct (m_size best <? k)%nat eqn:Hup; [| exact Hbest].
      cbn [m_size]. apply Nat.ltb_lt in Hup. lia.
    + intros j'. destruct (decide (j = j')) as [<- | Hne].
      * rewrite lookup_insert_eq. cbn [default]. split; assumption.
      * rewrite lookup_insert_ne by exact Hne. apply Hnew.
    + destruct (decide (j = i)) as [-> | Hne].
      * assert (Hk : k = diag_run i)
          by (unfold k; rewrite Hdiag, (diag_run_step i), Hi; lia).
        right. split; [exact Hlt |]. split.
        -- destruct (Nat.ltb_spec (m_size best) k); cbn [m_size]; lia.
        -- rewrite lookup_insert_eq. cbn [default]. exact Hk.
      * destruct Hcase as [[Heq | Hin] | (Hall & Hsize & Hval)]; [contradiction | left; exact Hin |].
        apply Forall_cons in Hall as [Hij Hall].
        right. split; [exact Hall |]. split.
        -- destruct (m_size best <? k)%nat eqn:Hup; [| exact Hsize].
           cbn [m_size]. apply Nat.ltb_lt in Hup. lia.
        -- rewrite lookup_insert_ne by exact Hne. exact Hval.
Qed.

Lemma flm_row_diag (i : nat) (st : gmap nat nat * Match) :
  (i < la)%nat -> diag_inv i st -> diag_inv (S i) (flm_row a a 0 la st i).
Proof.
  intros Hi (Hd & Hbest & Hrow & Hdiag). destruct st as [j2len best]. cbn [fst snd] in *.
  unfold flm_row. destruct (a !! i) as [x |] eqn:Hx;
    [| apply lookup_ge_None in Hx; lia].
  assert (Hnp : nonpopular i = negb (popular a x)) by (unfold nonpopular; rewrite Hx; reflexivity).
  unfold b2j. destruct (popular a x) eqn:Hpop; cbn [negb] in Hnp.
  - assert (Hrun : diag_run i = 0%nat) by (rewrite (diag_run_step i), Hnp; reflexivity).
    cbn [flm_inner]. unfold diag_inv. cbn [fst snd].
    change (diag_run_pred (S i)) with (diag_run i). rewrite Hrun.
    split; [exact Hd |]. split; [| split].
    + intros r Hr. destruct (decide (r = i)) as [-> | Hne]; [lia | apply Hbest; lia].
    + intros j. rewrite lookup_empty. cbn. lia.
    + cbn. rewrite lookup_empty. reflexivity.
  - assert (Hjs : Forall (fun j => a !! j = Some x /\ nonpopular j = true)
                    (indices_from 0 a x)).
    { apply Forall_forall. intros j Hj. apply list_elem_of_In, indices_from_spec in Hj as [_ Hj].
      rewrite Nat.sub_0_r in Hj. split; [exact Hj |].
      unfold nonpopular. rewrite Hj, Hpop. reflexivity. }
    assert (Hnew : row_bounded (diag_run i) ∅).
    { intros j. rewrite lookup_empty. cbn. lia. }
    pose proof (flm_inner_diag i x j2len Hnp Hrow Hdiag (indices_from 0 a x) ∅ best Hjs
                  (proj1 (indices_from_sorted a x 0)) Hd Hbest Hnew
                  (or_introl (indices_from_complete a x 0 i Hx)))
      as (Hd' & Hbest' & Hrow' & Hval').
    unfold diag_inv. change (diag_run_pred (S i)) with (diag_run i).
    split; [exact Hd' |]. split; [exact Hbest' |]. split; [exact Hrow' | exact Hval'].
Qed.

Lemma flm_rows_diag :
  forall (n i : nat) (st : gmap nat nat * Match),
    (i + n <= la)%nat -> diag_inv i st ->
    diag_inv (i + n) (fold_left (flm_row a a 0 la) (seq i n) st).
Proof.
  induction n as [| n IH]; intros i st Hn Hst; cbn [seq fold_left].
  - rewrite Nat.add_0_r. exact Hst.
  - replace (i + S n)%nat with (S i + n)%nat by lia.
    apply IH; [lia |]. apply flm_row_diag; [lia | exact Hst].
Qed.

(** On the diagonal the two extensions reach both ends. *)
Lemma extend_left_diag :
  forall d size, (d <= la)%nat -> extend_left a a false 0 0 d d size = mkMatch 0 0 (size + d).
Proof.
  induction d as [| d IH]; intros size Hd; cbn [extend_left].
  - rewrite Nat.add_0_r. reflexivity.
  - destruct (a !! d) as [x |] eqn:Hx; [| apply lookup_ge_None in Hx; lia].
    change (0 <? S d)%nat with true. cbn [andb isbjunk Bool.eqb line_eqb].
    rewrite String.eqb_refl. rewrite IH by lia. f_equal. lia.
Qed.

Lemma extend_right_diag :
  forall n size, (size + n = la)%nat ->
    extend_right a a false n la la 0 0 size = mkMatch 0 0 la.
Proof.
  induction n as [| n IH]; intros size Hn; cbn [extend_right].
  - f_equal. lia.
  - cbn [Nat.add]. destruct (Nat.ltb_spec size la) as [_ | Hbad]; [| lia].
    destruct (a !! size) as [x |] eqn:Hx; [| apply lookup_ge_None in Hx; lia].
    cbn [andb isbjunk Bool.eqb line_eqb]. rewrite String.eqb_refl. apply IH. lia.
Qed.

Lemma find_longest_match_same : find_longest_match a a 0 la 0 la = mkMatch 0 0 la.
Proof.
  unfold find_longest_match.
  assert (Hinit : diag_inv 0 (∅, mkMatch 0 0 0)).
  { unfold diag_inv. cbn [fst snd m_a m_b m_size]. split; [reflexivity |].
    split; [intros r Hr; lia |]. split; [| reflexivity].
    intros j. rewrite lookup_empty. cbn. lia. }
  pose proof (flm_rows_diag (la - 0) 0 _ ltac:(lia) Hinit) as (Hd & _).
  assert (Hvalid : valid_match a a 0 la 0 la
            (snd (fold_left (flm_row a a 0 la) (seq 0 (la - 0)) (∅, mkMatch 0 0 0)))).
  { apply flm_rows_inv; [lia | lia | |].
    - intros j k Hjk. rewrite lookup_empty in Hjk. discriminate Hjk.
    - unfold valid_match, same_run. cbn [m_a m_b m_size]. repeat split; lia. }
  destruct (fold_left _ _ _) as [j2len [d d' size]]. cbn [fst snd m_a m_b] in *. subst d'.
  destruct Hvalid as (_ & Hdla & _). cbn [m_a m_size] in Hdla.
  unfold extend at 2. cbn [m_a m_b m_size].
  rewrite extend_left_diag by lia. cbn [m_a m_b m_size].
  rewrite extend_right_diag by lia.
  unfold extend. cbn [m_a m_b m_size extend_left].
  replace (la - (0 + la))%nat with 0%nat by lia. reflexivity.
Qed.

Lemma get_opcodes_same :
  get_opcodes a a = if (0 <? la)%nat then [mkOp equal 0 la 0 la] else [].
Proof.
  unfold get_opcodes, get_matching_blocks.
  replace (2 * la + 2)%nat with (S (2 * la + 1)) by lia.
  cbn [matching_loop]. rewrite find_longest_match_same. cbn [m_a m_b m_size].
  destruct (Nat.ltb_spec 0 la) as [Hpos | Hzero].
  - change (0 <? 0)%nat with false. cbn [andb].
    destruct (Nat.ltb_spec (0 + la) la) as [Hbad | _]; [lia |]. cbn [andb app].
    assert (Hloop : forall fuel, matching_loop a a fuel [] [mkMatch 0 0 la] = [mkMatch 0 0 la])
      by (intros [| fuel]; reflexivity).
    rewrite Hloop. cbn [sort fold_right sort_insert collapse].
    change (0 + 0 =? 0)%nat with true. cbn [andb Nat.add].
    destruct (Nat.ltb_spec 0 la) as [_ | Hbad]; [| lia].
    cbn [app opcodes_from]. change (0 <? 0)%nat with false. cbn [andb app].
    destruct (Nat.ltb_spec 0 la) as [_ | Hbad]; [| lia].
    rewrite Nat.ltb_irrefl. cbn [andb app Nat.add]. reflexivity.
  - assert (Hloop : forall fuel, matching_loop a a fuel [] [] = [])
      by (intros [| fuel]; reflexivity).
    rewrite Hloop. cbn [sort fold_right collapse]. change (0 <? 0)%nat with false.
    cbn [app opcodes_from]. replace la with 0%nat by lia. reflexivity.
Qed.

Lemma get_grouped_opcodes_same (n : nat) : get_grouped_opcodes a a n = [].
Proof.
  unfold get_grouped_opcodes. rewrite get_opcodes_same.
  destruct (Nat.ltb_spec 0 la) as [Hpos | Hzero]; cbn [fix_first fix_last group_loop is_equal andb].
  - destruct (Nat.ltb_spec (n + n) (Nat.min la (Nat.max 0 (la - n) + n) - Nat.max 0 (la - n)))
      as [Hbad | _]; [lia |].
    cbn [group_loop app]. reflexivity.
  - destruct (Nat.ltb_spec (n + n) (Nat.min 1 (Nat.max 0 (1 - n) + n) - Nat.max 0 (1 - n)))
      as [Hbad | _]; [lia |].
    cbn [group_loop app]. reflexivity.
Qed.

End SameLinesProofs.

Lemma concat_empty_all (l : list string) :
  String.concat "" l = "" -> Forall (fun x => x = "") l.
Proof.
  induction l as [| x l IH]; intros Hl; [constructor |].
  rewrite concat_empty_cons in Hl. destruct x as [| c x]; [| discriminate Hl].
  constructor; [reflexivity | apply IH; exact Hl].
Qed.

Lemma hunks_without_lines (hunks : list Hunk) :
  Forall (fun x => x = "") (flat_map hunk_lines hunks) ->
  Forall (fun h => h_ops h = []) hunks.
Proof.
  induction hunks as [| h hunks IH]; intros Hall; [constructor |].
  cbn [flat_map] in Hall. apply Forall_app in Hall as [Hh Hrest].
  constructor; [| apply IH; exact Hrest].
  unfold hunk_lines in Hh. destruct (h_ops h) as [| [op l] ops]; [reflexivity |].
  apply Forall_cons in Hh as [Hbad _]. destruct op; discriminate Hbad.
Qed.

Lemma apply_hunks_without_ops (hunks : list Hunk) :
  Forall (fun h => h_ops h = []) hunks ->
  forall pos rest out, apply_hunks hunks pos rest = Some out -> out = rest.
Proof.
  induction 1 as [| h hunks Hh Hrest IH]; intros pos rest out Hout; cbn [apply_hunks] in Hout.
  - injection Hout as <-. reflexivity.
  - destruct (h_start h <? pos)%nat; [discriminate Hout |].
    destruct (length rest <? h_start h - pos)%nat; [discriminate Hout |].
    rewrite Hh in Hout. cbn [apply_ops] in Hout.
    destruct (apply_hunks hunks _ _) as [tl |] eqn:Htl; [| discriminate Hout].
    injection Hout as <-. apply IH in Htl as ->. cbn [app]. apply take_drop.
Qed.

(** X17.  The diff body is empty exactly when the two contents are equal:
    equal contents never produce a diff, and different contents always
    produce one. *)
Theorem generate_diff_empty_iff_same (old_content new_content path : string) :
  _generate_diff old_content new_content path = "" <-> old_content = new_content.
Proof.
  rewrite generate_diff_hunk_lines. split.
  - intros Hempty. apply concat_empty_all, hunks_without_lines in Hempty.
    pose proof (diff_hunks_patch (pystr.splitlines old_content)
                  (pystr.splitlines new_content)) as Hpatch.
    apply (apply_hunks_without_ops _ Hempty) in Hpatch.
    rewrite <- (join_splitlines old_content), <- (join_splitlines new_content), Hpatch.
    reflexivity.
  - intros <-. unfold diff_hunks. rewrite get_grouped_opcodes_same. reflexivity.
Qed.

(** The same for [unified_diff] itself, whatever the number of context
    lines. *)
Lemma unified_diff_same (a : list string) (fromfile tofile : string) (n : nat)
    (lineterm : string) :
  difflib.unified_diff a a fromfile tofile n lineterm = [].
Proof. unfold difflib.unified_diff. rewrite get_grouped_opcodes_same. reflexivity. Qed.
(** ** The lines of a diff body *)

Section BodyLines.

Import difflib.

Lemma group_loop_no_context (codes : list Opcode) :
  forall group, Forall no_context group ->
    Forall (Forall no_context) (group_loop 0 codes group).
Proof.
  induction codes as [| [t ci1 ci2 cj1 cj2] codes IH]; intros group Hg; cbn [group_loop].
  - destruct group as [| [t ? ? ? ?] [| c' g]]; [constructor | destruct t | destruct t];
      first [constructor; [exact Hg | constructor] | constructor].
  - destruct (is_equal t && (0 + 0 <? ci2 - ci1)%nat) eqn:Hc.
    + constructor.
      * apply Forall_app. split; [exact Hg |]. repeat constructor.
        intros _. cbn [i1 i2]. lia.
      * apply IH. repeat constructor. intros _. cbn [i1 i2]. lia.
    + apply IH. apply Forall_app. split; [exact Hg |]. repeat constructor.
      intros Ht. cbn [tag i1 i2] in *. subst t. cbn [is_equal andb] in Hc.
      apply Nat.ltb_ge in Hc. lia.
Qed.

Lemma no_context_ops (a b : list string) (c : Opcode) :
  no_context c -> Forall (fun ol => fst ol <> Keep) (opcode_ops a b c).
Proof.
  intros Hc. unfold opcode_ops. unfold no_context in Hc.
  destruct (tag c).
  - apply Forall_app. split; apply Forall_forall; intros ol Hol;
      apply list_elem_of_fmap in Hol as (l & -> & _); discriminate.
  - apply Forall_forall; intros ol Hol; apply list_elem_of_fmap in Hol as (l & -> & _);
      discriminate.
  - apply Forall_forall; intros ol Hol; apply list_elem_of_fmap in Hol as (l & -> & _);
      discriminate.
  - unfold slice. rewrite (Hc eq_refl). constructor.
Qed.

Lemma diff_hunks_no_context (a b : list string) :
  Forall (fun ol => fst ol <> Keep) (flat_map h_ops (diff_hunks a b)).
Proof.
  unfold diff_hunks.
  pose proof (group_loop_no_context
                (fix_last 0 (fix_first 0 match get_opcodes a b with
                                         | [] => [mkOp equal 0 1 0 1]
                                         | c :: l => c :: l
                                         end)) [] (List.Forall_nil _)) as Hgroups.
  fold (get_grouped_opcodes a b 0) in Hgroups.
  induction Hgroups as [| g groups Hg Hgroups IH]; [constructor |].
  cbn [map flat_map]. apply Forall_app. split; [| exact IH].
  unfold hunk_of_group. cbn [h_ops].
  induction Hg as [| c g Hc Hg IHg]; [constructor |].
  cbn [flat_map]. apply Forall_app. split; [| exact IHg]. apply no_context_ops. exact Hc.
Qed.

(** What the patch program consumes and produces. *)
Lemma apply_ops_sublist (ops : list (LineOp * string)) :
  forall rest out rest',
    apply_ops ops rest = Some (out, rest') ->
    exists consumed, rest = consumed ++ rest'
                     /\ removed_lines ops `sublist_of` consumed
                     /\ added_lines ops `sublist_of` out.
Proof.
  unfold removed_lines, added_lines.
  induction ops as [| [op l] ops IH]; intros rest out rest' Happly.
  - cbn [apply_ops] in Happly. injection Happly as <- <-. exists []. repeat split; constructor.
  - destruct op; cbn [apply_ops] in Happly.
    + destruct rest as [| x rest]; [discriminate Happly |].
      destruct (String.eqb_spec x l) as [-> | Hne]; [| discriminate Happly].
      destruct (apply_ops ops rest) as [[out0 rest0] |] eqn:H0; [| discriminate Happly].
      injection Happly as <- <-. destruct (IH _ _ _ H0) as (consumed & -> & Hdel & Hadd).
      exists (l :: consumed). cbn [List.filter is_del is_add fst map].
      split; [reflexivity |]. split; [apply sublist_cons; exact Hdel | apply sublist_cons; exact Hadd].
    + destruct rest as [| x rest]; [discriminate Happly |].
      destruct (String.eqb_spec x l) as [-> | Hne]; [| discriminate Happly].
      destruct (apply_ops ops rest) as [[out0 rest0] |] eqn:H0; [| discriminate Happly].
      injection Happly as <- <-. destruct (IH _ _ _ H0) as (consumed & -> & Hdel & Hadd).
      exists (l :: consumed). cbn [List.filter is_del is_add fst snd map].
      split; [reflexivity |]. split; [apply sublist_skip; exact Hdel | exact Hadd].
    + destruct (apply_ops ops rest) as [[out0 rest0] |] eqn:H0; [| discriminate Happly].
      injection Happly as <- <-. destruct (IH _ _ _ H0) as (consumed & -> & Hdel & Hadd).
      exists consumed. cbn [List.filter is_del is_add fst snd map].
      split; [reflexivity |]. split; [exact Hdel | apply sublist_skip; exact Hadd].
Qed.

Lemma apply_hunks_sublist (hunks : list Hunk) :
  forall pos rest out,
    apply_hunks hunks pos rest = Some out ->
    removed_lines (flat_map h_ops hunks) `sublist_of` rest
    /\ added_lines (flat_map h_ops hunks) `sublist_of` out.
Proof.
  unfold removed_lines, added_lines.
  induction hunks as [| h hunks IH]; intros pos rest out Hout; cbn [apply_hunks] in Hout.
  - split; apply sublist_nil_l.
  - destruct (h_start h <? pos)%nat; [discriminate Hout |].
    destruct (length rest <? h_start h - pos)%nat; [discriminate Hout |].
    destruct (apply_ops (h_ops h) (drop (h_start h - pos) rest)) as [[o r'] |] eqn:Hops;
      [| discriminate Hout].
    destruct (apply_hunks hunks _ r') as [tl |] eqn:Htl; [| discriminate Hout].
    injection Hout as <-.
    apply apply_ops_sublist in Hops as (consumed & Hrest & Hdel & Hadd).
    destruct (IH _ _ _ Htl) as [Hdel' Hadd'].
    cbn [flat_map]. rewrite !List.filter_app, !map_app. split.
    + rewrite <- (take_drop (h_start h - pos) rest), Hrest.
      apply sublist_inserts_l. apply sublist_app; assumption.
    + apply sublist_inserts_l. apply sublist_app; assumption.
Qed.

(** X18.  The diff body has no context lines: it is made of lines of the
    old content, each behind a [-], and lines of the new content, each
    behind a [+]; the removed lines appear in the order they have in the
    old content and the added lines in the order they have in the new
    content. *)
Theorem generate_diff_lines (old_content new_content path : string) :
  exists ops : list (LineOp * string),
    _generate_diff old_content new_content path = pystr.join "" (map op_line ops)
    /\ Forall (fun ol => fst ol = Del \/ fst ol = Add) ops
    /\ removed_lines ops `sublist_of` pystr.splitlines old_content
    /\ added_lines ops `sublist_of` pystr.splitlines new_content.
Proof.
  set (a := pystr.splitlines old_content). set (b := pystr.splitlines new_content).
  exists (flat_map h_ops (diff_hunks a b)). split; [| split].
  - rewrite generate_diff_hunk_lines. fold a b. f_equal.
    induction (diff_hunks a b) as [| h hunks IH]; [reflexivity |].
    cbn [flat_map]. rewrite map_app, IH. reflexivity.
  - eapply Forall_impl; [apply diff_hunks_no_context |].
    intros [[] l] Hk; cbn in *; [contradiction | auto | auto].
  - apply (apply_hunks_sublist (diff_hunks a b) 0 a b). apply diff_hunks_patch.
Qed.

End BodyLines.
(** ** The contracts of [get_matching_blocks] and [get_opcodes] *)

Section DifflibContracts.

Import difflib.

Variables a b : list string.

Local Abbreviation la := (length a).
Local Abbreviation lb := (length b).

Lemma chain_blocks (blocks : list Match) :
  forall i j, chain a b i j blocks ->
    Forall (fun m => (i <= m_a m)%nat /\ (j <= m_b m)%nat) blocks
    /\ Forall (block_matches a b) blocks
    /\ StronglySorted block_before blocks.
Proof.
  induction blocks as [| m blocks IH]; intros i j Hc.
  - repeat split; constructor.
  - destruct Hc as (Hi & Hj & Hla & Hlb & Hrun & Hrest).
    destruct (IH _ _ Hrest) as (Hge & Hm & Hs).
    split; [| split].
    + constructor; [lia |]. eapply Forall_impl; [exact Hge |]. cbn. intros x Hx. lia.
    + constructor; [| exact Hm]. split; [exact Hla |]. split; [exact Hlb |].
      apply same_run_slices; assumption.
    + constructor; [exact Hs |]. eapply Forall_impl; [exact Hge |]. intros x Hx. exact Hx.
Qed.

(** X19.  The contract of [get_matching_blocks]: every block lies inside
    both lists and covers equal lines, the blocks are ordered (each ends, in
    both lists, before the next begins), and the last one is the sentinel
    [(len(a), len(b), 0)]. *)
Theorem get_matching_blocks_contract :
  Forall (block_matches a b) (get_matching_blocks a b)
  /\ StronglySorted block_before (get_matching_blocks a b)
  /\ List.last (get_matching_blocks a b) (mkMatch 0 0 0) = mkMatch la lb 0.
Proof.
  destruct (chain_blocks _ 0 0 (get_matching_blocks_chain a b)) as (_ & Hm & Hs).
  split; [exact Hm |]. split; [exact Hs |].
  unfold get_matching_blocks. cbv zeta. apply last_last.
Qed.

Lemma opcodes_from_tile (blocks : list Match) :
  forall i j, chain a b i j blocks ->
    flat_map (fun c => slice a (i1 c) (i2 c)) (opcodes_from i j blocks) = drop i a
    /\ flat_map (fun c => slice b (j1 c) (j2 c)) (opcodes_from i j blocks) = drop j b.
Proof.
  induction blocks as [| [ai bj size] blocks IH]; intros i j Hc.
  - destruct Hc as [-> ->]. cbn [opcodes_from flat_map]. rewrite !drop_all. auto.
  - destruct Hc as (Hi & Hj & Hla & Hlb & Hrun & Hrest). cbn [m_a m_b m_size] in *.
    destruct (IH _ _ Hrest) as [IHa IHb].
    cbn [opcodes_from]. rewrite !flat_map_app, IHa, IHb.
    assert (Hsame_a : flat_map (fun c => slice a (i1 c) (i2 c))
                        (if (0 <? size)%nat then [mkOp equal ai (ai + size) bj (bj + size)] else [])
                      = slice a ai (ai + size)).
    { destruct (Nat.ltb_spec 0 size) as [_ | H0]; cbn [flat_map i1 i2]; [apply app_nil_r |].
      replace size with 0%nat by lia. rewrite Nat.add_0_r, slice_nil. reflexivity. }
    assert (Hsame_b : flat_map (fun c => slice b (j1 c) (j2 c))
                        (if (0 <? size)%nat then [mkOp equal ai (ai + size) bj (bj + size)] else [])
                      = slice b bj (bj + size)).
    { destruct (Nat.ltb_spec 0 size) as [_ | H0]; cbn [flat_map j1 j2]; [apply app_nil_r |].
      replace size with 0%nat by lia. rewrite Nat.add_0_r, slice_nil. reflexivity. }
    rewrite Hsame_a, Hsame_b.
    assert (Hchange : forall t,
              flat_map (fun c => slice a (i1 c) (i2 c)) [mkOp t i ai j bj] = slice a i ai
              /\ flat_map (fun c => slice b (j1 c) (j2 c)) [mkOp t i ai j bj] = slice b j bj).
    { intros t. cbn [flat_map i1 i2 j1 j2]. rewrite !app_nil_r. auto. }
    rewrite (drop_slice a i ai Hi), (drop_slice a ai (ai + size)) by lia.
    rewrite (drop_slice b j bj Hj), (drop_slice b bj (bj + size)) by lia.
    destruct (Nat.ltb_spec i ai) as [Hlt_i | Hge_i], (Nat.ltb_spec j bj) as [Hlt_j | Hge_j];
      cbn [andb].
    + rewrite !(proj1 (Hchange _)), !(proj2 (Hchange _)). auto.
    + rewrite !(proj1 (Hchange _)), !(proj2 (Hchange _)). auto.
    + rewrite !(proj1 (Hchange _)), !(proj2 (Hchange _)). auto.
    + cbn [flat_map app]. replace ai with i by lia. replace bj with j by lia.
      rewrite !slice_nil. auto.
Qed.

Lemma contig_code_ok (codes : list Opcode) :
  forall i j, contig a b i j codes -> Forall (code_ok a b) codes.
Proof.
  induction codes as [| c codes IH]; intros i j Hc; [constructor |].
  destruct Hc as (_ & _ & Hok & Hrest). constructor; [exact Hok | eapply IH; exact Hrest].
Qed.

(** X20.  The contract of [get_opcodes]: the ranges of the opcodes tile both
    lists (the slices [a[i1:i2]] follow one another and make up [a], the
    slices [b[j1:j2]] make up [b]), and each tag says what its ranges hold:
    ['equal'] covers equal lines, ['delete'] takes nothing from [b],
    ['insert'] takes nothing from [a]. *)
Theorem get_opcodes_contract :
  flat_map (fun c => slice a (i1 c) (i2 c)) (get_opcodes a b) = a
  /\ flat_map (fun c => slice b (j1 c) (j2 c)) (get_opcodes a b) = b
  /\ Forall (fun c => match tag c with
                      | equal => slice a (i1 c) (i2 c) = slice b (j1 c) (j2 c)
                      | delete => j1 c = j2 c
                      | insert => i1 c = i2 c
                      | replace => True
                      end) (get_opcodes a b).
Proof.
  destruct (opcodes_from_tile _ 0 0 (get_matching_blocks_chain a b)) as [Ha Hb].
  split; [exact Ha |]. split; [exact Hb |].
  eapply Forall_impl; [apply (contig_code_ok _ 0 0 (get_opcodes_contig a b)) |].
  intros c Hc. apply Hc.
Qed.

End DifflibContracts.
(** ** Lines, pending changes and renames *)

Section MoreProperties.

Context `{!PathMatcher}.

Arguments _generate_diff : simpl never.
Arguments posixpath.relpath : simpl never.
Arguments String.eqb : simpl never.

Lemma splitlines_nonempty (s : string) : Forall (fun l => l <> "") (pystr.splitlines s).
Proof.
  enough (Hboth : Forall (fun l => l <> "") (pystr.splitlines s)
                  /\ forall c, Forall (fun l => l <> "") (pystr.splitlines (String c s)))
    by apply Hboth.
  induction s as [| d s [IH1 IH2]].
  - split; [constructor |]. intros c. cbn [pystr.splitlines].
    destruct (pystr.is_linebreak c); repeat constructor; discriminate.
  - split; [apply IH2 |]. intros c.
    change (pystr.splitlines (String c (String d s)))
      with (if pystr.is_linebreak c then
              if Ascii.eqb c pystr.CR && Ascii.eqb d pystr.LF
              then String c (String d EmptyString) :: pystr.splitlines s
              else String c EmptyString :: pystr.splitlines (String d s)
            else match pystr.splitlines (String d s) with
                 | [] => [String c EmptyString]
                 | l :: ls => String c l :: ls
                 end).
    destruct (pystr.is_linebreak c).
    + destruct (_ && _); constructor; auto; discriminate.
    + specialize (IH2 d). destruct (pystr.splitlines (String d s)) as [| l ls].
      * repeat constructor. discriminate.
      * apply Forall_cons in IH2 as [_ Hls]. constructor; [discriminate | exact Hls].
Qed.

(** X21.  [splitlines(keepends=True)] loses nothing: joining the lines gives
    the text back, no line is empty, and there are as many lines as
    [splitlines()] gives without the boundaries. *)
Theorem splitlines_keepends_roundtrip (s : string) :
  pystr.join "" (pystr.splitlines s) = s
  /\ Forall (fun l => l <> "") (pystr.splitlines s)
  /\ length (pystr.splitlines s) = length (splitlines_nokeep s).
Proof.
  split; [apply join_splitlines |]. split; [apply splitlines_nonempty |].
  enough (Hboth : length (pystr.splitlines s) = length (splitlines_nokeep s)
                  /\ forall c, length (pystr.splitlines (String c s))
                               = length (splitlines_nokeep (String c s)))
    by apply Hboth.
  induction s as [| d s [IH1 IH2]].
  - split; [reflexivity |]. intros c. cbn [pystr.splitlines splitlines_nokeep].
    destruct (pystr.is_linebreak c); reflexivity.
  - split; [apply IH2 |]. intros c.
    change (pystr.splitlines (String c (String d s)))
      with (if pystr.is_linebreak c then
              if Ascii.eqb c pystr.CR && Ascii.eqb d pystr.LF
              then String c (String d EmptyString) :: pystr.splitlines s
              else String c EmptyString :: pystr.splitlines (String d s)
            else match pystr.splitlines (String d s) with
                 | [] => [String c EmptyString]
                 | l :: ls => String c l :: ls
                 end).
    change (splitlines_nokeep (String c (String d s)))
      with (if pystr.is_linebreak c then
              if Ascii.eqb c pystr.CR && Ascii.eqb d pystr.LF
              then EmptyString :: splitlines_nokeep s
              else EmptyString :: splitlines_nokeep (String d s)
            else match splitlines_nokeep (String d s) with
                 | [] => [String c EmptyString]
                 | l :: ls => String c l :: ls
                 end).
    specialize (IH2 d). destruct (pystr.is_linebreak c).
    + destruct (_ && _); cbn [length]; congruence.
    + destruct (pystr.splitlines (String d s)), (splitlines_nokeep (String d s));
        cbn [length] in *; congruence.
Qed.

(** X22.  A delete event cancels the pending change of its file: when a
    modify event scheduled a debounced change and a delete event for the
    same file follows, the path has no pending change and no debounce timer
    any more, and the timer of the change does nothing when it runs. *)
Theorem delete_cancels_pending_change
    (env0 env1 env2 : Env) (ev : FileSystemEvent) (s : FileWatcher) :
  use_debouncing s = true ->
  is_directory ev = false ->
  swap_or_backup (src_path ev) = false ->
  filtered_out s env0 (src_path ev) = false ->
  let s1 := on_modified env0 ev s in
  let s2 := on_deleted env1 ev s1 in
  src_path ev ∈ pending_changes s1
  /\ (src_path ev ∉ pending_changes s2)
  /\ debounce_timers s2 !! src_path ev = None
  /\ Timer_run env2 (length (timers s)) s2 = s2.
Proof.
  intros Hdeb Hdir Hswap Hfilt s1 s2. set (p := src_path ev) in *.
  assert (Hs1 : s1 = _schedule_debounced_change env0 p s)
    by (apply on_modified_scheduled; assumption).
  pose proof (schedule_tables env0 p s) as (_ & _ & _ & Hpc & Hdt & _).
  pose proof (schedule_timers env0 p s) as Hts.
  rewrite <- Hs1 in Hpc, Hdt, Hts.
  set (ts := match debounce_timers s !! p with
             | Some tid => alter cancel tid (timers s)
             | None => timers s
             end) in *.
  assert (Hlen : length ts = length (timers s)).
  { unfold ts. destruct (debounce_timers s !! p); [apply length_alter | reflexivity]. }
  assert (Hp1 : debounce_timers s1 !! p = Some (length (timers s)))
    by (rewrite Hdt; apply lookup_insert_eq).
  pose proof (cancel_pending_unfold p s1) as (Hcts & Hcdt & Hcpc).
  rewrite Hp1 in Hcts, Hcpc.
  set (s1' := cancel_pending p s1) in *.
  assert (Hfin : forall t, timers s1' !! length (timers s) = Some t -> finished t = true).
  { intros t Ht. rewrite Hcts, list_lookup_alter_eq, Hts in Ht.
    rewrite lookup_app_r, Hlen, Nat.sub_diag in Ht by lia. cbn in Ht.
    injection Ht as <-. reflexivity. }
  assert (Hbefore : (length (timers s) < length (timers s1'))%nat).
  { rewrite Hcts, length_alter, Hts, length_app, Hlen. cbn. lia. }
  assert (Hs2 : timers s2 !! length (timers s) = timers s1' !! length (timers s)
                /\ debounce_timers s2 = debounce_timers s1'
                /\ pending_changes s2 = pending_changes s1').
  { unfold s2, on_deleted. rewrite Hdir. fold p. rewrite Hswap. fold s1'.
    destruct (filtered_out s1' env1 p); [auto |].
    cbn [use_debouncing set_file_contents]. destruct (use_debouncing s1'); [| auto].
    cbn. split; [| auto]. apply lookup_app_l. exact Hbefore. }
  destruct Hs2 as (Hts2 & Hdt2 & Hpc2).
  split; [rewrite Hpc; apply elem_of_union; right; apply elem_of_singleton; reflexivity |].
  split; [rewrite Hpc2, Hcpc; intros Hin; apply elem_of_difference in Hin as [_ Hin];
          apply Hin, elem_of_singleton; reflexivity |].
  split; [rewrite Hdt2, Hcdt; apply lookup_delete_eq |].
  unfold Timer_run. rewrite Hts2. destruct (timers s1' !! length (timers s)) as [t |] eqn:Ht;
    [| reflexivity].
  rewrite (Hfin t eq_refl). reflexivity.
Qed.

(** X23.  The rename scan of [on_created] answers with the first entry of
    [recent_deletes], in the order of the dict, that is at most
    [rename_window] old and holds the content just read; it answers with
    none exactly when no entry is such. *)
Theorem rename_scan_first_match
    (now window : Z) (new_content : string) (items : list (string * (string * Z))) :
  (forall old_path,
     rename_scan now window new_content items = Some old_path
     <-> exists pre timestamp post,
           items = pre ++ (old_path, (new_content, timestamp)) :: post
           /\ (now - timestamp <= window)%Z
           /\ no_match new_content now window pre)
  /\ (rename_scan now window new_content items = None
      <-> no_match new_content now window items).
Proof.
  unfold no_match. induction items as [| [k [c ts]] items [IHsome IHnone]].
  - split.
    + intros old_path. split; [discriminate |].
      intros (pre & ts & post & Heq & _). destruct pre; discriminate Heq.
    + split; [constructor | reflexivity].
  - cbn [rename_scan].
    destruct (Z.leb_spec (now - ts) window) as [Hyoung | Hold];
      destruct (String.eqb_spec new_content c) as [<- | Hne]; cbn [andb].
    + split.
      * intros old_path. split.
        -- intros [= <-]. exists [], ts, items. repeat split; [exact Hyoung | constructor].
        -- intros (pre & ts' & post & Heq & Hy & Hpre). destruct pre as [| e pre].
           ++ injection Heq as <- _ _. reflexivity.
           ++ injection Heq as <- _. apply Forall_cons in Hpre as [[Hbad | Hbad] _];
                cbn [fst snd] in Hbad; [contradiction | lia].
      * split; [discriminate |]. intros Hall.
        apply Forall_cons in Hall as [[Hbad | Hbad] _]; cbn [fst snd] in Hbad;
          [contradiction | lia].
    + split.
      * intros old_path. rewrite IHsome. split.
        -- intros (pre & ts' & post & -> & Hy & Hpre).
           exists ((k, (c, ts)) :: pre), ts', post. repeat split; [exact Hy |].
           constructor; [left; cbn; congruence | exact Hpre].
        -- intros (pre & ts' & post & Heq & Hy & Hpre). destruct pre as [| e pre].
           ++ injection Heq as _ Hc _. congruence.
           ++ injection Heq as _ ->. apply Forall_cons in Hpre as [_ Hpre]. eauto 6.
      * rewrite IHnone. split.
        -- intros Hall. constructor; [left; cbn; congruence | exact Hall].
        -- intros Hall. apply Forall_cons in Hall as [_ Hall]. exact Hall.
    + split.
      * intros old_path. rewrite IHsome. split.
        -- intros (pre & ts' & post & -> & Hy & Hpre).
           exists ((k, (new_content, ts)) :: pre), ts', post. repeat split; [exact Hy |].
           constructor; [right; cbn; lia | exact Hpre].
        -- intros (pre & ts' & post & Heq & Hy & Hpre). destruct pre as [| e pre].
           ++ injection Heq as _ ->. lia.
           ++ injection Heq as _ ->. apply Forall_cons in Hpre as [_ Hpre]. eauto 6.
      * rewrite IHnone. split.
        -- intros Hall. constructor; [right; cbn; lia | exact Hall].
        -- intros Hall. apply Forall_cons in Hall as [_ Hall]. exact Hall.
    + split.
      * intros old_path. rewrite IHsome. split.
        -- intros (pre & ts' & post & -> & Hy & Hpre).
           exists ((k, (c, ts)) :: pre), ts', post. repeat split; [exact Hy |].
           constructor; [right; cbn; lia | exact Hpre].
        -- intros (pre & ts' & post & Heq & Hy & Hpre). destruct pre as [| e pre].
           ++ injection Heq as _ _ ->. lia.
           ++ injection Heq as _ ->. apply Forall_cons in Hpre as [_ Hpre]. eauto 6.
      * rewrite IHnone. split.
        -- intros Hall. constructor; [right; cbn; lia | exact Hall].
        -- intros Hall. apply Forall_cons in Hall as [_ Hall]. exact Hall.
Qed.

End MoreProperties.

Lemma delete_cancels_pending_change_witness :
  let env0 := env_at 0 [("/repo/a.txt", "y")] in
  let env1 := env_at 50 [] in
  let env2 := env_at 100 [] in
  let ev := file_event "/repo/a.txt" in
  let s := repo_watcher [("/repo/a.txt", "x")] in
  let s1 := on_modified env0 ev s in
  let s2 := on_deleted env1 ev s1 in
  "/repo/a.txt" ∈ pending_changes s1
  /\ ("/repo/a.txt" ∉ pending_changes s2)
  /\ debounce_timers s2 !! "/repo/a.txt" = None
  /\ Timer_run env2 0 s2 = s2.
Proof.
  intros env0 env1 env2 ev s.
  assert (Hfilt : filtered_out s env0 (src_path ev) = false) by (vm_compute; reflexivity).
  exact (delete_cancels_pending_change env0 env1 env2 ev s eq_refl eq_refl eq_refl Hfilt).
Defined.
(** ** Overlapping runs

    What happens when a handler runs between the two parts of [stop()], or
    between the two parts of [_handle_debounced_change]: the properties of
    the runs in which everything executes one at a time do not carry over. *)

Section Overlapping.

Context `{!PathMatcher}.

Arguments _generate_diff : simpl never.
Arguments posixpath.relpath : simpl never.
Arguments String.eqb : simpl never.

(** The parts, one after the other, are the whole. *)
Lemma stop_parts (s : FileWatcher) : stop s = stop_observer (stop_cancel_timers s).
Proof. reflexivity. Qed.

Lemma handle_debounced_change_parts (env : Env) (p : string) (s : FileWatcher) :
  _handle_debounced_change env p s
  = match _handle_debounced_change_begin p s with
    | Some s1 => _handle_debounced_change_end env p s1
    | None => s
    end.
Proof.
  unfold _handle_debounced_change, _handle_debounced_change_begin,
    _handle_debounced_change_end.
  destruct (bool_decide (p ∈ pending_changes s)); reflexivity.
Qed.

Lemma stop_cancel_timers_tables (s : FileWatcher) :
  same_config s (stop_cancel_timers s)
  /\ length (timers (stop_cancel_timers s)) = length (timers s)
  /\ debounce_timers (stop_cancel_timers s) = debounce_timers s
  /\ pending_changes (stop_cancel_timers s) = pending_changes s
  /\ file_contents (stop_cancel_timers s) = file_contents s
  /\ event_stream (stop_cancel_timers s) = event_stream s
  /\ observer_alive (stop_cancel_timers s) = observer_alive s
  /\ use_debouncing (stop_cancel_timers s) = use_debouncing s.
Proof.
  unfold stop_cancel_timers.
  induction (map snd (map_to_list (debounce_timers s))) as [| x l IH].
  - repeat split.
  - cbn [fold_right]. set (s' := fold_right cancel_timer s l) in *.
    destruct IH as ((Hd & Hp & Hi & Hg) & Hlen & Hdt & Hpc & Hfc & Hes & Hal & Hud).
    unfold cancel_timer.
    cbn [set_timers timers debounce_timers pending_changes file_contents event_stream
         observer_alive use_debouncing].
    split; [repeat split; assumption |]. rewrite length_alter. auto 8.
Qed.

Lemma debounced_change_end_tables (env : Env) (p : string) (s : FileWatcher) :
  let s' := _handle_debounced_change_end env p s in
  same_config s s'
  /\ timers s' = timers s
  /\ debounce_timers s' = delete p (debounce_timers s)
  /\ pending_changes s' = pending_changes s
  /\ observer_alive s' = observer_alive s
  /\ use_debouncing s' = use_debouncing s.
Proof.
  unfold _handle_debounced_change_end.
  match goal with |- context [filtered_out ?x env p] => destruct (filtered_out x env p) end;
    [repeat split |].
  destruct (swap_or_backup p); [repeat split |].
  match goal with |- context [negb ?c] => destruct (negb c) end; repeat split.
Qed.

(** X25.  [stop()] is not one step: when the observer thread handles a
    modify event for a watched file after the loop of [stop()] has cancelled
    the debounce timers and before the observer is stopped, the handler
    starts a debounce timer that nothing cancels; the observer is stopped,
    [stop()] returns, and when that timer runs the change is committed all
    the same. *)
Theorem change_committed_after_stop
    (env env' : Env) (ev : FileSystemEvent) (s : FileWatcher) :
  let p := src_path ev in
  observer_alive s = true ->
  use_debouncing s = true ->
  is_directory ev = false ->
  swap_or_backup p = false ->
  filtered_out s env p = false ->
  filtered_out s env' p = false ->
  let s1 := stop_cancel_timers s in
  let s2 := step env (Modified ev) s1 in
  let s3 := stop_observer s2 in
  let tid := length (timers s) in
  let old := default "" (file_contents s !! p) in
  let new := _read_file_content env' p in
  let rel := posixpath.relpath env' p (directory s) in
  observer_alive s3 = false
  /\ timers s3 !! tid = Some {| interval := debounce_delay s; started := time env;
                                function := handle_debounced_change p; finished := false |}
  /\ event_stream s3 = event_stream s
  /\ event_stream (Timer_run env' tid s3)
     = event_stream s ++
       (if String.eqb old new then []
        else [({| path := rel; prev_exist := true; old_content := old;
                  new_content := new; content := _generate_diff old new rel |}, USER)]).
Proof.
  intros p Halive Hdeb Hdir Hswap Hf Hf' s1 s2 s3 tid old new rel.
  pose proof (stop_cancel_timers_tables s)
    as (Hcfg1 & Hlen1 & Hdt1 & Hpc1 & Hfc1 & Hes1 & Hal1 & Hud1).
  fold s1 in Hcfg1, Hlen1, Hdt1, Hpc1, Hfc1, Hes1, Hal1, Hud1.
  assert (Hdd1 : debounce_delay s1 = debounce_delay s).
  { unfold s1, stop_cancel_timers.
    induction (map snd (map_to_list (debounce_timers s))) as [| x l IH]; [reflexivity | exact IH]. }
  assert (Hs2 : s2 = _schedule_debounced_change env p s1).
  { unfold s2. cbn [step]. rewrite Hal1, Halive.
    apply on_modified_scheduled; try assumption.
    - rewrite (filtered_out_same_config s s1 env p Hcfg1). exact Hf.
    - congruence. }
  pose proof (schedule_tables env p s1) as (Hes2 & Hfc2 & _ & Hpc2 & _ & _).
  pose proof (schedule_timers env p s1) as Hts2.
  pose proof (schedule_config env p s1) as Hcfg2.
  rewrite <- Hs2 in Hes2, Hfc2, Hpc2, Hts2, Hcfg2.
  set (t := {| interval := debounce_delay s; started := time env;
               function := handle_debounced_change p; finished := false |}).
  assert (Ht2 : timers s2 !! tid = Some t).
  { rewrite Hts2, Hdd1. apply lookup_appended.
    destruct (debounce_timers s1 !! p); rewrite ?length_alter; unfold tid; congruence. }
  assert (Hcfg3 : same_config s s3).
  { eapply same_config_trans; [exact Hcfg1 |].
    destruct Hcfg2 as (? & ? & ? & ?). repeat split; assumption. }
  split; [reflexivity |]. split; [exact Ht2 |].
  split; [change (event_stream s3) with (event_stream s2); congruence |].
  rewrite (debounced_change_fires env' tid t p s3 Ht2 eq_refl eq_refl).
  change (event_stream (cancel_timer ?n ?x)) with (event_stream x).
  assert (Hin : p ∈ pending_changes s3).
  { change (pending_changes s3) with (pending_changes s2). rewrite Hpc2.
    apply elem_of_union. right. apply elem_of_singleton. reflexivity. }
  pose proof (debounced_commit env' p s3 Hin
                ltac:(rewrite (filtered_out_same_config s s3 env' p Hcfg3); exact Hf') Hswap)
    as (Hev & _).
  cbn zeta in Hev. rewrite Hev.
  change (event_stream s3) with (event_stream s2).
  change (file_contents s3) with (file_contents s2).
  change (directory s3) with (directory s2).
  destruct Hcfg3 as (Hd3 & _). change (directory s3) with (directory s2) in Hd3.
  rewrite Hes2, Hes1, Hfc2, Hfc1, Hd3. reflexivity.
Qed.

(** X26.  [_handle_debounced_change] is not one step: when the observer
    thread handles a modify event for the path after the callback has
    removed the path from [pending_changes] and before it pops
    [debounce_timers], the callback pops the entry of the timer that the
    handler has just started.  The path is then pending without an entry in
    [debounce_timers], the new timer can still run though no entry holds it,
    and the next modify event starts another timer without cancelling it:
    two debounce timers for one path are outstanding. *)
Theorem modify_between_the_parts_of_a_commit
    (env env' env'' : Env) (ev : FileSystemEvent) (s : FileWatcher) :
  let p := src_path ev in
  observer_alive s = true ->
  use_debouncing s = true ->
  is_directory ev = false ->
  swap_or_backup p = false ->
  filtered_out s env p = false ->
  filtered_out s env'' p = false ->
  p ∈ pending_changes s ->
  exists s1,
    _handle_debounced_change_begin p s = Some s1
    /\ let s2 := step env (Modified ev) s1 in
       let s3 := _handle_debounced_change_end env' p s2 in
       let s4 := step env'' (Modified ev) s3 in
       let tid := length (timers s) in
       let t := {| interval := debounce_delay s; started := time env;
                   function := handle_debounced_change p; finished := false |} in
       let t' := {| interval := debounce_delay s; started := time env'';
                    function := handle_debounced_change p; finished := false |} in
       p ∈ pending_changes s3
       /\ debounce_timers s3 !! p = None
       /\ timers s3 !! tid = Some t
       /\ timers s4 !! tid = Some t
       /\ timers s4 !! S tid = Some t'.
Proof.
  intros p Halive Hdeb Hdir Hswap Hf Hf'' Hin.
  unfold _handle_debounced_change_begin. rewrite (bool_decide_eq_true_2 _ Hin).
  eexists. split; [reflexivity |].
  set (s1 := set_pending_changes _ s).
  set (s2 := step env (Modified ev) s1).
  set (s3 := _handle_debounced_change_end env' p s2).
  set (s4 := step env'' (Modified ev) s3).
  set (tid := length (timers s)).
  set (t := {| interval := debounce_delay s; started := time env;
               function := handle_debounced_change p; finished := false |}).
  assert (Hcfg1 : same_config s s1) by (repeat split).
  assert (Hs2 : s2 = _schedule_debounced_change env p s1).
  { unfold s2. cbn [step]. change (observer_alive s1) with (observer_alive s). rewrite Halive.
    apply on_modified_scheduled; assumption. }
  pose proof (schedule_tables env p s1) as (_ & _ & _ & Hpc2 & Hdt2 & Hud2 & Hdd2 & _ & Hal2).
  pose proof (schedule_timers env p s1) as Hts2.
  pose proof (schedule_config env p s1) as Hcfg2.
  rewrite <- Hs2 in Hpc2, Hdt2, Hud2, Hdd2, Hal2, Hts2, Hcfg2.
  change (debounce_delay s1) with (debounce_delay s) in Hts2, Hdd2.
  change (timers s1) with (timers s) in Hts2.
  change (debounce_timers s1) with (debounce_timers s) in Hts2.
  assert (Hlen2 : length (timers s2) = S tid).
  { rewrite Hts2, length_app. cbn.
    destruct (debounce_timers s !! p); rewrite ?length_alter; unfold tid; lia. }
  assert (Ht2 : timers s2 !! tid = Some t).
  { rewrite Hts2. apply lookup_appended.
    destruct (debounce_timers s !! p); rewrite ?length_alter; reflexivity. }
  pose proof (debounced_change_end_tables env' p s2)
    as (Hcfg3 & Hts3 & Hdt3 & Hpc3 & Hal3 & Hud3).
  fold s3 in Hcfg3, Hts3, Hdt3, Hpc3, Hal3, Hud3.
  assert (Hp3 : debounce_timers s3 !! p = None) by (rewrite Hdt3; apply lookup_delete_eq).
  assert (Hcfg : same_config s s3).
  { eapply same_config_trans; [exact Hcfg1 |].
    eapply same_config_trans; [exact Hcfg2 | exact Hcfg3]. }
  assert (Hs4 : s4 = _schedule_debounced_change env'' p s3).
  { unfold s4. cbn [step]. rewrite Hal3, Hal2. change (observer_alive s1) with (observer_alive s).
    rewrite Halive. apply on_modified_scheduled; try assumption.
    - rewrite (filtered_out_same_config s s3 env'' p Hcfg). exact Hf''.
    - rewrite Hud3, Hud2. exact Hdeb. }
  pose proof (schedule_timers env'' p s3) as Hts4. rewrite <- Hs4, Hp3, Hts3 in Hts4.
  split; [rewrite Hpc3, Hpc2; apply elem_of_union; right; apply elem_of_singleton; reflexivity |].
  split; [exact Hp3 |]. split; [rewrite Hts3; exact Ht2 |].
  split.
  - rewrite Hts4, lookup_before_appended by lia. exact Ht2.
  - rewrite Hts4. cbn [debounce_delay]. 
    assert (Hdd3 : debounce_delay s3 = debounce_delay s).
    { unfold s3, _handle_debounced_change_end.
      match goal with |- context [filtered_out ?x env' p] => destruct (filtered_out x env' p) end;
        [cbn; exact Hdd2 |].
      destruct (swap_or_backup p); [cbn; exact Hdd2 |].
      match goal with |- context [negb ?c] => destruct (negb c) end; cbn; exact Hdd2. }
    rewrite Hdd3. apply lookup_appended. symmetry. exact Hlen2.
Qed.

End Overlapping.

Lemma change_committed_after_stop_witness :
  let env := env_at 5 [("/repo/a.txt", "y")] in
  let env' := env_at 105 [("/repo/a.txt", "y")] in
  let ev := file_event "/repo/a.txt" in
  let s := repo_watcher [("/repo/a.txt", "x")] in
  let s3 := stop_observer (step env (Modified ev) (stop_cancel_timers s)) in
  observer_alive s3 = false
  /\ event_stream s3 = []
  /\ event_stream (Timer_run env' 0 s3)
     = [({| path := "a.txt"; prev_exist := true; old_content := "x";
            new_content := "y"; content := "-x+y" |}, USER)].
Proof.
  intros env env' ev s s3.
  assert (Hf : filtered_out s env (src_path ev) = false) by (vm_compute; reflexivity).
  assert (Hf' : filtered_out s env' (src_path ev) = false) by (vm_compute; reflexivity).
  destruct (change_committed_after_stop env env' ev s eq_refl eq_refl eq_refl eq_refl Hf Hf')
    as (Halive & _ & Hes & Hcommit).
  split; [exact Halive |]. split; [exact Hes |].
  etransitivity; [exact Hcommit |]. vm_compute. reflexivity.
Defined.

Lemma modify_between_the_parts_of_a_commit_witness :
  let env := env_at 100 [("/repo/a.txt", "y")] in
  let env'' := env_at 120 [("/repo/a.txt", "y")] in
  let ev := file_event "/repo/a.txt" in
  let p := "/repo/a.txt" in
  let s := run [(env_at 0 [("/repo/a.txt", "y")], Modified ev)]
             (repo_watcher [("/repo/a.txt", "x")]) in
  exists s1,
    _handle_debounced_change_begin p s = Some s1
    /\ let s3 := _handle_debounced_change_end env p (step env (Modified ev) s1) in
       let s4 := step env'' (Modified ev) s3 in
       p ∈ pending_changes s3
       /\ debounce_timers s3 !! p = None
       /\ map finished (timers s3) = [true; false]
       /\ map finished (timers s4) = [true; false; false].
Proof.
  intros env env'' ev p s.
  assert (Hf : filtered_out s env (src_path ev) = false) by (vm_compute; reflexivity).
  assert (Hf'' : filtered_out s env'' (src_path ev) = false) by (vm_compute; reflexivity).
  assert (Hin : src_path ev ∈ pending_changes s)
    by (apply (bool_decide_unpack _); vm_compute; exact I).
  destruct (modify_between_the_parts_of_a_commit env env env'' ev s
              eq_refl eq_refl eq_refl eq_refl Hf Hf'' Hin)
    as (s1 & Hbegin & Hpending & Hnone & _).
  exists s1. split; [exact Hbegin |]. split; [exact Hpending |]. split; [exact Hnone |].
  assert (Hs1 : s1 = set_pending_changes (fun ps => ps ∖ {[p]}) s).
  { unfold _handle_debounced_change_begin in Hbegin.
    destruct (bool_decide (src_path ev ∈ pending_changes s)); [| discriminate Hbegin].
    injection Hbegin as <-. reflexivity. }
  rewrite Hs1. split; vm_compute; reflexivity.
Defined.
